(** * MultiQC: the STAR and kraken2 modules

    A shallow embedding of [multiqc/star/__init__.py] and
    [multiqc/modules/kraken2/kraken2.py], and the properties of the
    parsing / aggregation pipeline proved over it.

    Conventions of the embedding:
    - a text is a list of characters with codes below 256 ([list ascii]): a
      byte string in Python 2, a [str] of such code points in Python 3; [\d]
      is the class of the ten digits, and [\s] is the class of [re] for the
      version of Python;
    - a Python [float] is an IEEE-754 binary64 number, [spec_float] at
      precision 53 and maximal exponent 1024, with the operations of
      [SpecFloat] (round to nearest, ties to even);
    - a Python [int] is a [Z];
    - a [dict] with string keys is a [gmap string _]; the order in which a
      loop over a dict meets its items is a parameter where a loop with
      effects depends on it;
    - exceptions are values of [exn]; code that raises or mutates runs in the
      state-and-exception monad [M]. *)

From Stdlib Require Import ZArith List String Ascii Bool Lia.
From Stdlib Require Import QArith Qpower Qabs Lqa.
From Stdlib Require Import Floats.SpecFloat.
From stdpp Require Import gmap strings list fin_maps.

Local Open Scope Z_scope.

(** ** Exceptions and the monads *)

Inductive exn :=
| KeyError (key : string)
| ValueError
| OverflowError
| ZeroDivisionError
| AttributeError (attr : string)
| TypeError
| IndentationError
| UserWarning.

Inductive result (A : Type) :=
| Ret (a : A)
| Raise (e : exn).
Arguments Ret {A} a.
Arguments Raise {A} e.

#[global] Instance result_ret : MRet result := @Ret.
#[global] Instance result_bind : MBind result :=
  fun A B f x => match x with Ret a => f a | Raise e => Raise e end.

(** A computation over a mutable state [S] that may raise: the state at the
    time of the [raise] is kept, as a [try ... except] needs it. *)
Definition M (S A : Type) : Type := S -> result A * S.

#[global] Instance M_ret {S} : MRet (M S) := fun A a s => (Ret a, s).
#[global] Instance M_bind {S} : MBind (M S) :=
  fun A B f x s => match x s with
                   | (Ret a, s') => f a s'
                   | (Raise e, s') => (Raise e, s')
                   end.

Definition lift {S A} (x : result A) : M S A := fun s => (x, s).
Definition raise {S A} (e : exn) : M S A := fun s => (Raise e, s).
Definition get {S} : M S S := fun s => (Ret s, s).
Definition modify {S} (f : S -> S) : M S unit := fun s => (Ret tt, f s).

(** [for x in l: body x] *)
Fixpoint for_each {S A} (l : list A) (body : A -> M S unit) : M S unit :=
  match l with
  | [] => mret tt
  | x :: l' => body x ≫= fun _ => for_each l' body
  end.

(** [try: body / except KeyError: pass] *)
Definition try_except_KeyError_pass {S} (body : M S unit) : M S unit :=
  fun s => match body s with
           | (Raise (KeyError _), s') => (Ret tt, s')
           | r => r
           end.

(** ** Python versions

    The module targets both Python 2 and Python 3
    ([from __future__ import print_function]); they differ in [round], in
    [/] on two ints and in the class [\s] of a pattern that is a [str]. *)
Inductive py_version := Py2 | Py3.

(** ** binary64 *)
Module F64.
Definition prec : Z := 53.
Definition emax : Z := 1024.

Definition add := SFadd prec emax.
Definition sub := SFsub prec emax.
Definition mul := SFmul prec emax.
Definition div := SFdiv prec emax.

Definition is_zero (x : spec_float) : bool :=
  match x with S754_zero _ => true | _ => false end.

(** The correctly rounded quotient [n / d] of two positive integers, the
    sign given apart. *)
Definition of_ratio (s : bool) (n d : positive) : spec_float :=
  let '(q, e, l) := SFdiv_core_binary prec emax (Zpos n) 0 (Zpos d) 0 in
  binary_round_aux prec emax s q e l.

(** The correctly rounded value of an integer (infinite when too large). *)
Definition of_Z (z : Z) : spec_float := binary_normalize prec emax z 0 false.

(** Truncation toward zero of a finite number. *)
Definition trunc (s : bool) (m : positive) (e : Z) : Z :=
  cond_Zopp s (if 0 <=? e then Zpos m * 2 ^ e else Zpos m / 2 ^ (- e)).

(** The integer nearest to [m * 2^e] with [e < 0], in absolute value: ties
    go to the even integer ([half_even]) or away from zero. *)
Definition nearest (half_even : bool) (m : positive) (e : Z) : Z :=
  let d := 2 ^ (- e) in
  let q := Zpos m / d in
  let r := Zpos m mod d in
  match 2 * r ?= d with
  | Lt => q
  | Gt => q + 1
  | Eq => if half_even && Z.even q then q else q + 1
  end.
End F64.

Abbreviation float := spec_float.

(** ** Python numbers *)

Inductive pyval :=
| PyFloat (x : float)
| PyInt (n : Z).

(** [int] to [float], as an arithmetic operator with one float operand does
    it: correctly rounded, [OverflowError] beyond the range of binary64. *)
Definition float_of_int (n : Z) : result float :=
  match F64.of_Z n with
  | S754_infinity _ => Raise OverflowError
  | x => Ret x
  end.

Definition as_float (a : pyval) : result float :=
  match a with
  | PyFloat x => Ret x
  | PyInt n => float_of_int n
  end.

Definition py_arith (fz : Z -> Z -> Z) (ff : float -> float -> float)
    (a b : pyval) : result pyval :=
  match a, b with
  | PyInt m, PyInt n => Ret (PyInt (fz m n))
  | _, _ => x ← as_float a; y ← as_float b; Ret (PyFloat (ff x y))
  end.

Definition py_add := py_arith Z.add F64.add.
Definition py_sub := py_arith Z.sub F64.sub.
Definition py_mul := py_arith Z.mul F64.mul.

(** [a / b]: dividing by a zero raises; two ints divide to the floor in
    Python 2 and to the correctly rounded float in Python 3. *)
Definition py_div (v : py_version) (a b : pyval) : result pyval :=
  match a, b with
  | PyInt m, PyInt n =>
      if n =? 0 then Raise ZeroDivisionError
      else match v with
           | Py2 => Ret (PyInt (m / n))
           | Py3 =>
               match m, n with
               | Zpos p, Zpos q | Zneg p, Zneg q =>
                   match F64.of_ratio false p q with
                   | S754_infinity _ => Raise OverflowError
                   | x => Ret (PyFloat x)
                   end
               | Zpos p, Zneg q | Zneg p, Zpos q =>
                   match F64.of_ratio true p q with
                   | S754_infinity _ => Raise OverflowError
                   | x => Ret (PyFloat x)
                   end
               | _, _ => Ret (PyFloat (S754_zero (n <? 0)))
               end
           end
  | _, _ =>
      x ← as_float a; y ← as_float b;
      if F64.is_zero y then Raise ZeroDivisionError
      else Ret (PyFloat (F64.div x y))
  end.

(** [round(a, 0)]: a float rounds to the nearest integral float, ties to even
    in Python 3 and away from zero in Python 2; zeros, infinities and NaN
    round to themselves. *)
Definition py_round (v : py_version) (a : pyval) : result pyval :=
  match a with
  | PyFloat (S754_finite s m e) =>
      if 0 <=? e then Ret a
      else
        let n := F64.nearest (match v with Py3 => true | Py2 => false end) m e in
        Ret (PyFloat (binary_normalize F64.prec F64.emax (cond_Zopp s n) 0 s))
  | PyFloat _ => Ret a
  | PyInt n =>
      match v with
      | Py3 => Ret a
      | Py2 => x ← float_of_int n; Ret (PyFloat x)
      end
  end.

(** [int(a)] *)
Definition py_int (a : pyval) : result Z :=
  match a with
  | PyInt n => Ret n
  | PyFloat (S754_zero _) => Ret 0
  | PyFloat (S754_finite s m e) => Ret (F64.trunc s m e)
  | PyFloat (S754_infinity _) => Raise OverflowError
  | PyFloat S754_nan => Raise ValueError
  end.

(** *** [float(s)] on the strings a group [(\d+)] or [([\d\.]+)] captures

    Over the alphabet of digits and [.], [float] accepts digits with at most
    one point and at least one digit, and returns the correctly rounded value
    (infinite for a value beyond the range); anything else is a
    [ValueError]. *)
Definition digit_val (c : ascii) : option Z :=
  let n := Z.of_nat (nat_of_ascii c) in
  if (48 <=? n) && (n <=? 57) then Some (n - 48) else None.

(** Reads [digits][.digits]: the digits read so far as an integer, the number
    of digits read and, once the point is passed, the number of digits after
    it. *)
Fixpoint read_decimal (s : list ascii) (acc : Z) (ndigits : nat)
    (frac : option nat) : option (Z * nat * nat) :=
  match s with
  | [] => Some (acc, ndigits, default 0%nat frac)
  | c :: s' =>
      match digit_val c with
      | Some d => read_decimal s' (10 * acc + d) (S ndigits) (S <$> frac)
      | None =>
          if Ascii.eqb c "." then
            match frac with
            | None => read_decimal s' acc ndigits (Some 0%nat)
            | Some _ => None
            end
          else None
      end
  end.

Definition py_float (s : list ascii) : result float :=
  match read_decimal s 0 0 None with
  | Some (n, S _, k) =>
      match n with
      | Zpos p => Ret (F64.of_ratio false p (Z.to_pos (10 ^ Z.of_nat k)))
      | _ => Ret (S754_zero false)
      end
  | _ => Raise ValueError
  end.

(** ** Regular expressions: the fragment of [re] the two modules use

    Characters, classes, greedy bounded or unbounded repetition of a class,
    [^], sequence and (not nested) capturing groups, matched by backtracking
    as [re] does. A position in the subject is the pair of what was consumed
    (reversed) and what remains. *)
Module Re.
Definition NL : ascii := "010".
Definition TAB : ascii := "009".

(** [\s] in a pattern that is a [str], compiled without flags for the
    class: in Python 2 the ASCII whitespace, blank and [\t\n\v\f\r]; in
    Python 3 the Unicode whitespace, which below 256 adds the separators
    28 to 31, NEL (133) and the no-break space (160). *)
Definition is_space (v : py_version) (c : ascii) : bool :=
  let n := nat_of_ascii c in
  (n =? 32)%nat || ((9 <=? n)%nat && (n <=? 13)%nat)
  || match v with
     | Py2 => false
     | Py3 => ((28 <=? n)%nat && (n <=? 31)%nat) || (n =? 133)%nat
              || (n =? 160)%nat
     end.

(** [\d] *)
Definition is_digit (c : ascii) : bool :=
  let n := nat_of_ascii c in (48 <=? n)%nat && (n <=? 57)%nat.

(** [[\d\.]] *)
Definition is_digit_or_dot (c : ascii) : bool :=
  is_digit c || Ascii.eqb c ".".

(** [.] without DOTALL *)
Definition not_newline (c : ascii) : bool := negb (Ascii.eqb c NL).

Inductive regex :=
| Eps
| Cls (p : ascii -> bool)
| Rep (p : ascii -> bool) (lo : nat) (hi : option nat)
| Bol
| Seq (r1 r2 : regex)
| Grp (r : regex).

Definition chr (c : ascii) : regex := Cls (Ascii.eqb c).
Definition plus (p : ascii -> bool) : regex := Rep p 1 None.
Definition lit (s : string) : regex :=
  foldr (fun c r => Seq (chr c) r) Eps (list_ascii_of_string s).

Section Matcher.
Context {R : Type}.

(** Greedy [p{lo,hi}]: one more character first, the shorter match when
    the rest of the pattern fails after it. *)
Fixpoint rep (p : ascii -> bool) (lo : nat) (hi : option nat)
    (before rest : list ascii)
    (k : list ascii -> list ascii -> option R) {struct rest} : option R :=
  let stop := match lo with O => k before rest | S _ => None end in
  match rest with
  | [] => stop
  | c :: rest' =>
      if p c && match hi with Some O => false | _ => true end then
        match rep p (Nat.pred lo) (Nat.pred <$> hi) (c :: before) rest' k with
        | Some m => Some m
        | None => stop
        end
      else stop
  end.

(** [^]: at the start of the subject and, under MULTILINE, after each
    newline. *)
Definition at_bol (multiline : bool) (before : list ascii) : bool :=
  match before with
  | [] => true
  | c :: _ => multiline && Ascii.eqb c NL
  end.

Fixpoint rmatch (multiline : bool) (r : regex)
    (before rest : list ascii) (groups : list (list ascii))
    (k : list ascii -> list ascii -> list (list ascii) -> option R)
    : option R :=
  match r with
  | Eps => k before rest groups
  | Cls p =>
      match rest with
      | c :: rest' => if p c then k (c :: before) rest' groups else None
      | [] => None
      end
  | Rep p lo hi => rep p lo hi before rest (fun b r => k b r groups)
  | Bol => if at_bol multiline before then k before rest groups else None
  | Seq r1 r2 =>
      rmatch multiline r1 before rest groups
        (fun b r g => rmatch multiline r2 b r g k)
  | Grp r1 =>
      rmatch multiline r1 before rest groups
        (fun b r g =>
           k b r (g ++ [rev (take (length b - length before) b)]))
  end.
End Matcher.

(** The groups of the match that starts here, if there is one. *)
Definition match_here (multiline : bool) (r : regex)
    (before rest : list ascii) : option (list (list ascii)) :=
  rmatch multiline r before rest [] (fun _ _ g => Some g).

(** [re.search]: the match at the leftmost position that has one. *)
Fixpoint search_from (multiline : bool) (r : regex)
    (before rest : list ascii) : option (list (list ascii)) :=
  match match_here multiline r before rest with
  | Some g => Some g
  | None =>
      match rest with
      | [] => None
      | c :: rest' => search_from multiline r (c :: before) rest'
      end
  end.

Definition search (multiline : bool) (r : regex) (s : list ascii)
    : option (list (list ascii)) :=
  search_from multiline r [] s.

(** [m.group(n)] for [n >= 1] *)
Definition group (n : nat) (g : list (list ascii)) : list ascii :=
  nth (Nat.pred n) g [].
End Re.

(** ** The framework the modules call into

    The base class [BaseMultiqcModule], the module [config] and the logger
    are not part of the two files. What the modules do to them is recorded in
    the state: log records, files handed to the writer, the shared general
    statistics table, and the HTML of the module. *)

Abbreviation FieldMap := (gmap string pyval).
Abbreviation Dataset := (gmap string (gmap string pyval)).

(** What the log locator yields for one file: [f['s_name']] and [f['f']]. *)
Record log_file := { s_name : string; f_content : list ascii }.

Inductive level := DEBUG | INFO.

Inductive fmt_arg :=
| AStr (s : string)
| ANat (n : nat).

(** [log.<level>(template.format(args))] *)
Record log_record := { lvl : level; template : string; args : list fmt_arg }.

Inductive html :=
| Html (s : string)
| Format (template : string) (x : pyval)
| Bargraph (data : gmap string (gmap string pyval))
    (keys : list (string * (string * string)))
    (config : list (string * string)).

Record World := {
  log : list log_record;
  written : list (string * gmap string (gmap string pyval));
  general_stats_headers : gmap string html;
  general_stats_rows : gmap string (gmap string html);
}.

Definition empty_world : World :=
  {| log := []; written := []; general_stats_headers := ∅;
     general_stats_rows := ∅ |}.

Definition add_log (r : log_record) (w : World) : World :=
  {| log := log w ++ [r]; written := written w;
     general_stats_headers := general_stats_headers w;
     general_stats_rows := general_stats_rows w |}.

Definition add_written (fn : string) (d : gmap string (gmap string pyval))
    (w : World) : World :=
  {| log := log w; written := written w ++ [(fn, d)];
     general_stats_headers := general_stats_headers w;
     general_stats_rows := general_stats_rows w |}.

(** [config.general_stats['headers'][k] = h] *)
Definition set_header (k : string) (h : html) (w : World) : World :=
  {| log := log w; written := written w;
     general_stats_headers := <[k := h]> (general_stats_headers w);
     general_stats_rows := general_stats_rows w |}.

(** [config.general_stats['rows'][sn][k] = c]; the row of a sample is made
    on first use. *)
Definition set_cell (sn k : string) (c : html) (w : World) : World :=
  {| log := log w; written := written w;
     general_stats_headers := general_stats_headers w;
     general_stats_rows :=
       <[sn := <[k := c]> (default ∅ (general_stats_rows w !! sn))]>
         (general_stats_rows w) |}.

(** The read-only part of [config]: the analysed directory and the
    sample-name ignore-list, as the predicate "matches an ignore pattern". *)
Record Config := {
  analysis_dir : string;
  sample_ignored : string -> bool;
}.

(** The order in which a loop over the Dataset meets its items. Python
    leaves it to the implementation of [dict]: the order of insertion from
    CPython 3.7 on, the order of the hash table before and in Python 2. It
    is a parameter of the code that loops over the Dataset, and the
    properties of that code are proved for every order that [enumerates]
    the items, each once. *)
Definition dict_order : Type :=
  gmap string (gmap string pyval) -> list (string * gmap string pyval).

Definition enumerates (items : dict_order) : Prop :=
  forall d, items d ≡ₚ map_to_list d.

(** What becomes of a module in a run of the pipeline. *)
Inductive outcome :=
| Reported
| Skipped
| Crashed (e : exn).

(** Modelled from the spec: the pipeline that runs a module and receives
    what the module raises, which is not in the two files. With an empty
    final Dataset "the whole module signals nothing to report (a non-fatal,
    pipeline-level skip, not a crash)", "not an exception surfaced to the
    end user", and "the module is omitted from the final report"; the signal
    of the two modules is [raise UserWarning]. A module that ends normally
    is reported, and any other exception is a crash of the module. *)
Definition pipeline_outcome (r : result unit) : outcome :=
  match r with
  | Ret _ => Reported
  | Raise UserWarning => Skipped
  | Raise e => Crashed e
  end.

(** Modelled from the spec: [BaseMultiqcModule.ignore_samples], which is not
    in the two files: the ignore-list filter, "exact or pattern match against
    a configured set of sample-name exclusions", drops every sample whose name
    matches and keeps the others as they are. *)
Definition ignore_samples (cfg : Config)
    (data : gmap string (gmap string pyval)) : gmap string (gmap string pyval) :=
  filter (fun kv => sample_ignored cfg kv.1 = false) data.

(** ** The STAR module: [multiqc/star/__init__.py] *)

(** [d[k]] and [d[k] = x] on the dict held in the state *)
Definition getitem (k : string) : M (gmap string pyval) pyval :=
  fun d => match d !! k with
           | Some x => (Ret x, d)
           | None => (Raise (KeyError k), d)
           end.

Definition setitem (k : string) (x : pyval) : M (gmap string pyval) unit :=
  modify (<[k := x]>).

Module Star.
Import Re.

(** [label \|\s+(\d+)] *)
Definition count_re (v : py_version) (label : string) : regex :=
  Seq (lit label)
    (Seq (lit " |") (Seq (plus (is_space v)) (Grp (plus is_digit)))).

(** [label \|\s+([\d\.]+)] *)
Definition decimal_re (v : py_version) (label : string) : regex :=
  Seq (lit label)
    (Seq (lit " |") (Seq (plus (is_space v)) (Grp (plus is_digit_or_dot)))).

(** The dict [regexes], as the patterns mean under the version [v]. *)
Definition regexes (v : py_version) : list (string * regex) :=
  [ ("total_reads", count_re v "Number of input reads");
    ("avg_input_read_length", decimal_re v "Average input read length");
    ("uniquely_mapped", count_re v "Uniquely mapped reads number");
    ("uniquely_mapped_percent", decimal_re v "Uniquely mapped reads %");
    ("avg_mapped_read_length", decimal_re v "Average mapped length");
    ("num_splices", count_re v "Number of splices: Total");
    ("num_annotated_splices", count_re v "Number of splices: Annotated (sjdb)");
    ("num_GTAG_splices", count_re v "Number of splices: GT/AG");
    ("num_GCAG_splices", count_re v "Number of splices: GC/AG");
    ("num_ATAC_splices", count_re v "Number of splices: AT/AC");
    ("num_noncanonical_splices", count_re v "Number of splices: Non-canonical");
    ("mismatch_rate", decimal_re v "Mismatch rate per base, %");
    ("deletion_rate", decimal_re v "Deletion rate per base");
    ("deletion_length", decimal_re v "Deletion average length");
    ("insertion_rate", decimal_re v "Insertion rate per base");
    ("insertion_length", decimal_re v "Insertion average length");
    ("multimapped", count_re v "Number of reads mapped to multiple loci");
    ("multimapped_percent", decimal_re v "% of reads mapped to multiple loci");
    ("multimapped_toomany", count_re v "Number of reads mapped to too many loci");
    ("multimapped_toomany_percent",
      decimal_re v "% of reads mapped to too many loci");
    ("unmapped_mismatches_percent",
      decimal_re v "% of reads unmapped: too many mismatches");
    ("unmapped_tooshort_percent", decimal_re v "% of reads unmapped: too short");
    ("unmapped_other_percent", decimal_re v "% of reads unmapped: other") ].

(** The body of the loop over [regexes.items()]. *)
Definition extract_field (raw_data : list ascii) (kr : string * regex)
    : M (gmap string pyval) unit :=
  match search true kr.2 raw_data with
  | Some r_search =>
      x ← lift (py_float (group 1 r_search));
      setitem kr.1 (PyFloat x)
  | None => mret tt
  end.

(** [int(round(unmapped_count * (parsed_data[k] / total_unmapped_percent), 0))] *)
Definition derived_count (v : py_version)
    (unmapped_count total_unmapped_percent : pyval) (k : string)
    : M (gmap string pyval) pyval :=
  p ← getitem k;
  q ← lift (py_div v p total_unmapped_percent);
  y ← lift (py_mul unmapped_count q);
  r ← lift (py_round v y);
  n ← lift (py_int r);
  mret (PyInt n).

(** The body of the [try]. *)
Definition derive_unmapped (v : py_version) : M (gmap string pyval) unit :=
  um ← getitem "uniquely_mapped";
  mm ← getitem "multimapped";
  s ← lift (py_add um mm);
  mt ← getitem "multimapped_toomany";
  total_mapped ← lift (py_add s mt);
  tr ← getitem "total_reads";
  unmapped_count ← lift (py_sub tr total_mapped);
  p1 ← getitem "unmapped_mismatches_percent";
  p2 ← getitem "unmapped_tooshort_percent";
  s' ← lift (py_add p1 p2);
  p3 ← getitem "unmapped_other_percent";
  total_unmapped_percent ← lift (py_add s' p3);
  c1 ← derived_count v unmapped_count total_unmapped_percent
         "unmapped_mismatches_percent";
  _ ← setitem "unmapped_mismatches" c1;
  c2 ← derived_count v unmapped_count total_unmapped_percent
         "unmapped_tooshort_percent";
  _ ← setitem "unmapped_tooshort" c2;
  c3 ← derived_count v unmapped_count total_unmapped_percent
         "unmapped_other_percent";
  setitem "unmapped_other" c3.

(** The loop over [regexes.items()]. *)
Definition extract_fields (v : py_version) (raw_data : list ascii)
    : M (gmap string pyval) unit :=
  for_each (regexes v) (extract_field raw_data).

(** [parse_star_report]: [Ret None] is Python's [None]. *)
Definition parse_star_report (v : py_version) (raw_data : list ascii)
    : result (option (gmap string pyval)) :=
  let body :=
    _ ← extract_fields v raw_data;
    try_except_KeyError_pass (derive_unmapped v) in
  match body ∅ with
  | (Ret _, parsed_data) =>
      if decide (size parsed_data = 0%nat) then Ret None
      else Ret (Some parsed_data)
  | (Raise e, _) => Raise e
  end.

(** *** The module object and [__init__] *)

Record state := {
  name : string;
  anchor : string;
  intro : list html;
  star_data : gmap string (gmap string pyval);
  sections : list html;
  world : World;
}.

(** The object before [__init__] runs, in a run that has written nothing. *)
Definition blank : state :=
  {| name := ""; anchor := ""; intro := []; star_data := ∅; sections := [];
     world := empty_world |}.

Definition set_static (n a : string) (i : list html) (st : state) : state :=
  {| name := n; anchor := a; intro := i; star_data := star_data st;
     sections := sections st; world := world st |}.

Definition set_star_data (d : gmap string (gmap string pyval)) (st : state)
    : state :=
  {| name := name st; anchor := anchor st; intro := intro st;
     star_data := d; sections := sections st; world := world st |}.

Definition set_sections (l : list html) (st : state) : state :=
  {| name := name st; anchor := anchor st; intro := intro st;
     star_data := star_data st; sections := l; world := world st |}.

Definition add_intro (h : html) (st : state) : state :=
  {| name := name st; anchor := anchor st; intro := intro st ++ [h];
     star_data := star_data st; sections := sections st; world := world st |}.

Definition on_world (g : World -> World) (st : state) : state :=
  {| name := name st; anchor := anchor st; intro := intro st;
     star_data := star_data st; sections := sections st;
     world := g (world st) |}.

Definition log_debug (t : string) (a : list fmt_arg) : M state unit :=
  modify (on_world (add_log {| lvl := DEBUG; template := t; args := a |})).

Definition log_info (t : string) (a : list fmt_arg) : M state unit :=
  modify (on_world (add_log {| lvl := INFO; template := t; args := a |})).

(** The double quote, and [name="value"] *)
Definition dq : string := String "034" EmptyString.
Definition attr (n v : string) : string := n ++ "=" ++ dq ++ v ++ dq.

Definition intro_html : string :=
  "<p><a " ++ attr "href" "https://github.com/alexdobin/STAR" ++ " "
    ++ attr "target" "_blank" ++ ">STAR</a> "
    ++ "            is an ultrafast universal RNA-seq aligner.</p>".

(** The body of the loop over [find_log_files('Log.final.out')]. *)
Definition load_report (v : py_version) (f : log_file) : M state unit :=
  parsed_data ← lift (parse_star_report v (f_content f));
  match parsed_data with
  | Some d =>
      st ← get;
      _ ← match star_data st !! s_name f with
          | Some _ =>
              log_debug "Duplicate sample name found! Overwriting: {}"
                [AStr (s_name f)]
          | None => mret tt
          end;
      modify (fun st => set_star_data (<[s_name f := d]> (star_data st)) st)
  | None => mret tt
  end.

(** [self.star_data = dict()] and the loop. *)
Definition load_reports (v : py_version) (found : list log_file)
    : M state unit :=
  _ ← modify (set_star_data ∅);
  for_each found (load_report v).

Definition dict_get (d : gmap string pyval) (k : string) : result pyval :=
  match d !! k with
  | Some x => Ret x
  | None => Raise (KeyError k)
  end.

Definition th_percent : string :=
  "<th " ++ attr "class" "chroma-col" ++ " "
    ++ attr "data-chroma-scale" "YlGn" ++ " "
    ++ attr "data-chroma-max" "100" ++ " "
    ++ attr "data-chroma-min" "0" ++ "><span "
    ++ attr "data-toggle" "tooltip" ++ " "
    ++ attr "title" "STAR: % Uniquely mapped reads"
    ++ ">% Mapped</span></th>".

Definition th_mapped : string :=
  "<th " ++ attr "class" "chroma-col" ++ " "
    ++ attr "data-chroma-scale" "PuRd" ++ " "
    ++ attr "data-chroma-min" "0" ++ "><span "
    ++ attr "data-toggle" "tooltip" ++ " "
    ++ attr "title" "STAR: Uniquely mapped reads (millions)"
    ++ ">M Mapped</span></th>".

Definition td_percent : string :=
  "<td " ++ attr "class" "text-right" ++ ">{:.1f}%</td>".
Definition td_mapped : string :=
  "<td " ++ attr "class" "text-right" ++ ">{:.1f}</td>".

(** The body of the loop of [star_stats_table]. *)
Definition stats_row (v : py_version) (row : string * gmap string pyval)
    : M state unit :=
  x ← lift (dict_get row.2 "uniquely_mapped_percent");
  _ ← modify (on_world
        (set_cell row.1 "uniquely_mapped_percent" (Format td_percent x)));
  y ← lift (dict_get row.2 "uniquely_mapped");
  z ← lift (py_div v y (PyInt 1000000));
  modify (on_world (set_cell row.1 "uniquely_mapped" (Format td_mapped z))).

(** [star_stats_table]; the loop meets the items of [self.star_data] in the
    order [items] of the dict. *)
Definition star_stats_table (v : py_version) (items : dict_order)
    : M state unit :=
  _ ← modify (on_world
        (set_header "uniquely_mapped_percent" (Html th_percent)));
  _ ← modify (on_world (set_header "uniquely_mapped" (Html th_mapped)));
  st ← get;
  for_each (items (star_data st)) (stats_row v).

Definition chart_keys : list (string * (string * string)) :=
  [ ("uniquely_mapped", ("#437bb1", "Uniquely mapped"));
    ("multimapped", ("#7cb5ec", "Mapped to multiple loci"));
    ("multimapped_toomany", ("#f7a35c", "Mapped to too many loci"));
    ("unmapped_mismatches", ("#e63491", "Unmapped: too many mismatches"));
    ("unmapped_tooshort", ("#b1084c", "Unmapped: too short"));
    ("unmapped_other", ("#7f0000", "Unmapped: other")) ].

Definition chart_config : list (string * string) :=
  [ ("title", "STAR Alignment Scores");
    ("ylab", "# Reads");
    ("cpswitch_counts_label", "Number of Reads") ].

(** [plot_bargraph] is the framework's; its result is kept as the call. *)
Definition star_alignment_chart : M state html :=
  st ← get;
  mret (Bargraph (star_data st) chart_keys chart_config).

(** What [__init__] does once the reports are loaded. *)
Definition report (v : py_version) (items : dict_order) (cfg : Config)
    : M state unit :=
  st ← get;
  if decide (size (star_data st) = 0%nat) then
    _ ← log_debug "Could not find any reports in {}" [AStr (analysis_dir cfg)];
    raise UserWarning
  else
    _ ← log_info "Found {} reports" [ANat (size (star_data st))];
    _ ← modify (on_world (add_written "multiqc_star.txt" (star_data st)));
    _ ← modify (set_sections []);
    _ ← star_stats_table v items;
    chart ← star_alignment_chart;
    modify (add_intro chart).

(** [MultiqcModule.__init__], given what [find_log_files] yields. *)
Definition init (v : py_version) (items : dict_order) (cfg : Config)
    (found : list log_file) : M state unit :=
  _ ← modify (set_static "STAR" "star" [Html intro_html]);
  _ ← load_reports v found;
  report v items cfg.
End Star.

(** ** The kraken2 module: [multiqc/modules/kraken2/kraken2.py] *)
Module Kraken2.
Import Re.

Record state := {
  name : string;
  anchor : string;
  href : string;
  info : string;
  kraken2_data : gmap string (gmap string pyval);
  world : World;
}.

(** The object before [__init__] runs, in a run that has written nothing. *)
Definition blank : state :=
  {| name := ""; anchor := ""; href := ""; info := ""; kraken2_data := ∅;
     world := empty_world |}.

Definition set_static (n a h i : string) (st : state) : state :=
  {| name := n; anchor := a; href := h; info := i;
     kraken2_data := kraken2_data st; world := world st |}.

Definition set_kraken2_data (d : gmap string (gmap string pyval))
    (st : state) : state :=
  {| name := name st; anchor := anchor st; href := href st; info := info st;
     kraken2_data := d; world := world st |}.

Definition on_world (g : World -> World) (st : state) : state :=
  {| name := name st; anchor := anchor st; href := href st; info := info st;
     kraken2_data := kraken2_data st; world := g (world st) |}.

Definition log_info (t : string) (a : list fmt_arg) : M state unit :=
  modify (on_world (add_log {| lvl := INFO; template := t; args := a |})).

Definition is_rank (c : ascii) : bool :=
  existsb (Ascii.eqb c) (list_ascii_of_string "UDKPCOFGS-").

(** [^\s{1,2}(\d{1,2}\.\d{1,2})\t(\d+)\t(\d+)\t([UDKPCOFGS-])\t(\d+)\s+(.+)]
    (the string is not raw: [\t] is the tab character itself), as it means
    under the version [v] *)
Definition regex (v : py_version) : Re.regex :=
  Seq Bol
    (Seq (Rep (is_space v) 1 (Some 2%nat))
    (Seq (Grp (Seq (Rep is_digit 1 (Some 2%nat))
                (Seq (chr ".") (Rep is_digit 1 (Some 2%nat)))))
    (Seq (chr TAB) (Seq (Grp (plus is_digit))
    (Seq (chr TAB) (Seq (Grp (plus is_digit))
    (Seq (chr TAB) (Seq (Grp (Cls is_rank))
    (Seq (chr TAB) (Seq (Grp (plus is_digit))
    (Seq (plus (is_space v)) (Grp (plus not_newline))))))))))))).

(** *** The file as the compiler reads it

    Python compiles a file as a whole before it runs any statement of it,
    and refuses a compound statement whose block holds no statement with
    [IndentationError] ("expected an indented block"); a comment is not a
    statement. A statement is kept by the line of the file it starts on, a
    compound statement with the statements of its block. *)
#[warnings="-register-all"]
Inductive stmt :=
| Simple (line : nat)
| Compound (line : nat) (block : list stmt).

(** The statements of [kraken2.py]. *)
Definition source : list stmt :=
  [ Simple 3;                   (* the docstring of the file *)
    Simple 5; Simple 6; Simple 7; Simple 8; Simple 9;     (* imports *)
    Simple 11; Simple 12;       (* imports *)
    Simple 15;                  (* log = logging.getLogger(__name__) *)
    Compound 17                 (* class MultiqcModule(BaseMultiqcModule): *)
      [ Simple 18;              (* the docstring of the class *)
        Compound 20             (* def __init__(self): *)
          [ Simple 23;          (* super(MultiqcModule, self).__init__(...) *)
            Simple 28;          (* self.kraken2_data = dict() *)
            Compound 29         (* for f in self.find_log_files(...): *)
              [ Simple 30 ];    (* self.parse_kraken2_log(f) *)
            Simple 33;          (* self.kraken2_data = self.ignore_samples(...) *)
            Compound 35         (* if len(self.kraken2_data) == 0: *)
              [ Simple 36 ];    (* raise UserWarning *)
            Simple 38;          (* log.info(...) *)
            Simple 41;          (* self.write_data_file(...) *)
            Simple 44 ];        (* self.kraken2_general_stats_table() *)
        Compound 47             (* def parse_kraken_log(self, f): *)
          [ Simple 48;          (* regex = ... *)
            Compound 49 []      (* for l in f['f']: and then a comment
                                   only, to the end of the file *)
          ] ] ].

(** A statement that the compiler accepts: each of its blocks, at any depth,
    holds a statement. *)
Fixpoint well_formed (s : stmt) : bool :=
  match s with
  | Simple _ => true
  | Compound _ [] => false
  | Compound _ block => forallb well_formed block
  end.

(** Compiling a file, which comes before running it. *)
Definition compile (src : list stmt) : result unit :=
  if forallb well_formed src then Ret tt else Raise IndentationError.

(** Method calls on [self] *)
Inductive call_args :=
| NoArgs
| FileArg (f : log_file).

Definition method : Type := call_args -> M state unit.

(** [self.attr] for the two names that [__init__] looks up,
    [parse_kraken2_log] and [kraken2_general_stats_table]. The class body
    binds [__init__] and [parse_kraken_log] only, so the lookup goes to the
    base class, whose methods [base] are a parameter. *)
Definition getattr (base : string -> option method) (attr : string)
    : result method :=
  match base attr with
  | Some m => Ret m
  | None => Raise (AttributeError attr)
  end.

Definition info_text : string :=
  "Kraken 2 is the newest version of Kraken, a taxonomic classification system using exact k-mer matches to achieve high accuracy and fast classification speeds. This classifier matches each k-mer within a query sequence to the lowest common ancestor (LCA) of all genomes containing the given k-mer. The k-mer assignments inform the classification algorithm. ".

(** The loop over [find_log_files('kraken2', filehandles=True)]. *)
Definition load_reports (base : string -> option method)
    (found : list log_file) : M state unit :=
  _ ← modify (set_kraken2_data ∅);
  for_each found (fun f =>
    m ← lift (getattr base "parse_kraken2_log");
    m (FileArg f)).

(** What [__init__] does after the loop. *)
Definition report (cfg : Config) (base : string -> option method)
    : M state unit :=
  _ ← modify (fun st =>
        set_kraken2_data (ignore_samples cfg (kraken2_data st)) st);
  st ← get;
  if decide (size (kraken2_data st) = 0%nat) then raise UserWarning
  else
    _ ← log_info "Found {} reports" [ANat (size (kraken2_data st))];
    _ ← modify (on_world (add_written "multiqc_kraken2" (kraken2_data st)));
    m ← lift (getattr base "kraken2_general_stats_table");
    m NoArgs.

(** The text of [MultiqcModule.__init__], given what [find_log_files]
    yields. *)
Definition init (cfg : Config) (base : string -> option method)
    (found : list log_file) : M state unit :=
  _ ← modify (set_static "kraken2" "kraken2"
        "https://ccb.jhu.edu/software/kraken2/" info_text);
  _ ← load_reports base found;
  report cfg base.

(** A run of the module: the file is compiled, which is what makes the
    class, and then the class is instantiated. *)
Definition run (cfg : Config) (base : string -> option method)
    (found : list log_file) : M state unit :=
  _ ← lift (compile source);
  init cfg base found.
End Kraken2.

(** ** Binary64 numbers as rationals *)
Module FloatSpec.

(** [2^e] *)
Definition pow2 (e : Z) : Q := (2 ^ e)%Q.

(** The value of a finite number, and 0 for an infinity or a NaN. *)
Definition value (x : float) : Q :=
  match x with
  | S754_finite s m e => ((if s then -1 else 1) * (inject_Z (Zpos m) * pow2 e))%Q
  | _ => 0%Q
  end.

Definition is_finite (x : float) : bool :=
  match x with
  | S754_zero _ | S754_finite _ _ _ => true
  | _ => false
  end.

(** A non-negative finite number whose exponent is in range. *)
Definition nn (x : float) : Prop :=
  match x with
  | S754_zero false => True
  | S754_finite false m e => -1074 <= e
  | _ => False
  end.

(** The unit roundoff [2^-53] and half the least positive number,
    [2^-1075]. *)
Definition u53 : Q := pow2 (-53).
Definition eta : Q := pow2 (-1075).

(** The exponent of the format for a number of magnitude [2^e]. *)
Definition fexp64 (e : Z) : Z := Z.max (e - 53) (-1074).

(** The number [binary_round_aux] builds from a mantissa and an exponent. *)
Definition F_of (s : bool) (m e : Z) : float :=
  match m with
  | Z0 => S754_zero s
  | Zpos p => if e <=? 971 then S754_finite s p e else S754_infinity s
  | Zneg _ => S754_nan
  end.

(** Where [t] lies in the interval from [m] to [m + 1], as a [location]
    tells it. *)
Definition located (m : Z) (l : location) (t : Q) : Prop :=
  match l with
  | loc_Exact => (t == inject_Z m)%Q
  | loc_Inexact Lt => (inject_Z m < t /\ t < inject_Z m + (1#2))%Q
  | loc_Inexact Eq => (t == inject_Z m + (1#2))%Q
  | loc_Inexact Gt => (inject_Z m + (1#2) < t /\ t < inject_Z m + 1)%Q
  end.

Definition located_rec (mrs : shr_record) (t : Q) : Prop :=
  located (shr_m mrs) (loc_of_shr_record mrs) t.

(** The constants of the error analysis: [2^-53], [2^-100], [2^-51] and
    [2^49]. *)
Definition uQ : Q := 1 # 9007199254740992.
Definition epsQ : Q := 1 # 1267650600228229401496703205376.
Definition dQ : Q := 1 # 2251799813685248.
Definition W49 : Q := 562949953421312.
End FloatSpec.

(** ** The vocabulary of the properties *)
Module StarSpec.
Import Re Star.

(** What the loop body leaves under [k] for the pattern [r]: the float of
    group 1 of the first match, when there is a match. *)
Definition first_match (raw : list ascii) (r : regex) : option (list ascii) :=
  group 1 <$> search true r raw.

Definition is_float (x : pyval) : Prop :=
  match x with PyFloat _ => True | PyInt _ => False end.

(** The seven inputs of the calculation, in the order the [try] reads
    them. *)
Definition required : list string :=
  [ "uniquely_mapped"; "multimapped"; "multimapped_toomany"; "total_reads";
    "unmapped_mismatches_percent"; "unmapped_tooshort_percent";
    "unmapped_other_percent" ].

Definition derived : list string :=
  [ "unmapped_mismatches"; "unmapped_tooshort"; "unmapped_other" ].

(** Section 4.2 of the specification, step 4, on floats:
    [round(unmapped_count * (reason_percent / total_unmapped_percent))] as
    an integer. The quotient is not defined for a zero divisor, and no
    integer is nearest to an infinity or a NaN. *)
Definition spec_derived_count (v : py_version)
    (unmapped_count reason_percent total_unmapped_percent : float)
    : result Z :=
  if F64.is_zero total_unmapped_percent then Raise ZeroDivisionError
  else
    r ← py_round v
          (PyFloat (F64.mul unmapped_count
                      (F64.div reason_percent total_unmapped_percent)));
    py_int r.

(** The float under a name of a FieldMap (NaN when there is none), and the
    two intermediate values of the calculation. *)
Definition field (m : gmap string pyval) (k : string) : float :=
  match m !! k with
  | Some (PyFloat x) => x
  | _ => S754_nan
  end.

Definition unmapped_count (m : gmap string pyval) : float :=
  F64.sub (field m "total_reads")
    (F64.add (F64.add (field m "uniquely_mapped") (field m "multimapped"))
       (field m "multimapped_toomany")).

Definition total_unmapped_percent (m : gmap string pyval) : float :=
  F64.add
    (F64.add (field m "unmapped_mismatches_percent")
       (field m "unmapped_tooshort_percent"))
    (field m "unmapped_other_percent").

(** The integer under a name of a FieldMap (0 when there is none). *)
Definition count (m : gmap string pyval) (k : string) : Z :=
  match m !! k with
  | Some (PyInt n) => n
  | _ => 0
  end.

(** The FieldMap a call returned (the empty one when it returned [None] or
    raised). *)
Definition returned (x : result (option (gmap string pyval)))
    : gmap string pyval :=
  match x with
  | Ret (Some m) => m
  | _ => ∅
  end.

Definition returns_map (x : result (option (gmap string pyval))) : bool :=
  match x with
  | Ret (Some _) => true
  | _ => false
  end.

(** A file parses when [parse_star_report] returns a FieldMap for it. *)
Definition parses (v : py_version) (f : log_file) : Prop :=
  exists d, parse_star_report v (f_content f) = Ret (Some d).

(** The record the aggregator logs for a sample name it has already. *)
Definition duplicate_record (s : string) : log_record :=
  {| lvl := DEBUG; template := "Duplicate sample name found! Overwriting: {}";
     args := [AStr s] |}.

(** Whether a sample name is a key of a Dataset, of a table, of the data of
    a chart. *)
Definition has_sample {A} (d : gmap string A) (s : string) : bool :=
  bool_decide (is_Some (d !! s)).

Definition chart_has_sample (s : string) (h : html) : bool :=
  match h with
  | Bargraph d _ _ => has_sample d s
  | _ => false
  end.
End StarSpec.

(** ** Sample inputs *)
Module Samples.
Import Re.

(** One line of a [Log.final.out]: label, bar, tab, value. *)
Definition star_line (label value : string) : list ascii :=
  list_ascii_of_string label ++ list_ascii_of_string " |" ++ [TAB]
    ++ list_ascii_of_string value ++ [NL].

Definition text_line (s : string) : list ascii :=
  list_ascii_of_string s ++ [NL].

(** A complete STAR final log. *)
Definition star_log : list ascii :=
  star_line "                          Number of input reads" "1322438"
  ++ star_line "                      Average input read length" "101"
  ++ text_line "                                    UNIQUE READS:"
  ++ star_line "                   Uniquely mapped reads number" "1161879"
  ++ star_line "                        Uniquely mapped reads %" "87.86%"
  ++ star_line "                          Average mapped length" "100.29"
  ++ star_line "                       Number of splices: Total" "181953"
  ++ star_line "            Number of splices: Annotated (sjdb)" "179920"
  ++ star_line "                       Number of splices: GT/AG" "180343"
  ++ star_line "                       Number of splices: GC/AG" "1156"
  ++ star_line "                       Number of splices: AT/AC" "143"
  ++ star_line "               Number of splices: Non-canonical" "311"
  ++ star_line "                      Mismatch rate per base, %" "0.29%"
  ++ star_line "                         Deletion rate per base" "0.01%"
  ++ star_line "                        Deletion average length" "1.55"
  ++ star_line "                        Insertion rate per base" "0.01%"
  ++ star_line "                       Insertion average length" "1.42"
  ++ text_line "                             MULTI-MAPPING READS:"
  ++ star_line "        Number of reads mapped to multiple loci" "35186"
  ++ star_line "             % of reads mapped to multiple loci" "2.66%"
  ++ star_line "        Number of reads mapped to too many loci" "244"
  ++ star_line "             % of reads mapped to too many loci" "0.02%"
  ++ text_line "                                  UNMAPPED READS:"
  ++ star_line "       % of reads unmapped: too many mismatches" "0.00%"
  ++ star_line "                 % of reads unmapped: too short" "9.31%"
  ++ star_line "                     % of reads unmapped: other" "0.15%".

(** A log in which every read is uniquely mapped: the three unmapped
    percentages are zero. *)
Definition all_mapped_log : list ascii :=
  star_line "                          Number of input reads" "5000"
  ++ star_line "                   Uniquely mapped reads number" "5000"
  ++ star_line "                        Uniquely mapped reads %" "100.00%"
  ++ star_line "        Number of reads mapped to multiple loci" "0"
  ++ star_line "             % of reads mapped to multiple loci" "0.00%"
  ++ star_line "        Number of reads mapped to too many loci" "0"
  ++ star_line "             % of reads mapped to too many loci" "0.00%"
  ++ star_line "       % of reads unmapped: too many mismatches" "0.00%"
  ++ star_line "                 % of reads unmapped: too short" "0.00%"
  ++ star_line "                     % of reads unmapped: other" "0.00%".

(** A log none of whose lines matches a pattern of the table. *)
Definition foreign_log : list ascii :=
  text_line "Started job on Mar 16 14:33:59"
  ++ text_line "no statistics here".

(** The file of a sample. *)
Definition file (name : string) (content : list ascii) : log_file :=
  {| s_name := name; f_content := content |}.

(** A configuration that ignores the sample name [ctrl]. *)
Definition ignore_ctrl : Config :=
  {| analysis_dir := "."; sample_ignored := String.eqb "ctrl" |}.

(** One line of a kraken2 report: the six columns, tab-separated. The
    percentage is printed in six characters, and the name is indented by two
    spaces per depth. *)
Definition kraken_line (pct clade direct rank taxid name : string)
    : list ascii :=
  list_ascii_of_string pct ++ [TAB] ++ list_ascii_of_string clade ++ [TAB]
    ++ list_ascii_of_string direct ++ [TAB] ++ list_ascii_of_string rank
    ++ [TAB] ++ list_ascii_of_string taxid ++ [TAB]
    ++ list_ascii_of_string name.

(** A species line below 10 percent, a depth-0 line, a line at 100 percent,
    a line of the sub-rank [S1], and a line whose percentage is not padded. *)
Definition species_line : list ascii :=
  kraken_line "  1.23" "1230" "1200" "S" "9606" "              Homo sapiens".
Definition unclassified_line : list ascii :=
  kraken_line " 12.50" "12500" "12500" "U" "0" "unclassified".
Definition all_unclassified_line : list ascii :=
  kraken_line "100.00" "5000" "5000" "U" "0" "unclassified".
Definition subrank_line : list ascii :=
  kraken_line "  0.40" "400" "400" "S1" "1280" "                Staphylococcus aureus subsp. aureus".
Definition unpadded_line : list ascii :=
  kraken_line "12.50" "12500" "12500" "U" "0" "unclassified".

(** A log with counts near [2^53], consistent with its percentages. *)
Definition huge_log : list ascii :=
  star_line "                          Number of input reads" "8734179639749270"
  ++ star_line "                   Uniquely mapped reads number" "46162341075466"
  ++ star_line "                        Uniquely mapped reads %" "0.53%"
  ++ star_line "        Number of reads mapped to multiple loci" "18473792004538"
  ++ star_line "             % of reads mapped to multiple loci" "0.21%"
  ++ star_line "        Number of reads mapped to too many loci" "73762444954101"
  ++ star_line "             % of reads mapped to too many loci" "0.84%"
  ++ star_line "       % of reads unmapped: too many mismatches" "39.32%"
  ++ star_line "                 % of reads unmapped: too short" "47.00%"
  ++ star_line "                     % of reads unmapped: other" "12.10%".

(** A truncated log: the line of the third unmapped percentage is
    missing. *)
Definition truncated_log : list ascii :=
  star_line "                          Number of input reads" "1000"
  ++ star_line "                   Uniquely mapped reads number" "900"
  ++ star_line "                        Uniquely mapped reads %" "90.00%"
  ++ star_line "        Number of reads mapped to multiple loci" "30"
  ++ star_line "        Number of reads mapped to too many loci" "10"
  ++ star_line "       % of reads unmapped: too many mismatches" "0.10%"
  ++ star_line "                 % of reads unmapped: too short" "5.50%".
End Samples.

(** ** The language of a pattern *)
Module ReSpec.
Import Re.

(** What a pattern matches, without the matcher: [Matches multiline r before
    cs gs] says that, with [before] (reversed) to the left of it, the text
    [cs] is in the language of [r] and that the groups of [r] capture
    [gs]. *)
Fixpoint Matches (multiline : bool) (r : regex) (before cs : list ascii)
    (gs : list (list ascii)) : Prop :=
  match r with
  | Eps => cs = [] /\ gs = []
  | Cls p => (exists c, cs = [c] /\ p c = true) /\ gs = []
  | Rep p lo hi =>
      Forall (fun c => p c = true) cs /\ (lo <= length cs)%nat /\
      (forall h, hi = Some h -> (length cs <= h)%nat) /\ gs = []
  | Bol => at_bol multiline before = true /\ cs = [] /\ gs = []
  | Seq r1 r2 =>
      exists c1 c2 g1 g2,
        cs = c1 ++ c2 /\ gs = g1 ++ g2 /\
        Matches multiline r1 before c1 g1 /\
        Matches multiline r2 (rev c1 ++ before) c2 g2
  | Grp r1 => exists g1, Matches multiline r1 before cs g1 /\ gs = g1 ++ [cs]
  end.

(** Two patterns of the same shape whose classes agree on the characters
    that satisfy [A]. *)
Fixpoint same_on (A : ascii -> Prop) (r1 r2 : regex) : Prop :=
  match r1, r2 with
  | Eps, Eps => True
  | Cls p, Cls q => forall c, A c -> p c = q c
  | Rep p lo hi, Rep q lo' hi' =>
      lo = lo' /\ hi = hi' /\ forall c, A c -> p c = q c
  | Bol, Bol => True
  | Seq a b, Seq a' b' => same_on A a a' /\ same_on A b b'
  | Grp a, Grp a' => same_on A a a'
  | _, _ => False
  end.

(** The text contains a match of the pattern. *)
Definition contains (multiline : bool) (r : regex) (s : list ascii) : Prop :=
  exists pre cs post gs,
    s = pre ++ cs ++ post /\ Matches multiline r (rev pre) cs gs.

(** One or more characters of a class, at most [n] when a bound is given. *)
Definition run_of (cls : ascii -> bool) (hi : option nat) (cs : list ascii)
    : Prop :=
  cs <> [] /\ Forall (fun c => cls c = true) cs /\
  forall n, hi = Some n -> (length cs <= n)%nat.

(** The text does not go on with a character of the class. *)
Definition whole_run (cls : ascii -> bool) (post : list ascii) : Prop :=
  forall c post', post = c :: post' -> cls c = false.
End ReSpec.

(** ** The lines of a STAR log *)
Module FieldSpec.
Import Re Star ReSpec.

(** The shape of every pattern of the table: [label \|\s+(cls+)]. *)
Definition field_re (v : py_version) (label : string) (cls : ascii -> bool)
    : regex :=
  Seq (lit label) (Seq (lit " |") (Seq (plus (is_space v)) (Grp (plus cls)))).

(** A line of the shape of [field_re v label cls] starts the text: the
    label, a blank and a bar, whitespace [ws] (of the version's [\s]) and
    the characters [ds] of the class. *)
Definition line_at (v : py_version) (rest : list ascii) (label : string)
    (cls : ascii -> bool) (ws ds post : list ascii) : Prop :=
  rest = list_ascii_of_string label ++ list_ascii_of_string " |"
           ++ ws ++ ds ++ post /\
  ws <> [] /\ Forall (fun c => is_space v c = true) ws /\
  ds <> [] /\ Forall (fun c => cls c = true) ds.

(** The text has such a line somewhere. *)
Definition has_line (v : py_version) (raw : list ascii) (label : string)
    (cls : ascii -> bool) : Prop :=
  exists pre rest ws ds post,
    raw = pre ++ rest /\ line_at v rest label cls ws ds post.

(** A text on which [\s] means the same in Python 2 and in Python 3: it
    has none of the characters 28 to 31, 133 and 160. *)
Definition same_spaces (raw : list ascii) : Prop :=
  Forall (fun c => is_space Py2 c = is_space Py3 c) raw.

(** The integer a string of digits denotes. *)
Definition decimal_value (ds : list ascii) : Z :=
  fold_left (fun acc c => 10 * acc + default 0 (digit_val c)) ds 0.
End FieldSpec.

(** ** The numbers of the calculation *)
Module DeriveSpec.
Import Star StarSpec FloatSpec.

(** The names of the three unmapped-reason percentages, and each with the
    name of the count derived from it. *)
Definition percents : list string :=
  [ "unmapped_mismatches_percent"; "unmapped_tooshort_percent";
    "unmapped_other_percent" ].

Definition reasons : list (string * string) :=
  [ ("unmapped_mismatches_percent", "unmapped_mismatches");
    ("unmapped_tooshort_percent", "unmapped_tooshort");
    ("unmapped_other_percent", "unmapped_other") ].

(** [unmapped_count * (parsed_data[k] / total_unmapped_percent)], the number
    that [round] gets for the reason [k]. *)
Definition product (d : gmap string pyval) (k : string) : float :=
  F64.mul (unmapped_count d) (F64.div (field d k) (total_unmapped_percent d)).

(** The number is half-way between two integers, the one nearer to zero
    being even: where rounding ties to even and rounding ties away from zero
    differ. *)
Definition half_to_even (y : float) : bool :=
  match y with
  | S754_finite _ m e =>
      (e <? 0) && (2 * (Zpos m mod 2 ^ (- e)) =? 2 ^ (- e))
        && Z.even (Zpos m / 2 ^ (- e))
  | _ => false
  end.

(** A number whose sign bit is clear, or a NaN. *)
Definition unsigned (x : float) : Prop :=
  match x with
  | S754_zero s | S754_infinity s | S754_finite s _ _ => s = false
  | S754_nan => True
  end.

(** A finite number whose value is the integer [n]. *)
Definition holds_int (x : float) (n : Z) : Prop :=
  is_finite x = true /\ (value x == inject_Z n)%Q.
End DeriveSpec.

(** ** The report of the STAR module *)
Module ReportSpec.
Import Star StarSpec.

(** [parse_star_report] returns for the file, a FieldMap or [None]. *)
Definition returns (v : py_version) (f : log_file) : Prop :=
  exists r, parse_star_report v (f_content f) = Ret r.

(** The float that [1000000] becomes in [data['uniquely_mapped']/1000000]. *)
Definition million : float := F64.of_Z 1000000.

(** The two cells [star_stats_table] writes in the row of a sample. *)
Definition stats_cells (fm : gmap string pyval) (row : gmap string html)
    : gmap string html :=
  <["uniquely_mapped" :=
      Format td_mapped
        (PyFloat (F64.div (field fm "uniquely_mapped") million))]>
    (<["uniquely_mapped_percent" :=
         Format td_percent (PyFloat (field fm "uniquely_mapped_percent"))]>
       row).

(** The state after the two assignments of one turn of the loop of
    [star_stats_table]. *)
Definition with_row (sn : string) (fm : gmap string pyval) (st : state)
    : state :=
  on_world (fun w =>
    {| log := log w; written := written w;
       general_stats_headers := general_stats_headers w;
       general_stats_rows :=
         <[sn := stats_cells fm (default ∅ (general_stats_rows w !! sn))]>
           (general_stats_rows w) |}) st.

(** A FieldMap that has the two columns of the table, as floats. *)
Definition has_columns (fm : gmap string pyval) : Prop :=
  (exists x, fm !! "uniquely_mapped_percent" = Some (PyFloat x)) /\
  (exists y, fm !! "uniquely_mapped" = Some (PyFloat y)).

(** The record [log.info("Found {} reports".format(n))]. *)
Definition found_record (n : nat) : log_record :=
  {| lvl := INFO; template := "Found {} reports"; args := [ANat n] |}.

(** What the loop over the files leaves alone. *)
Definition same_report (st st' : state) : Prop :=
  name st' = name st /\ anchor st' = anchor st /\ intro st' = intro st /\
  sections st' = sections st /\
  written (world st') = written (world st) /\
  general_stats_headers (world st') = general_stats_headers (world st) /\
  general_stats_rows (world st') = general_stats_rows (world st).
End ReportSpec.

(** ** The rows of a kraken2 report *)
Module KrakenSpec.
Import Re ReSpec.

(** The columns of a row of a report, as the pattern of [parse_kraken_log]
    reads them. *)
Record row := {
  r_indent : list ascii;
  r_percent_int : list ascii;
  r_percent_frac : list ascii;
  r_clade : list ascii;
  r_direct : list ascii;
  r_rank : ascii;
  r_taxid : list ascii;
  r_gap : list ascii;
  r_name : list ascii;
}.

Definition row_text (r : row) : list ascii :=
  r_indent r ++ (r_percent_int r ++ "."%char :: r_percent_frac r)
    ++ TAB :: r_clade r ++ TAB :: r_direct r ++ TAB :: r_rank r :: TAB
    :: r_taxid r ++ r_gap r ++ r_name r.

Definition row_groups (r : row) : list (list ascii) :=
  [ r_percent_int r ++ "."%char :: r_percent_frac r; r_clade r; r_direct r;
    [r_rank r]; r_taxid r; r_name r ].

Definition row_ok (v : py_version) (r : row) : Prop :=
  run_of (is_space v) (Some 2%nat) (r_indent r) /\
  run_of is_digit (Some 2%nat) (r_percent_int r) /\
  run_of is_digit (Some 2%nat) (r_percent_frac r) /\
  run_of is_digit None (r_clade r) /\
  run_of is_digit None (r_direct r) /\
  Kraken2.is_rank (r_rank r) = true /\
  run_of is_digit None (r_taxid r) /\
  run_of (is_space v) None (r_gap r) /\
  run_of not_newline None (r_name r).
End KrakenSpec.

(** ** More sample inputs *)
Module MoreSamples.
Import Re Samples.

(** A log with the number of input reads and nothing else. *)
Definition reads_only_log : list ascii :=
  text_line "Started job on Mar 16 14:33:59"
  ++ star_line "                          Number of input reads" "1000".

(** A log in which every unmapped read is too short. *)
Definition short_only_log : list ascii :=
  star_line "                          Number of input reads" "1000"
  ++ star_line "                   Uniquely mapped reads number" "900"
  ++ star_line "                        Uniquely mapped reads %" "90.00%"
  ++ star_line "        Number of reads mapped to multiple loci" "30"
  ++ star_line "             % of reads mapped to multiple loci" "3.00%"
  ++ star_line "        Number of reads mapped to too many loci" "10"
  ++ star_line "             % of reads mapped to too many loci" "1.00%"
  ++ star_line "       % of reads unmapped: too many mismatches" "0.00%"
  ++ star_line "                 % of reads unmapped: too short" "6.00%"
  ++ star_line "                     % of reads unmapped: other" "0.00%".

(** A log with one unmapped read and two equal percentages: each product is
    one half. *)
Definition tie_log : list ascii :=
  star_line "                          Number of input reads" "2000"
  ++ star_line "                   Uniquely mapped reads number" "1999"
  ++ star_line "                        Uniquely mapped reads %" "99.95%"
  ++ star_line "        Number of reads mapped to multiple loci" "0"
  ++ star_line "             % of reads mapped to multiple loci" "0.00%"
  ++ star_line "        Number of reads mapped to too many loci" "0"
  ++ star_line "             % of reads mapped to too many loci" "0.00%"
  ++ star_line "       % of reads unmapped: too many mismatches" "0.05%"
  ++ star_line "                 % of reads unmapped: too short" "0.05%"
  ++ star_line "                     % of reads unmapped: other" "0.00%".

(** A log whose number of input reads has 310 digits, beyond the range of
    binary64. *)
Definition overflow_log : list ascii :=
  (list_ascii_of_string "                          Number of input reads |"
     ++ [TAB; "1"%char] ++ repeat "0"%char 309 ++ [NL])
  ++ star_line "                   Uniquely mapped reads number" "900"
  ++ star_line "                        Uniquely mapped reads %" "90.00%"
  ++ star_line "        Number of reads mapped to multiple loci" "30"
  ++ star_line "             % of reads mapped to multiple loci" "3.00%"
  ++ star_line "        Number of reads mapped to too many loci" "10"
  ++ star_line "             % of reads mapped to too many loci" "1.00%"
  ++ star_line "       % of reads unmapped: too many mismatches" "1.00%"
  ++ star_line "                 % of reads unmapped: too short" "4.00%"
  ++ star_line "                     % of reads unmapped: other" "1.00%".

(** One order that enumerates the items of a dict: the order of the keys. *)
Definition key_order : dict_order := map_to_list.

(** A Dataset with one sample, and the object that holds it. *)
Definition one_sample (s : string) (fm : gmap string pyval)
    : gmap string (gmap string pyval) :=
  {[ s := fm ]}.

Definition star_with (d : gmap string (gmap string pyval)) : Star.state :=
  Star.set_star_data d Star.blank.
End MoreSamples.

(** * Properties *)

(** ** Running the monads *)

Lemma run_bind {S A B} (x : M S A) (f : A -> M S B) (s : S) :
  (x ≫= f) s = match x s with
               | (Ret a, s') => f a s'
               | (Raise e, s') => (Raise e, s')
               end.
Proof. reflexivity. Qed.

Lemma run_ret {S A} (a : A) (s : S) : (mret a : M S A) s = (Ret a, s).
Proof. reflexivity. Qed.

Lemma run_lift {S A} (x : result A) (s : S) : lift x s = (x, s).
Proof. reflexivity. Qed.

Lemma run_for_each_nil {S A} (body : A -> M S unit) s :
  for_each [] body s = (Ret tt, s).
Proof. reflexivity. Qed.

Lemma run_for_each_cons {S A} (x : A) (l : list A) (body : A -> M S unit) s :
  for_each (x :: l) body s =
  match body x s with
  | (Ret _, s') => for_each l body s'
  | (Raise e, s') => (Raise e, s')
  end.
Proof. reflexivity. Qed.

Lemma run_for_each_app {S A} (l1 l2 : list A) (body : A -> M S unit) s :
  for_each (l1 ++ l2) body s =
  match for_each l1 body s with
  | (Ret _, s') => for_each l2 body s'
  | (Raise e, s') => (Raise e, s')
  end.
Proof.
  revert s. induction l1 as [|x l1 IH]; intros s; [reflexivity|].
  rewrite <- app_comm_cons, !run_for_each_cons.
  destruct (body x s) as [[[]|e] s']; [apply IH | reflexivity].
Qed.

Lemma run_outcome {S A} (x : result A * S) (a : A) :
  x.1 = Ret a -> x = (Ret a, x.2).
Proof. destruct x as [r s]. simpl. now intros ->. Qed.

Lemma getitem_Some (d : gmap string pyval) k x :
  d !! k = Some x -> getitem k d = (Ret x, d).
Proof. intros H. unfold getitem. now rewrite H. Qed.

Lemma getitem_None (d : gmap string pyval) k :
  d !! k = None -> getitem k d = (Raise (KeyError k), d).
Proof. intros H. unfold getitem. now rewrite H. Qed.

(** ** The field extractor *)
Module StarFacts.
Import Re Star StarSpec.

Lemma extract_field_run raw kr d :
  extract_field raw kr d =
  match first_match raw kr.2 with
  | Some g =>
      match py_float g with
      | Ret x => (Ret tt, <[kr.1 := PyFloat x]> d)
      | Raise e => (Raise e, d)
      end
  | None => (Ret tt, d)
  end.
Proof.
  unfold extract_field, first_match.
  destruct (search true kr.2 raw) as [g|]; simpl; [|reflexivity].
  rewrite run_bind, run_lift. now destruct (py_float (group 1 g)).
Qed.

(** Keys outside of the table are not touched. *)
Lemma extract_other raw l d d' r k :
  for_each l (extract_field raw) d = (r, d') ->
  k ∉ l.*1 -> d' !! k = d !! k.
Proof.
  revert d. induction l as [|[k0 r0] l IH]; intros d Hrun Hk.
  - simpl in Hrun. compute in Hrun. now inversion Hrun.
  - rewrite run_for_each_cons, extract_field_run in Hrun. simpl in Hrun, Hk.
    apply not_elem_of_cons in Hk as [Hne Hk].
    destruct (first_match raw r0) as [g|].
    + destruct (py_float g) as [x|e].
      * rewrite (IH _ Hrun Hk). now apply lookup_insert_ne.
      * now inversion Hrun.
    + now apply (IH _ Hrun).
Qed.

(** A key of the table holds the float of its first match, or what it held
    when its pattern does not match. *)
Lemma extract_lookup raw l d d' k r :
  for_each l (extract_field raw) d = (Ret tt, d') ->
  NoDup l.*1 -> (k, r) ∈ l ->
  match first_match raw r with
  | Some g => exists x, py_float g = Ret x /\ d' !! k = Some (PyFloat x)
  | None => d' !! k = d !! k
  end.
Proof.
  revert d. induction l as [|[k0 r0] l IH]; intros d Hrun Hnd Hin.
  - now apply elem_of_nil in Hin.
  - rewrite run_for_each_cons, extract_field_run in Hrun. simpl in Hrun.
    simpl in Hnd. apply NoDup_cons in Hnd as [Hk0 Hnd].
    apply elem_of_cons in Hin as [Heq|Hin].
    + inversion Heq; subst k0 r0; clear Heq.
      destruct (first_match raw r) as [g|].
      * destruct (py_float g) as [x|e]; [|now inversion Hrun].
        exists x. split; [reflexivity|].
        rewrite (extract_other _ _ _ _ _ k Hrun Hk0).
        apply lookup_insert_eq.
      * apply (extract_other _ _ _ _ _ k Hrun Hk0).
    + assert (k <> k0) as Hne.
      { intros ->. apply Hk0. apply list_elem_of_fmap. now exists (k0, r). }
      destruct (first_match raw r0) as [g0|].
      * destruct (py_float g0) as [x0|e]; [|now inversion Hrun].
        specialize (IH _ Hrun Hnd Hin).
        destruct (first_match raw r); [exact IH|].
        rewrite IH. now apply lookup_insert_ne.
      * apply (IH _ Hrun Hnd Hin).
Qed.

Lemma regexes_NoDup v : NoDup (regexes v).*1.
Proof. refine (bool_decide_unpack _ _). vm_compute. exact I. Qed.

(** Extraction from the empty dict leaves floats only, under keys of the
    table. *)
Lemma extract_floats {v} raw d k x :
  extract_fields v raw ∅ = (Ret tt, d) -> d !! k = Some x ->
  k ∈ (regexes v).*1 /\ is_float x.
Proof.
  intros Hrun Hk. unfold extract_fields in Hrun.
  destruct (decide (k ∈ (regexes v).*1)) as [Hin|Hout].
  - split; [exact Hin|].
    apply list_elem_of_fmap in Hin as [[k' r] [-> Hin]]. simpl in Hk.
    pose proof (extract_lookup _ _ _ _ _ _ Hrun (regexes_NoDup v) Hin) as H.
    destruct (first_match raw r).
    + destruct H as (y & _ & Hy). rewrite Hy in Hk. now inversion Hk.
    + rewrite H, lookup_empty in Hk. discriminate.
  - rewrite (extract_other _ _ _ _ _ k Hrun Hout), lookup_empty in Hk.
    discriminate.
Qed.

Lemma py_add_float a b :
  py_add (PyFloat a) (PyFloat b) = Ret (PyFloat (F64.add a b)).
Proof. reflexivity. Qed.

Lemma py_sub_float a b :
  py_sub (PyFloat a) (PyFloat b) = Ret (PyFloat (F64.sub a b)).
Proof. reflexivity. Qed.

Lemma py_round_float v x : exists y, py_round v (PyFloat x) = Ret (PyFloat y).
Proof.
  destruct x as [s|s| |s m e]; simpl; eauto.
  destruct (0 <=? e); eauto.
Qed.

Lemma spec_derived_count_no_KeyError v U p P k :
  spec_derived_count v U p P <> Raise (KeyError k).
Proof.
  unfold spec_derived_count. destruct (F64.is_zero P); [discriminate|].
  destruct (py_round_float v (F64.mul U (F64.div p P))) as [y ->].
  simpl. now destruct y.
Qed.

Lemma derived_count_run v U P k p (d : gmap string pyval) :
  d !! k = Some (PyFloat p) ->
  derived_count v (PyFloat U) (PyFloat P) k d =
  (match spec_derived_count v U p P with
   | Ret n => Ret (PyInt n)
   | Raise e => Raise e
   end, d).
Proof.
  intros Hk. unfold derived_count, spec_derived_count.
  rewrite run_bind, (getitem_Some _ _ _ Hk), run_bind, run_lift.
  cbn [py_div as_float mbind result_bind].
  destruct (F64.is_zero P); [reflexivity|].
  rewrite run_bind, run_lift. cbn [py_mul py_arith as_float mbind result_bind].
  rewrite run_bind, run_lift.
  destruct (py_round_float v (F64.mul U (F64.div p P))) as [y ->].
  rewrite run_bind, run_lift. cbn [mbind result_bind].
  now destruct (py_int (PyFloat y)).
Qed.

Ltac read_key H :=
  rewrite run_bind, (getitem_Some _ _ _ H); cbv beta iota.
Ltac float_op :=
  rewrite run_bind, run_lift, ?py_add_float, ?py_sub_float; cbv beta iota.

(** With the seven inputs present the [try] runs the three assignments in
    turn, each as the specification computes it. *)
Lemma derive_unmapped_run v (d : gmap string pyval) tr um mm mt p1 p2 p3 :
  d !! "total_reads" = Some (PyFloat tr) ->
  d !! "uniquely_mapped" = Some (PyFloat um) ->
  d !! "multimapped" = Some (PyFloat mm) ->
  d !! "multimapped_toomany" = Some (PyFloat mt) ->
  d !! "unmapped_mismatches_percent" = Some (PyFloat p1) ->
  d !! "unmapped_tooshort_percent" = Some (PyFloat p2) ->
  d !! "unmapped_other_percent" = Some (PyFloat p3) ->
  let U := F64.sub tr (F64.add (F64.add um mm) mt) in
  let P := F64.add (F64.add p1 p2) p3 in
  derive_unmapped v d =
  match spec_derived_count v U p1 P with
  | Raise e => (Raise e, d)
  | Ret c1 =>
      let d1 := <["unmapped_mismatches" := PyInt c1]> d in
      match spec_derived_count v U p2 P with
      | Raise e => (Raise e, d1)
      | Ret c2 =>
          let d2 := <["unmapped_tooshort" := PyInt c2]> d1 in
          match spec_derived_count v U p3 P with
          | Raise e => (Raise e, d2)
          | Ret c3 => (Ret tt, <["unmapped_other" := PyInt c3]> d2)
          end
      end
  end.
Proof.
  intros Htr Hum Hmm Hmt Hp1 Hp2 Hp3 U P. unfold derive_unmapped.
  read_key Hum. read_key Hmm. float_op. read_key Hmt. float_op.
  read_key Htr. float_op. read_key Hp1. read_key Hp2. float_op.
  read_key Hp3. float_op. fold U P.
  rewrite run_bind, (derived_count_run _ _ _ _ _ _ Hp1).
  destruct (spec_derived_count v U p1 P) as [c1|e1]; [|reflexivity].
  cbv beta iota. rewrite run_bind. unfold setitem at 1, modify at 1.
  cbv beta iota.
  rewrite run_bind, (derived_count_run _ _ _ _ p2)
    by (rewrite lookup_insert_ne by discriminate; exact Hp2).
  destruct (spec_derived_count v U p2 P) as [c2|e2]; [|reflexivity].
  cbv beta iota. rewrite run_bind. unfold setitem at 1, modify at 1.
  cbv beta iota.
  rewrite run_bind, (derived_count_run _ _ _ _ p3)
    by (rewrite !lookup_insert_ne by discriminate; exact Hp3).
  destruct (spec_derived_count v U p3 P) as [c3|e3]; reflexivity.
Qed.

(** Reads one of the seven inputs, which is a float or is missing. *)
Ltac need d Hfl key x H :=
  destruct (d !! key) as [[x|?]|] eqn:H;
  [ | now apply Hfl in H
    | eexists; rewrite run_bind, (getitem_None _ _ H); reflexivity ].

(** With floats only and one of the seven inputs missing, the [try] raises
    [KeyError] before it assigns anything. *)
Lemma derive_unmapped_missing v (d : gmap string pyval) k :
  (forall k' x, d !! k' = Some x -> is_float x) ->
  k ∈ required -> d !! k = None ->
  exists k', derive_unmapped v d = (Raise (KeyError k'), d).
Proof.
  intros Hfl Hk Hnone. unfold derive_unmapped.
  need d Hfl "uniquely_mapped" um Hum. read_key Hum.
  need d Hfl "multimapped" mm Hmm. read_key Hmm. float_op.
  need d Hfl "multimapped_toomany" mt Hmt. read_key Hmt. float_op.
  need d Hfl "total_reads" tr Htr. read_key Htr. float_op.
  need d Hfl "unmapped_mismatches_percent" p1 Hp1. read_key Hp1.
  need d Hfl "unmapped_tooshort_percent" p2 Hp2. read_key Hp2. float_op.
  need d Hfl "unmapped_other_percent" p3 Hp3.
  exfalso. unfold required in Hk.
  repeat (apply elem_of_cons in Hk as [->|Hk]; [congruence|]).
  now apply elem_of_nil in Hk.
Qed.

(** The [try] writes under the three derived names only. *)
Lemma derived_count_state v U P k (d : gmap string pyval) r d' :
  derived_count v U P k d = (r, d') -> d' = d.
Proof.
  unfold derived_count. rewrite run_bind. unfold getitem at 1.
  destruct (d !! k) as [p|]; [|now inversion 1].
  rewrite run_bind, run_lift. destruct (py_div v p P) as [q|]; [|now inversion 1].
  rewrite run_bind, run_lift. destruct (py_mul U q) as [y|]; [|now inversion 1].
  rewrite run_bind, run_lift. destruct (py_round v y) as [z|]; [|now inversion 1].
  rewrite run_bind, run_lift. destruct (py_int z) as [n|]; now inversion 1.
Qed.

Lemma try_derive_missing v (d : gmap string pyval) k :
  (forall k' x, d !! k' = Some x -> is_float x) ->
  k ∈ required -> d !! k = None ->
  try_except_KeyError_pass (derive_unmapped v) d = (Ret tt, d).
Proof.
  intros Hfl Hk Hnone.
  destruct (derive_unmapped_missing v d k Hfl Hk Hnone) as [k' Hrun].
  unfold try_except_KeyError_pass. now rewrite Hrun.
Qed.

Lemma try_derive_present v (d : gmap string pyval) tr um mm mt p1 p2 p3 :
  d !! "total_reads" = Some (PyFloat tr) ->
  d !! "uniquely_mapped" = Some (PyFloat um) ->
  d !! "multimapped" = Some (PyFloat mm) ->
  d !! "multimapped_toomany" = Some (PyFloat mt) ->
  d !! "unmapped_mismatches_percent" = Some (PyFloat p1) ->
  d !! "unmapped_tooshort_percent" = Some (PyFloat p2) ->
  d !! "unmapped_other_percent" = Some (PyFloat p3) ->
  try_except_KeyError_pass (derive_unmapped v) d = derive_unmapped v d.
Proof.
  intros Htr Hum Hmm Hmt Hp1 Hp2 Hp3. unfold try_except_KeyError_pass.
  rewrite (derive_unmapped_run v d _ _ _ _ _ _ _ Htr Hum Hmm Hmt Hp1 Hp2 Hp3).
  cbv zeta.
  set (U := F64.sub tr (F64.add (F64.add um mm) mt)).
  set (P := F64.add (F64.add p1 p2) p3).
  pose proof (spec_derived_count_no_KeyError v U p1 P) as N1.
  pose proof (spec_derived_count_no_KeyError v U p2 P) as N2.
  pose proof (spec_derived_count_no_KeyError v U p3 P) as N3.
  destruct (spec_derived_count v U p1 P) as [c1|[]];
    try reflexivity; [|now destruct (N1 key)].
  destruct (spec_derived_count v U p2 P) as [c2|[]];
    try reflexivity; [|now destruct (N2 key)].
  destruct (spec_derived_count v U p3 P) as [c3|[]];
    try reflexivity; now destruct (N3 key).
Qed.

Lemma parse_star_report_unfold v raw :
  parse_star_report v raw =
  match extract_fields v raw ∅ with
  | (Raise e, _) => Raise e
  | (Ret _, d) =>
      match try_except_KeyError_pass (derive_unmapped v) d with
      | (Ret _, m) => if decide (size m = 0%nat) then Ret None else Ret (Some m)
      | (Raise e, _) => Raise e
      end
  end.
Proof.
  unfold parse_star_report. rewrite run_bind.
  now destruct (extract_fields v raw ∅) as [[[]|e] d].
Qed.

(** Membership in a list that is written out. *)
Ltac mem :=
  unfold required, derived;
  repeat first [apply list_elem_of_here | apply list_elem_of_further].

(** A dict of floats has the seven inputs, or lacks one of them. *)
Lemma required_cases (d : gmap string pyval) :
  (forall k x, d !! k = Some x -> is_float x) ->
  (exists k, k ∈ required /\ d !! k = None) \/
  (exists tr um mm mt p1 p2 p3,
     d !! "total_reads" = Some (PyFloat tr) /\
     d !! "uniquely_mapped" = Some (PyFloat um) /\
     d !! "multimapped" = Some (PyFloat mm) /\
     d !! "multimapped_toomany" = Some (PyFloat mt) /\
     d !! "unmapped_mismatches_percent" = Some (PyFloat p1) /\
     d !! "unmapped_tooshort_percent" = Some (PyFloat p2) /\
     d !! "unmapped_other_percent" = Some (PyFloat p3)).
Proof.
  intros Hfl.
  assert (forall k, k ∈ required ->
            d !! k = None \/ exists x, d !! k = Some (PyFloat x)) as Hk.
  { intros k _. destruct (d !! k) as [[x|n]|] eqn:E; eauto.
    now apply Hfl in E. }
  destruct (Hk "total_reads") as [N|[tr Htr]];
    [mem | left; eexists; split; [|exact N]; mem |].
  destruct (Hk "uniquely_mapped") as [N|[um Hum]];
    [mem | left; eexists; split; [|exact N]; mem |].
  destruct (Hk "multimapped") as [N|[mm Hmm]];
    [mem | left; eexists; split; [|exact N]; mem |].
  destruct (Hk "multimapped_toomany") as [N|[mt Hmt]];
    [mem | left; eexists; split; [|exact N]; mem |].
  destruct (Hk "unmapped_mismatches_percent") as [N|[p1 Hp1]];
    [mem | left; eexists; split; [|exact N]; mem |].
  destruct (Hk "unmapped_tooshort_percent") as [N|[p2 Hp2]];
    [mem | left; eexists; split; [|exact N]; mem |].
  destruct (Hk "unmapped_other_percent") as [N|[p3 Hp3]];
    [mem | left; eexists; split; [|exact N]; mem |].
  right. now exists tr, um, mm, mt, p1, p2, p3.
Qed.

(** The [try] writes under the three derived names only, whatever its
    outcome. *)
Lemma try_derive_frame v (d d' : gmap string pyval) r k :
  (forall k' x, d !! k' = Some x -> is_float x) ->
  try_except_KeyError_pass (derive_unmapped v) d = (r, d') ->
  k ∉ derived -> d' !! k = d !! k.
Proof.
  intros Hfl Hrun Hk.
  destruct (required_cases d Hfl) as
    [(k0 & Hk0 & Hnone)|(tr & um & mm & mt & p1 & p2 & p3 & H)].
  - rewrite (try_derive_missing v d k0 Hfl Hk0 Hnone) in Hrun.
    now inversion Hrun.
  - destruct H as (Htr & Hum & Hmm & Hmt & Hp1 & Hp2 & Hp3).
    rewrite (try_derive_present v d _ _ _ _ _ _ _ Htr Hum Hmm Hmt Hp1 Hp2 Hp3),
      (derive_unmapped_run v d _ _ _ _ _ _ _ Htr Hum Hmm Hmt Hp1 Hp2 Hp3)
      in Hrun.
    cbv zeta in Hrun.
    assert (k <> "unmapped_mismatches" /\ k <> "unmapped_tooshort" /\
            k <> "unmapped_other") as (N1 & N2 & N3).
    { unfold derived in Hk. repeat split; intros ->; apply Hk; mem. }
    repeat match type of Hrun with
           | match ?c with _ => _ end = _ => destruct c
           end;
      simplify_eq; now rewrite ?lookup_insert_ne by congruence.
Qed.

Lemma regexes_not_derived v : Forall (fun k => k ∉ derived) (regexes v).*1.
Proof. refine (bool_decide_unpack _ _). vm_compute. exact I. Qed.

Lemma returns_map_returned x :
  returns_map x = true -> x = Ret (Some (returned x)).
Proof. now destruct x as [[m|]|e]. Qed.
End StarFacts.

(** ** Rounding in binary64 *)
Module FloatFacts.
Import FloatSpec.

Lemma pow2_pos e : (0 < pow2 e)%Q.
Proof. apply Qpower_0_lt. reflexivity. Qed.

Lemma pow2_add a b : (pow2 (a + b) == pow2 a * pow2 b)%Q.
Proof. apply Qpower_plus. discriminate. Qed.

Lemma pow2_0 : (pow2 0 == 1)%Q.
Proof. reflexivity. Qed.

Lemma pow2_1 : (pow2 1 == 2)%Q.
Proof. reflexivity. Qed.

Lemma pow2_m1 : (pow2 (-1) == 1 # 2)%Q.
Proof. reflexivity. Qed.

Lemma pow2_succ a : (pow2 (a + 1) == 2 * pow2 a)%Q.
Proof. rewrite pow2_add, pow2_1. ring. Qed.

Lemma pow2_pred a : (pow2 (a - 1) == (1 # 2) * pow2 a)%Q.
Proof.
  replace (a - 1) with (a + -1) by lia. rewrite pow2_add, pow2_m1. ring.
Qed.

Lemma pow2_opp a : (pow2 a * pow2 (- a) == 1)%Q.
Proof. rewrite <- pow2_add. replace (a + - a) with 0 by lia. reflexivity. Qed.

Lemma pow2_inv a : (pow2 (- a) == / pow2 a)%Q.
Proof. apply Qpower_opp. Qed.

Lemma pow2_Z n : 0 <= n -> (pow2 n == inject_Z (2 ^ n))%Q.
Proof. intros H. unfold pow2. now rewrite Zpower_Qpower. Qed.

Lemma pow2_le a b : a <= b -> (pow2 a <= pow2 b)%Q.
Proof.
  intros H. replace b with (a + (b - a)) by lia. rewrite pow2_add.
  assert (1 <= pow2 (b - a))%Q.
  { rewrite pow2_Z by lia. change 1%Q with (inject_Z 1). rewrite <- Zle_Qle.
    assert (0 < 2 ^ (b - a)) by (apply Z.pow_pos_nonneg; lia). lia. }
  pose proof (pow2_pos a). nra.
Qed.

Lemma pow2_lt a b : a < b -> (pow2 a < pow2 b)%Q.
Proof.
  intros H. apply Qlt_le_trans with (pow2 (a + 1)).
  - rewrite pow2_succ. pose proof (pow2_pos a). lra.
  - apply pow2_le. lia.
Qed.

(** The number of binary digits, [Zdigits2] and [digits2_pos]. *)
Lemma digits2_size p : digits2_pos p = Pos.size p.
Proof. induction p; simpl; congruence. Qed.

Lemma digits2_bounds p :
  2 ^ (Zpos (digits2_pos p) - 1) <= Zpos p < 2 ^ Zpos (digits2_pos p).
Proof.
  rewrite digits2_size. split.
  - pose proof (Pos.size_le p) as H.
    assert (Zpos (2 ^ Pos.size p) <= Zpos p~0) by exact H.
    rewrite Pos2Z.inj_pow in H0.
    replace (2 ^ Z.pos (Pos.size p)) with (2 * 2 ^ (Z.pos (Pos.size p) - 1)) in H0.
    + lia.
    + rewrite <- Z.pow_succ_r by lia. f_equal. lia.
  - pose proof (Pos.size_gt p) as H.
    assert (Zpos p < Zpos (2 ^ Pos.size p)) by exact H.
    now rewrite Pos2Z.inj_pow in H0.
Qed.

Lemma Zdigits2_bounds m :
  0 < m -> 2 ^ (Zdigits2 m - 1) <= m < 2 ^ Zdigits2 m.
Proof. destruct m; try lia. intros _. apply digits2_bounds. Qed.

Lemma Zdigits2_nonneg m : 0 <= Zdigits2 m.
Proof. destruct m; simpl; lia. Qed.

Lemma Zdigits2_pos m : 0 < m -> 0 < Zdigits2 m.
Proof. destruct m; simpl; lia. Qed.

(** The number of binary digits of a number between two powers of two. *)
Lemma Zdigits2_unique m d : 0 < m -> 2 ^ (d - 1) <= m < 2 ^ d -> 0 < d -> Zdigits2 m = d.
Proof.
  intros Hm [H1 H2] Hd.
  pose proof (Zdigits2_bounds m Hm) as [B1 B2].
  pose proof (Zdigits2_pos m Hm).
  destruct (Z.lt_trichotomy (Zdigits2 m) d) as [L|[E|G]]; [|exact E|].
  - assert (2 ^ Zdigits2 m <= 2 ^ (d - 1)) by (apply Z.pow_le_mono_r; lia). lia.
  - assert (2 ^ d <= 2 ^ (Zdigits2 m - 1)) by (apply Z.pow_le_mono_r; lia). lia.
Qed.

Lemma Zdigits2_le m n : 0 < m -> m <= n -> Zdigits2 m <= Zdigits2 n.
Proof.
  intros Hm Hn.
  pose proof (Zdigits2_bounds m Hm) as [B1 B2].
  pose proof (Zdigits2_bounds n ltac:(lia)) as [C1 C2].
  destruct (Z_le_gt_dec (Zdigits2 m) (Zdigits2 n)); [assumption|].
  assert (2 ^ Zdigits2 n <= 2 ^ (Zdigits2 m - 1)) by (apply Z.pow_le_mono_r; [lia|lia]).
  lia.
Qed.

Lemma inject_Z_xO p : (inject_Z (Zpos p~0) == 2 * inject_Z (Zpos p))%Q.
Proof. change (Zpos p~0) with (2 * Zpos p). rewrite inject_Z_mult. reflexivity. Qed.

Lemma inject_Z_xI p : (inject_Z (Zpos p~1) == 2 * inject_Z (Zpos p) + 1)%Q.
Proof. change (Zpos p~1) with (2 * Zpos p + 1). rewrite inject_Z_plus, inject_Z_mult. reflexivity. Qed.

Lemma shr_1_located mrs t :
  0 <= shr_m mrs -> located_rec mrs t ->
  located_rec (shr_1 mrs) (t * (1#2)) /\ 0 <= shr_m (shr_1 mrs).
Proof.
  destruct mrs as [m r s]. unfold located_rec. simpl. intros Hm H.
  destruct m as [|[p|p|]|p]; try lia; destruct r, s; simpl in *;
    rewrite ?inject_Z_xO, ?inject_Z_xI in H;
    change (inject_Z 0) with 0%Q in *; change (inject_Z 1) with 1%Q in *;
    (split; [|lia]); lra.
Qed.

Lemma located_ext m l t t' : (t == t')%Q -> located m l t -> located m l t'.
Proof. intros E. destruct l as [|[]]; simpl; rewrite E; auto. Qed.

Lemma iter_pos_located p : forall mrs t,
  0 <= shr_m mrs -> located_rec mrs t ->
  located_rec (SpecFloat.iter_pos shr_1 p mrs) (t * pow2 (- Zpos p)) /\
  0 <= shr_m (SpecFloat.iter_pos shr_1 p mrs).
Proof.
  induction p as [p IH|p IH|]; intros mrs t Hm H; cbn [SpecFloat.iter_pos].
  - destruct (shr_1_located _ _ Hm H) as [H1 M1].
    destruct (IH _ _ M1 H1) as [H2 M2].
    destruct (IH _ _ M2 H2) as [H3 M3].
    split; [|exact M3].
    refine (located_ext _ _ _ _ _ H3).
    replace (- Zpos p~1) with (-1 + (- Zpos p + - Zpos p)) by lia.
    rewrite !pow2_add, pow2_m1. ring.
  - destruct (IH _ _ Hm H) as [H2 M2].
    destruct (IH _ _ M2 H2) as [H3 M3].
    split; [|exact M3].
    refine (located_ext _ _ _ _ _ H3).
    replace (- Zpos p~0) with ((- Zpos p + - Zpos p)) by lia.
    rewrite !pow2_add. ring.
  - destruct (shr_1_located _ _ Hm H) as [H1 M1]. split; [|exact M1].
    refine (located_ext _ _ _ _ _ H1). change (Z.opp (Zpos xH)) with (Zneg xH). rewrite pow2_m1. reflexivity.
Qed.

(** [shr]: the record keeps locating the value, at the new exponent. *)
Lemma shr_located mrs e n x :
  0 <= shr_m mrs -> located_rec mrs (x * pow2 (- e)) ->
  let r := shr mrs e n in
  located_rec r.1 (x * pow2 (- r.2)) /\ 0 <= shr_m r.1 /\
  r.2 = e + Z.max 0 n /\ (n <= 0 -> r.1 = mrs).
Proof.
  intros Hm H. destruct n as [|p|p]; simpl.
  - rewrite Z.add_0_r. auto.
  - destruct (iter_pos_located p _ _ Hm H) as [H1 M1].
    repeat split; try assumption; try lia.
    refine (located_ext _ _ _ _ _ H1).
    replace (- (e + Zpos p)) with (- e + - Zpos p) by lia.
    rewrite pow2_add. ring.
  - rewrite Z.add_0_r. auto.
Qed.

Lemma round_nearest_even_spec m l t :
  0 <= m -> located m l t ->
  let m' := round_nearest_even m l in
  (Qabs (inject_Z m' - t) <= 1 # 2)%Q /\ m <= m' <= m + 1 /\
  (l = loc_Exact -> m' = m).
Proof.
  intros Hm H. cbv zeta.
  assert (inject_Z (m + 1) == inject_Z m + 1)%Q as E1.
  { rewrite inject_Z_plus. reflexivity. }
  destruct l as [|[]]; cbn [located round_nearest_even] in *.
  - split; [|split; [lia|auto]]. apply Qabs_Qle_condition. lra.
  - split; [|split; [|discriminate]].
    + destruct (Z.even m); apply Qabs_Qle_condition; lra.
    + destruct (Z.even m); lia.
  - split; [|split; [lia|discriminate]]. apply Qabs_Qle_condition. lra.
  - split; [|split; [lia|discriminate]]. apply Qabs_Qle_condition. lra.
Qed.

(** The mantissa that [shr_fexp] leaves has at most 53 digits. *)
Lemma shr_1_m mrs : 0 <= shr_m mrs -> shr_m (shr_1 mrs) = shr_m mrs / 2.
Proof.
  destruct mrs as [m r s]. simpl. intros Hm.
  destruct m as [|[p|p|]|p]; cbn [shr_m]; [reflexivity| | |reflexivity|lia].
  - change (Zpos p~1) with (2 * Zpos p + 1).
    apply Z.div_unique with 1; lia.
  - change (Zpos p~0) with (2 * Zpos p).
    apply Z.div_unique with 0; lia.
Qed.

Lemma div_pow2 m a b : 0 <= a -> 0 <= b -> m / 2 ^ a / 2 ^ b = m / 2 ^ (a + b).
Proof.
  intros Ha Hb. rewrite Z.pow_add_r by lia.
  assert (0 < 2 ^ a) by (apply Z.pow_pos_nonneg; lia).
  assert (0 < 2 ^ b) by (apply Z.pow_pos_nonneg; lia).
  apply Z.div_div; lia.
Qed.

Lemma iter_pos_m p : forall mrs,
  0 <= shr_m mrs ->
  shr_m (SpecFloat.iter_pos shr_1 p mrs) = shr_m mrs / 2 ^ Zpos p /\
  0 <= shr_m (SpecFloat.iter_pos shr_1 p mrs).
Proof.
  induction p as [p IH|p IH|]; intros mrs Hm; cbn [SpecFloat.iter_pos].
  - assert (0 <= shr_m (shr_1 mrs)) as M1
      by (rewrite shr_1_m by lia; apply Z.div_pos; lia).
    destruct (IH _ M1) as [E2 M2]. destruct (IH _ M2) as [E3 M3].
    split; [|exact M3]. rewrite E3, E2, shr_1_m by lia.
    change 2 with (2 ^ 1) at 1. rewrite !div_pow2 by lia.
    f_equal. f_equal. lia.
  - destruct (IH _ Hm) as [E2 M2]. destruct (IH _ M2) as [E3 M3].
    split; [|exact M3]. rewrite E3, E2, !div_pow2 by lia.
    f_equal. f_equal. lia.
  - rewrite shr_1_m by lia. split; [reflexivity|]. apply Z.div_pos; lia.
Qed.

Lemma shr_m_div mrs e n :
  0 <= shr_m mrs -> shr_m (shr mrs e n).1 = shr_m mrs / 2 ^ Z.max 0 n.
Proof.
  intros Hm. destruct n as [|p|p]; simpl.
  - now rewrite Z.div_1_r.
  - now apply iter_pos_m.
  - now rewrite Z.div_1_r.
Qed.

Lemma shr_record_of_loc_m m l : shr_m (shr_record_of_loc m l) = m.
Proof. now destruct l as [|[]]. Qed.

Lemma shr_record_of_loc_loc m l : loc_of_shr_record (shr_record_of_loc m l) = l.
Proof. now destruct l as [|[]]. Qed.

Lemma Zdigits2_succ m :
  0 <= m -> Zdigits2 (m + 1) <= Zdigits2 m + 1 /\
  (Zdigits2 (m + 1) = Zdigits2 m + 1 -> m + 1 = 2 ^ Zdigits2 m).
Proof.
  intros Hm. destruct (Z.eq_dec m 0) as [->|Hne]; [simpl; split; [lia|reflexivity]|].
  pose proof (Zdigits2_bounds m ltac:(lia)) as [B1 B2].
  pose proof (Zdigits2_pos m ltac:(lia)).
  destruct (Z.eq_dec (m + 1) (2 ^ Zdigits2 m)) as [E|N].
  - rewrite E. split; [|auto].
    rewrite (Zdigits2_unique (2 ^ Zdigits2 m) (Zdigits2 m + 1)); try lia.
    replace (Zdigits2 m + 1 - 1) with (Zdigits2 m) by lia.
    rewrite Z.pow_add_r by lia. change (2 ^ 1) with 2. lia.
  - rewrite (Zdigits2_unique (m + 1) (Zdigits2 m)); try lia.
Qed.

Lemma fexp64_eq e : fexp 53 1024 e = fexp64 e.
Proof. reflexivity. Qed.

Lemma Zdigits2_div m k :
  0 <= k -> 0 < m / 2 ^ k -> Zdigits2 (m / 2 ^ k) + k <= Zdigits2 m.
Proof.
  intros Hk Hq.
  assert (0 < 2 ^ k) as Pk by (apply Z.pow_pos_nonneg; lia).
  assert (0 < m) as Hm.
  { destruct (Z_lt_le_dec 0 m); [assumption|].
    assert (m / 2 ^ k <= 0) by (apply Z.div_le_upper_bound; lia). lia. }
  pose proof (Zdigits2_bounds _ Hq) as [B1 B2].
  pose proof (Zdigits2_bounds _ Hm) as [C1 C2].
  pose proof (Zdigits2_pos _ Hq).
  destruct (Z_le_gt_dec (Zdigits2 (m / 2 ^ k) + k) (Zdigits2 m)); [assumption|].
  exfalso.
  assert (2 ^ Zdigits2 m <= 2 ^ (Zdigits2 (m / 2 ^ k) - 1 + k)) by (apply Z.pow_le_mono_r; lia).
  rewrite Z.pow_add_r in H0 by lia.
  assert (2 ^ k * (m / 2 ^ k) <= m) by (apply Z.mul_div_le; lia).
  nia.
Qed.

Lemma shr_nonpos mrs e n : n <= 0 -> shr mrs e n = (mrs, e).
Proof. destruct n; try lia; reflexivity. Qed.

Lemma fexp64_mono a b : a <= b -> fexp64 a <= fexp64 b.
Proof. unfold fexp64. lia. Qed.

Lemma binary_round_aux_spec s mx ex lx x :
  0 <= mx -> located mx lx (x * pow2 (- ex)) ->
  let ef := Z.max ex (fexp64 (Zdigits2 mx + ex)) in
  exists m e,
    binary_round_aux 53 1024 s mx ex lx = F_of s m e /\
    0 <= m /\ ef <= e <= ef + 1 /\
    (Qabs (inject_Z m * pow2 e - x) <= pow2 (ef - 1))%Q /\
    (lx = loc_Exact -> fexp64 (Zdigits2 mx + ex) <= ex ->
     (inject_Z m * pow2 e == x)%Q) /\
    m < 2 ^ 53.
Proof.
  intros Hmx Hloc ef.
  unfold binary_round_aux, shr_fexp. rewrite !fexp64_eq.
  set (n1 := fexp64 (Zdigits2 mx + ex) - ex).
  assert (0 <= shr_m (shr_record_of_loc mx lx)) as M0
    by now rewrite shr_record_of_loc_m.
  assert (located_rec (shr_record_of_loc mx lx) (x * pow2 (- ex))) as L0.
  { unfold located_rec. now rewrite shr_record_of_loc_m, shr_record_of_loc_loc. }
  pose proof (shr_located _ ex n1 x M0 L0) as S1. cbv zeta in S1.
  pose proof (shr_m_div (shr_record_of_loc mx lx) ex n1 M0) as D1.
  rewrite shr_record_of_loc_m in D1.
  destruct (shr (shr_record_of_loc mx lx) ex n1) as [mrs' e'].
  cbn [fst snd] in S1, D1. destruct S1 as (L1 & M1 & E1 & X1).
  assert (e' = ef) as -> by (subst ef n1; lia).
  set (m' := shr_m mrs') in *.
  pose proof (round_nearest_even_spec m' _ _ M1 L1) as R. cbv zeta in R.
  set (m'' := round_nearest_even m' (loc_of_shr_record mrs')) in *.
  destruct R as (R1 & R2 & R3).
  set (n2 := fexp64 (Zdigits2 m'' + ef) - ef).
  (* the digits of m' *)
  assert (-1074 <= ef) as Hef by (subst ef; unfold fexp64; lia).
  assert (Zdigits2 m' + ef <= Z.max (Zdigits2 mx + ex) ef) as Dm'.
  { destruct (Z.eq_dec m' 0) as [->|N]; [simpl; lia|].
    assert (Zdigits2 (mx / 2 ^ Z.max 0 n1) + Z.max 0 n1 <= Zdigits2 mx)
      by (apply Zdigits2_div; lia).
    rewrite <- D1 in H. subst ef n1. lia. }
  assert (n2 <= 0 \/ (n2 = 1 /\ m'' = 2 * (m'' / 2))) as Hn2.
  { destruct (Zdigits2_succ m' M1) as [Ds1 Ds2].
    destruct (Z.eq_dec m'' m') as [E|N].
    - left. subst n2. rewrite E.
      pose proof (fexp64_mono _ _ Dm'). subst ef. unfold fexp64 in *. lia.
    - assert (m'' = m' + 1) as E by lia.
      destruct (Z.eq_dec m' 0) as [Z0|NZ].
      + left. subst n2. rewrite E, Z0. simpl. unfold fexp64. lia.
      + destruct (Z.eq_dec (Zdigits2 (m' + 1)) (Zdigits2 m' + 1)) as [G|G].
        * pose proof (Ds2 G) as P2.
          assert (n2 <= 1).
          { subst n2. rewrite E, G.
            pose proof (fexp64_mono _ _ Dm'). subst ef. unfold fexp64 in *. lia. }
          destruct (Z_le_gt_dec n2 0); [now left|right]. split; [lia|].
          rewrite E, P2.
          pose proof (Zdigits2_pos m' ltac:(lia)).
          replace (Zdigits2 m') with (1 + (Zdigits2 m' - 1)) by lia.
          rewrite Z.pow_add_r by lia. change (2 ^ 1) with 2.
          rewrite Z.mul_comm, Z.div_mul by lia. lia.
        * left. subst n2. rewrite E.
          assert (Zdigits2 (m' + 1) = Zdigits2 m').
          { pose proof (Zdigits2_le m' (m' + 1) ltac:(lia) ltac:(lia)). lia. }
          rewrite H.
          pose proof (fexp64_mono _ _ Dm'). subst ef. unfold fexp64 in *. lia. }
  (* the value before the second shift *)
  assert (Qabs (inject_Z m'' * pow2 ef - x) <= pow2 (ef - 1))%Q as V.
  { rewrite pow2_pred.
    pose proof (pow2_pos ef) as Pe. pose proof (pow2_opp ef) as Po.
    apply Qabs_Qle_condition in R1. apply Qabs_Qle_condition.
    set (a := inject_Z m'') in *. set (t := (x * pow2 (- ef))%Q) in *.
    assert (x == t * pow2 ef)%Q as Ex.
    { subst t. rewrite <- Qmult_assoc, (Qmult_comm (pow2 (- ef))), Po. ring. }
    rewrite Ex. split; nra. }
  assert (lx = loc_Exact -> fexp64 (Zdigits2 mx + ex) <= ex ->
          (inject_Z m'' * pow2 ef == x)%Q) as Vx.
  { intros El Hn. assert (n1 <= 0) as N1 by (subst n1; lia).
    specialize (X1 N1). subst mrs'. subst m'' m'.
    rewrite shr_record_of_loc_m, shr_record_of_loc_loc. rewrite El. simpl.
    assert (ef = ex) as -> by (subst ef; lia).
    rewrite El in Hloc. simpl in Hloc. rewrite <- Hloc.
    rewrite <- Qmult_assoc, (Qmult_comm (pow2 (- ex))), pow2_opp. ring. }
  assert (0 <= m'') as M2 by lia.
  (* the mantissa fits in 53 digits *)
  assert (m' < 2 ^ 53) as Hm53.
  { destruct (Z.eq_dec m' 0) as [Z0|N]; [rewrite Z0; reflexivity|].
    pose proof (Zdigits2_bounds m' ltac:(lia)) as [_ B].
    assert (Zdigits2 m' <= 53) by (subst ef; unfold fexp64 in *; lia).
    assert (2 ^ Zdigits2 m' <= 2 ^ 53) by (apply Z.pow_le_mono_r; lia). lia. }
  change (shr_record_of_loc m'' loc_Exact)
    with {| shr_m := m''; shr_r := false; shr_s := false |}.
  change (fexp 53 1024 (Zdigits2 m'' + ef) - ef) with n2.
  destruct Hn2 as [Hn|[Hn Hev]].
  - exists m'', ef. rewrite (shr_nonpos _ _ _ Hn). cbn [shr_m].
    split; [destruct m''; try lia; reflexivity|].
    assert (m'' < 2 ^ 53).
    { destruct (Z.eq_dec m'' (2 ^ 53)) as [E53|]; [|lia]. exfalso.
      subst n2. rewrite E53 in Hn.
      change (Zdigits2 (2 ^ 53)) with 54 in Hn. unfold fexp64 in Hn. lia. }
    repeat split; try lia; assumption.
  - exists (m'' / 2), (ef + 1). rewrite Hn. cbn [shr SpecFloat.iter_pos].
    assert (shr_m (shr_1 {| shr_m := m''; shr_r := false; shr_s := false |})
            = m'' / 2) as E
      by (apply shr_1_m; simpl; lia).
    rewrite E.
    assert (0 <= m'' / 2) by (apply Z.div_pos; lia).
    assert (inject_Z (m'' / 2) * pow2 (ef + 1) == inject_Z m'' * pow2 ef)%Q as Ev.
    { rewrite pow2_succ. rewrite Hev at 2. rewrite inject_Z_mult.
      change (inject_Z 2) with 2%Q. ring. }
    split; [destruct (m'' / 2); try lia; reflexivity|].
    repeat split; try lia.
    + now rewrite Ev.
    + intros. rewrite Ev. auto.
Qed.

Lemma nn_nonneg x : nn x -> (0 <= value x)%Q.
Proof.
  destruct x as [[]|[]| |[] m e]; simpl; try tauto; try discriminate.
  intros _. pose proof (pow2_pos e).
  assert (0 < inject_Z (Zpos m))%Q by (change 0%Q with (inject_Z 0); rewrite <- Zlt_Qlt; lia).
  nra.
Qed.

(** The rounded number: its value, and when it is in range. *)
Lemma F_of_value s m e :
  0 <= m -> e <= 971 ->
  (value (F_of s m e) == (if s then -1 else 1) * (inject_Z m * pow2 e))%Q.
Proof.
  intros Hm He. destruct m as [|p|p]; try lia; simpl.
  - ring.
  - destruct (Z.leb_spec e 971); [reflexivity|lia].
Qed.

Lemma F_of_nn m e : 0 <= m -> -1074 <= e -> e <= 971 -> nn (F_of false m e).
Proof.
  intros Hm He1 He2. destruct m as [|p|p]; try lia; simpl; [exact I|].
  destruct (Z.leb_spec e 971); [exact He1|lia].
Qed.

Lemma Qabs_exact a x : (a == x)%Q -> (Qabs (a - x) == 0)%Q.
Proof.
  intros E. rewrite E. unfold Qminus. rewrite Qplus_opp_r. reflexivity.
Qed.

(** The error of a rounding, relative to the exact value [x]. *)
Lemma round_error s mx ex lx x :
  0 <= mx -> located mx lx (x * pow2 (- ex)) ->
  (lx = loc_Exact \/ ex <= fexp64 (Zdigits2 mx + ex)) ->
  exists m e,
    binary_round_aux 53 1024 s mx ex lx = F_of s m e /\
    0 <= m /\ -1074 <= e /\
    e <= Z.max ex (fexp64 (Zdigits2 mx + ex)) + 1 /\
    (Qabs (inject_Z m * pow2 e - x) <= u53 * x + eta)%Q /\
    (lx = loc_Exact -> -1074 <= ex ->
     (Qabs (inject_Z m * pow2 e - x) <= u53 * x)%Q).
Proof.
  intros Hmx Hloc Hcase.
  destruct (binary_round_aux_spec s mx ex lx x Hmx Hloc)
    as (m & e & E & Hm & He & V & Vx & _).
  set (d := Zdigits2 mx) in *.
  set (ef := Z.max ex (fexp64 (d + ex))) in *.
  (* the exact value is at least the truncated one *)
  assert (inject_Z mx * pow2 ex <= x)%Q as Lo.
  { pose proof (pow2_pos ex) as Pe. pose proof (pow2_opp ex) as Po.
    assert (x == (x * pow2 (- ex)) * pow2 ex)%Q as Ex.
    { rewrite <- Qmult_assoc, (Qmult_comm (pow2 (- ex))), Po. ring. }
    set (t := (x * pow2 (- ex))%Q) in *.
    assert (inject_Z mx <= t)%Q.
    { destruct lx as [|[]]; simpl in Hloc; lra. }
    rewrite Ex. nra. }
  assert (0 <= x)%Q as Hx.
  { pose proof (pow2_pos ex).
    assert (0 <= inject_Z mx)%Q by (change 0%Q with (inject_Z 0); rewrite <- Zle_Qle; lia).
    nra. }
  assert (-1074 <= ef) as Hef by (subst ef; unfold fexp64; lia).
  exists m, e. split; [exact E|]. split; [exact Hm|]. split; [lia|].
  split; [lia|].
  assert (0 < u53)%Q as Pu by apply pow2_pos.
  assert (0 < eta)%Q as Pn by apply pow2_pos.
  assert (0 <= u53 * x)%Q as Hux by nra.
  (* the three positions of the final exponent *)
  assert ((Qabs (inject_Z m * pow2 e - x) <= u53 * x + eta)%Q /\
          (lx = loc_Exact -> -1074 <= ex ->
           (Qabs (inject_Z m * pow2 e - x) <= u53 * x)%Q)) as [G1 G2].
  { destruct (Z_le_gt_dec (fexp64 (d + ex)) ex) as [Hle|Hgt].
    - (* no shift *)
      destruct Hcase as [El|Hc].
      + specialize (Vx El Hle).
        assert (Qabs (inject_Z m * pow2 e - x) == 0)%Q as Z0.
        { now apply Qabs_exact. }
        rewrite Z0. split; [nra|intros; nra].
      + assert (ef = fexp64 (d + ex)) as Eef by (subst ef; lia).
        assert (ex = fexp64 (d + ex)) as Eex by lia.
        destruct (Z.eq_dec mx 0) as [Zm|Nm].
        * (* nothing to truncate: the exponent is the least one *)
          assert (ef = -1074) as E0.
          { assert (d = 0) as D0 by (subst d; now rewrite Zm).
            rewrite D0 in Eex. unfold fexp64 in Eex. lia. }
          rewrite E0 in V. change (pow2 (-1074 - 1)) with eta in V.
          split; [lra|].
          intros El _. specialize (Vx El Hle).
          assert (Qabs (inject_Z m * pow2 e - x) == 0)%Q as Z0.
          { now apply Qabs_exact. }
          rewrite Z0. nra.
        * assert (Qabs (inject_Z m * pow2 e - x) <= u53 * x + eta)%Q as G.
          { unfold fexp64 in Eex.
            destruct (Z_le_gt_dec (d + ex - 53) (-1074)).
            - assert (ef = -1074) as E0 by lia.
              rewrite E0 in V. change (pow2 (-1074 - 1)) with eta in V. lra.
            - assert (ef = d + ex - 53) as E0 by lia.
              pose proof (Zdigits2_bounds mx ltac:(lia)) as [B1 _]. fold d in B1.
              assert (pow2 (d - 1) <= inject_Z mx)%Q as B.
              { pose proof (Zdigits2_pos mx ltac:(lia)). fold d in H.
                rewrite pow2_Z by lia. rewrite <- Zle_Qle. exact B1. }
              assert (pow2 (ef - 1) == u53 * (pow2 (d - 1) * pow2 ex))%Q as Ev.
              { unfold u53. rewrite <- !pow2_add. rewrite E0.
                replace (d + ex - 53 - 1) with (-53 + (d - 1 + ex)) by lia.
                reflexivity. }
              rewrite Ev in V. pose proof (pow2_pos ex). 
              assert (pow2 (d - 1) * pow2 ex <= x)%Q by nra.
              nra. }
          split; [exact G|]. intros El _. specialize (Vx El Hle).
          assert (Qabs (inject_Z m * pow2 e - x) == 0)%Q as Z0.
          { now apply Qabs_exact. }
          rewrite Z0. nra.
    - (* a shift to the exponent [fexp64 (d + ex)] *)
      assert (ef = fexp64 (d + ex)) as Eef by (subst ef; lia).
      unfold fexp64 in Eef.
      destruct (Z_le_gt_dec (d + ex - 53) (-1074)).
      + assert (ef = -1074) as E0 by lia.
        rewrite E0 in V. change (pow2 (-1074 - 1)) with eta in V.
        split; [lra|]. intros _ Hex. unfold fexp64 in Hgt. lia.
      + assert (ef = d + ex - 53) as E0 by lia.
        destruct (Z.eq_dec mx 0) as [Zm|Nm].
        { assert (d = 0) as D0 by (subst d; now rewrite Zm).
          rewrite D0 in Hgt. unfold fexp64 in Hgt. lia. }
        pose proof (Zdigits2_bounds mx ltac:(lia)) as [B1 _]. fold d in B1.
        assert (pow2 (d - 1) <= inject_Z mx)%Q as B.
        { pose proof (Zdigits2_pos mx ltac:(lia)). fold d in H.
          rewrite pow2_Z by lia. rewrite <- Zle_Qle. exact B1. }
        assert (pow2 (ef - 1) == u53 * (pow2 (d - 1) * pow2 ex))%Q as Ev.
        { unfold u53. rewrite <- !pow2_add. rewrite E0.
          replace (d + ex - 53 - 1) with (-53 + (d - 1 + ex)) by lia.
          reflexivity. }
        rewrite Ev in V. pose proof (pow2_pos ex).
        assert (pow2 (d - 1) * pow2 ex <= x)%Q by nra.
        split; [nra|intros; nra]. }
  split; assumption.
Qed.

(** ** The quotient before rounding *)
Lemma inject_Z_pos m : 0 < m -> (0 < inject_Z m)%Q.
Proof. intros. change 0%Q with (inject_Z 0). now rewrite <- Zlt_Qlt. Qed.

Lemma inject_Z_nonneg m : 0 <= m -> (0 <= inject_Z m)%Q.
Proof. intros. change 0%Q with (inject_Z 0). now rewrite <- Zle_Qle. Qed.

Lemma new_location_located m2 q r (t : Q) :
  0 < m2 -> 0 <= r < m2 ->
  (t * inject_Z m2 == inject_Z q * inject_Z m2 + inject_Z r)%Q ->
  located q (new_location m2 r) t.
Proof.
  intros Hm2 Hr Ht.
  pose proof (inject_Z_pos m2 Hm2) as P2.
  assert (inject_Z (2 * r) == 2 * inject_Z r)%Q as E2 by (rewrite inject_Z_mult; reflexivity).
  assert (inject_Z (2 * r + 1) == 2 * inject_Z r + 1)%Q as E3
    by (rewrite inject_Z_plus, inject_Z_mult; reflexivity).
  assert (r = 0 -> located q loc_Exact t) as G0.
  { intros R0. simpl. rewrite R0 in Ht. change (inject_Z 0) with 0%Q in Ht. nra. }
  unfold new_location.
  destruct (Z.even m2) eqn:Ev; unfold new_location_even, new_location_odd;
    destruct (Z.eqb_spec r 0) as [R0|RN]; auto.
  - assert (0 < inject_Z r)%Q as PR by (apply inject_Z_pos; lia).
    destruct (Z.compare_spec (2 * r) m2) as [C|C|C]; simpl.
    + assert (2 * inject_Z r == inject_Z m2)%Q by (rewrite <- E2, C; reflexivity).
      nra.
    + assert (2 * inject_Z r < inject_Z m2)%Q by (rewrite <- E2, <- Zlt_Qlt; lia).
      split; nra.
    + assert (inject_Z m2 < 2 * inject_Z r)%Q by (rewrite <- E2, <- Zlt_Qlt; lia).
      assert (inject_Z r < inject_Z m2)%Q by (rewrite <- Zlt_Qlt; lia).
      split; nra.
  - assert (0 < inject_Z r)%Q as PR by (apply inject_Z_pos; lia).
    destruct (Z.compare_spec (2 * r + 1) m2) as [C|C|C]; simpl.
    + assert (2 * inject_Z r < inject_Z m2)%Q by (rewrite <- E2, <- Zlt_Qlt; lia).
      split; nra.
    + assert (2 * inject_Z r < inject_Z m2)%Q by (rewrite <- E2, <- Zlt_Qlt; lia).
      split; nra.
    + assert (inject_Z m2 < 2 * inject_Z r)%Q.
      { rewrite <- E2, <- Zlt_Qlt.
        assert (m2 <> 2 * r).
        { intros Eq. rewrite Eq, Z.even_mul in Ev. discriminate. }
        lia. }
      assert (inject_Z r < inject_Z m2)%Q by (rewrite <- Zlt_Qlt; lia).
      split; nra.
Qed.

Lemma div_core_spec m1 e1 m2 e2 q e' l :
  0 < m1 -> 0 < m2 ->
  SFdiv_core_binary 53 1024 m1 e1 m2 e2 = (q, e', l) ->
  0 <= q /\
  located q l ((inject_Z m1 * pow2 e1) / (inject_Z m2 * pow2 e2) * pow2 (- e')) /\
  e' <= fexp64 (Zdigits2 q + e') /\
  e' <= fexp64 (Zdigits2 m1 + e1 - (Zdigits2 m2 + e2)).
Proof.
  intros H1 H2. unfold SFdiv_core_binary. rewrite fexp64_eq.
  set (d1 := Zdigits2 m1). set (d2 := Zdigits2 m2).
  set (ez := Z.min (fexp64 (d1 + e1 - (d2 + e2))) (e1 - e2)).
  set (s := e1 - e2 - ez).
  assert (0 <= s) as Hs by (subst s ez; lia).
  set (m' := match s with Z.pos _ => Z.shiftl m1 s | 0 => m1 | Z.neg _ => 0 end).
  assert (m' = m1 * 2 ^ s) as Em'.
  { assert (forall s0, 0 <= s0 ->
              match s0 with
              | Z.pos _ => Z.shiftl m1 s0
              | 0 => m1
              | Z.neg _ => 0
              end = m1 * 2 ^ s0) as Sh.
    { intros [|p|p] Hp; try lia. apply Z.shiftl_mul_pow2. lia. }
    apply Sh, Hs. }
  assert (0 < 2 ^ s) as Ps by (apply Z.pow_pos_nonneg; lia).
  pose proof (Z_div_mod m' m2 ltac:(lia)) as DM.
  destruct (Z.div_eucl m' m2) as [q0 r0]. destruct DM as [DM Hr].
  intros [= <- <- <-].
  assert (0 <= q0) as Hq by nia.
  split; [exact Hq|].
  pose proof (inject_Z_pos m1 H1) as P1. pose proof (inject_Z_pos m2 H2) as P2.
  pose proof (pow2_pos e1) as Pe1. pose proof (pow2_pos e2) as Pe2.
  split.
  - apply new_location_located; [lia|lia|].
    rewrite <- inject_Z_mult, <- inject_Z_plus.
    replace (q0 * m2 + r0) with m' by lia. rewrite Em', inject_Z_mult.
    rewrite <- pow2_Z by lia. subst s.
    replace (e1 - e2 - ez) with (e1 + (- e2 + - ez)) by lia.
    rewrite !pow2_add, (pow2_inv e2).
    field. split; lra.
  - assert (ez <= fexp64 (d1 + e1 - (d2 + e2))) as G2 by (subst ez; lia).
    split; [|exact G2].
    destruct (Z_le_gt_dec ez (-1074)) as [L|G]; [unfold fexp64; lia|].
    assert (53 <= d1 + e1 - (d2 + e2) - ez) as Hk by (unfold fexp64 in G2; lia).
    set (k := d1 + s - d2 - 1).
    assert (52 <= k) as Hk' by (subst k s; lia).
    pose proof (Zdigits2_bounds m1 H1) as [B1 _]. fold d1 in B1.
    pose proof (Zdigits2_bounds m2 H2) as [_ B2]. fold d2 in B2.
    pose proof (Zdigits2_pos m1 H1). pose proof (Zdigits2_pos m2 H2).
    fold d1 in H. fold d2 in H0.
    assert (2 ^ k * m2 <= m') as Hlow.
    { rewrite Em'.
      assert (2 ^ k * 2 ^ d2 = 2 ^ (d1 - 1) * 2 ^ s).
      { rewrite <- !Z.pow_add_r by lia. f_equal. subst k. lia. }
      assert (0 < 2 ^ k) by (apply Z.pow_pos_nonneg; lia).
      nia. }
    assert (2 ^ k <= q0) as Hq2.
    { assert (0 < 2 ^ k) by (apply Z.pow_pos_nonneg; lia). nia. }
    assert (0 < q0) as Hq0.
    { assert (0 < 2 ^ k) by (apply Z.pow_pos_nonneg; lia). lia. }
    pose proof (Zdigits2_bounds q0 Hq0) as [_ C2].
    assert (k < Zdigits2 q0).
    { destruct (Z_lt_le_dec k (Zdigits2 q0)); [assumption|].
      assert (2 ^ Zdigits2 q0 <= 2 ^ k) by (apply Z.pow_le_mono_r; lia). lia. }
    assert (d1 + e1 - (d2 + e2) <= Zdigits2 q0 + ez) by (subst k s; lia).
    pose proof (fexp64_mono _ _ H4). lia.
Qed.

Lemma pow2_lt_inv a b : (pow2 a < pow2 b)%Q -> a < b.
Proof.
  intros H. destruct (Z_lt_le_dec a b); [assumption|].
  pose proof (pow2_le b a ltac:(lia)). lra.
Qed.

(** The exponent of a rounding whose exact value is below [2^b]. *)
Lemma digits_below mx ex x b :
  0 < mx -> (inject_Z mx * pow2 ex <= x)%Q -> (x < pow2 b)%Q ->
  Zdigits2 mx + ex <= b.
Proof.
  intros Hm Lo Hi.
  pose proof (Zdigits2_bounds mx Hm) as [B1 _].
  pose proof (Zdigits2_pos mx Hm).
  assert (pow2 (Zdigits2 mx - 1) <= inject_Z mx)%Q as B.
  { rewrite pow2_Z by lia. rewrite <- Zle_Qle. exact B1. }
  pose proof (pow2_pos ex).
  assert (pow2 (Zdigits2 mx - 1 + ex) < pow2 b)%Q as L.
  { rewrite pow2_add. nra. }
  apply pow2_lt_inv in L. lia.
Qed.

Lemma located_lower mx lx t : located mx lx t -> (inject_Z mx <= t)%Q.
Proof. destruct lx as [|[]]; simpl; lra. Qed.

Lemma scaled_lower mx ex lx x :
  located mx lx (x * pow2 (- ex)) -> (inject_Z mx * pow2 ex <= x)%Q.
Proof.
  intros H. apply located_lower in H.
  pose proof (pow2_pos ex) as Pe. pose proof (pow2_opp ex) as Po.
  assert (x == (x * pow2 (- ex)) * pow2 ex)%Q as Ex.
  { rewrite <- Qmult_assoc, (Qmult_comm (pow2 (- ex))), Po. ring. }
  set (t := (x * pow2 (- ex))%Q) in *. rewrite Ex. nra.
Qed.

(** ** Division of non-negative numbers *)
Lemma ratio_round m1 e1 m2 e2 (b : Z) :
  0 < m1 -> 0 < m2 -> b <= 1023 ->
  let x := ((inject_Z m1 * pow2 e1) / (inject_Z m2 * pow2 e2))%Q in
  let r :=
    let '(q, e, l) := SFdiv_core_binary 53 1024 m1 e1 m2 e2 in
    binary_round_aux 53 1024 false q e l in
  exists m e,
    r = F_of false m e /\ 0 <= m /\ -1074 <= e /\
    ((x < pow2 b)%Q -> e <= 971) /\
    (Qabs (inject_Z m * pow2 e - x) <= u53 * x + eta)%Q.
Proof.
  intros H1 H2 Hb x r. subst r.
  destruct (SFdiv_core_binary 53 1024 m1 e1 m2 e2) as [[q e'] l] eqn:E.
  destruct (div_core_spec _ _ _ _ _ _ _ H1 H2 E) as (Hq & L & C & _).
  fold x in L.
  destruct (round_error false q e' l x Hq L (or_intror C))
    as (m & e & R & Hm & He1 & He2 & V & _).
  exists m, e. repeat split; try assumption.
  intros Hx. pose proof (scaled_lower _ _ _ _ L) as Lo.
  destruct (Z.eq_dec q 0) as [Z0|NZ].
  - rewrite Z0 in *. simpl in C, He2. unfold fexp64 in *. lia.
  - pose proof (digits_below q e' x b ltac:(lia) Lo Hx).
    pose proof (fexp64_mono _ _ H). unfold fexp64 in *. lia.
Qed.

Lemma div_nn x y :
  nn x -> nn y -> (0 < value y)%Q -> (value x <= 2 * value y)%Q ->
  nn (F64.div x y) /\
  (Qabs (value (F64.div x y) - value x / value y)
     <= u53 * (value x / value y) + eta)%Q.
Proof.
  intros Hx Hy Py Hxy.
  assert (0 < u53)%Q as Pu by apply pow2_pos.
  assert (0 < eta)%Q as Pn by apply pow2_pos.
  destruct y as [[]|[]| |[] my ey]; simpl in Hy; try tauto;
    try (simpl in Py; lra).
  destruct x as [[]|[]| |[] mx ex]; simpl in Hx; try tauto.
  - (* zero *)
    change (F64.div (S754_zero false) (S754_finite false my ey))
      with (S754_zero false).
    split; [exact I|].
    set (Y := value (S754_finite false my ey)) in *.
    change (value (S754_zero false)) with 0%Q.
    assert (0 / Y == 0)%Q as E0 by (unfold Qdiv; ring).
    rewrite E0. apply Qabs_Qle_condition. split; lra.
  - unfold F64.div, F64.prec, F64.emax, SFdiv. cbn [xorb].
    pose proof (ratio_round (Zpos mx) ex (Zpos my) ey 2 ltac:(lia) ltac:(lia) ltac:(lia))
      as R. cbv zeta in R.
    destruct (SFdiv_core_binary 53 1024 (Zpos mx) ex (Zpos my) ey) as [[q e'] l].
    destruct R as (m & e & -> & Hm & He & Hov & V).
    set (X := (inject_Z (Zpos mx) * pow2 ex / (inject_Z (Zpos my) * pow2 ey))%Q) in *.
    assert (value (S754_finite false mx ex) / value (S754_finite false my ey) == X)%Q as EX.
    { subst X. simpl. 
      pose proof (pow2_pos ey). pose proof (inject_Z_pos (Zpos my) ltac:(lia)).
      field. split; lra. }
    assert (X < pow2 2)%Q as HX.
    { change (pow2 2) with 4%Q. rewrite <- EX.
      apply Qlt_shift_div_r; [exact Py|]. lra. }
    specialize (Hov HX).
    split; [apply F_of_nn; assumption|].
    rewrite F_of_value by assumption. rewrite EX.
    setoid_replace (1 * (inject_Z m * pow2 e))%Q with (inject_Z m * pow2 e)%Q
      using relation Qeq by ring.
    exact V.
Qed.

(** ** Multiplication by a non-negative number *)
Lemma mul_round s mU eU q :
  nn q ->
  let W := (inject_Z (Zpos mU) * pow2 eU)%Q in
  (W * value q < pow2 971)%Q ->
  exists m e,
    F64.mul (S754_finite s mU eU) q = F_of s m e /\ 0 <= m /\ e <= 971 /\
    (Qabs (inject_Z m * pow2 e - W * value q) <= u53 * (W * value q) + eta)%Q.
Proof.
  intros Hq W Hb.
  assert (0 < u53)%Q as Pu by apply pow2_pos.
  assert (0 < eta)%Q as Pn by apply pow2_pos.
  destruct q as [[]|[]| |[] mq eq]; simpl in Hq; try tauto.
  - exists 0, 0. replace (F64.mul (S754_finite s mU eU) (S754_zero false))
      with (S754_zero s) by (now destruct s).
    split; [reflexivity|]. split; [lia|]. split; [lia|].
    change (value (S754_zero false)) with 0%Q. change (inject_Z 0) with 0%Q.
    apply Qabs_Qle_condition. split; lra.
  - unfold F64.mul, F64.prec, F64.emax, SFmul.
    replace (xorb s false) with s by (now destruct s).
    set (X := (W * value (S754_finite false mq eq))%Q) in *.
    assert (located (Zpos (mU * mq)) loc_Exact (X * pow2 (- (eU + eq)))) as L.
    { simpl. subst X W. simpl. rewrite Pos2Z.inj_mul, inject_Z_mult.
      rewrite (pow2_inv (eU + eq)), pow2_add.
      pose proof (pow2_pos eU). pose proof (pow2_pos eq).
      field. split; lra. }
    destruct (round_error s (Zpos (mU * mq)) (eU + eq) loc_Exact X
                ltac:(lia) L (or_introl eq_refl))
      as (m & e & R & Hm & He1 & He2 & V & _).
    exists m, e. split; [exact R|]. split; [exact Hm|]. split; [|exact V].
    pose proof (scaled_lower _ _ _ _ L) as Lo.
    pose proof (digits_below (Zpos (mU * mq)) (eU + eq) X 971 ltac:(lia) Lo Hb) as D.
    pose proof (Zdigits2_pos (Zpos (mU * mq)) ltac:(lia)).
    unfold fexp64 in He2. lia.
Qed.

(** ** Addition of non-negative numbers *)
Lemma Pos_iter_xO m d : Zpos (Pos.iter xO m d) = Zpos m * 2 ^ Zpos d.
Proof.
  induction d as [|d IH] using Pos.peano_ind.
  - simpl. lia.
  - rewrite Pos.iter_succ, Pos2Z.inj_succ, Z.pow_succ_r by lia.
    change (Zpos (Pos.iter xO m d)~0) with (2 * Zpos (Pos.iter xO m d)).
    rewrite IH. lia.
Qed.

Lemma shl_align_spec m e e' :
  let r := shl_align m e e' in
  Zpos r.1 = Zpos m * 2 ^ (e - r.2) /\ r.2 = Z.min e e'.
Proof.
  unfold shl_align. destruct (e' - e) as [|d|d] eqn:E; cbn [fst snd].
  - rewrite Z.sub_diag. simpl. lia.
  - rewrite Z.sub_diag. simpl. lia.
  - rewrite Pos_iter_xO. replace (e - e') with (Zpos d) by lia. lia.
Qed.

Lemma shl_align_value m e e' :
  let r := shl_align m e e' in
  (inject_Z (Zpos r.1) * pow2 r.2 == inject_Z (Zpos m) * pow2 e)%Q /\
  r.2 = Z.min e e'.
Proof.
  destruct (shl_align_spec m e e') as [E1 E2]. cbv zeta. split; [|exact E2].
  rewrite E1, inject_Z_mult, <- pow2_Z by lia.
  rewrite <- Qmult_assoc, <- pow2_add.
  replace (e - (shl_align m e e').2 + (shl_align m e e').2) with e by lia.
  reflexivity.
Qed.

Lemma round_exact_pos m e :
  -1074 <= e ->
  let x := (inject_Z (Zpos m) * pow2 e)%Q in
  exists m' e',
    binary_round 53 1024 false m e = F_of false m' e' /\
    0 <= m' /\ -1074 <= e' /\
    (Qabs (inject_Z m' * pow2 e' - x) <= u53 * x)%Q.
Proof.
  intros He x. unfold binary_round. rewrite fexp64_eq.
  destruct (shl_align_value m e (fexp64 (Zpos (digits2_pos m) + e))) as [V E].
  destruct (shl_align m e (fexp64 (Z.pos (digits2_pos m) + e))) as [mz ez].
  cbn [fst snd] in V, E.
  assert (-1074 <= ez) as Hez by (unfold fexp64 in E; lia).
  assert (located (Zpos mz) loc_Exact (x * pow2 (- ez))) as L.
  { simpl. subst x. rewrite <- V, (pow2_inv ez).
    pose proof (pow2_pos ez). field. lra. }
  destruct (round_error false (Zpos mz) ez loc_Exact x ltac:(lia) L
              (or_introl eq_refl))
    as (m' & e' & R & Hm & He1 & He2 & _ & Vx).
  exists m', e'. repeat split; try assumption. now apply Vx.
Qed.

Lemma add_nn x y :
  nn x -> nn y ->
  F64.add x y = S754_infinity false \/
  (nn (F64.add x y) /\
   (Qabs (value (F64.add x y) - (value x + value y)) <= u53 * (value x + value y))%Q).
Proof.
  intros Hx Hy.
  assert (0 < u53)%Q as Pu by apply pow2_pos.
  pose proof (nn_nonneg x Hx) as Nx. pose proof (nn_nonneg y Hy) as Ny.
  assert (forall a : Q, 0 <= a -> Qabs (a - a) <= u53 * a)%Q as Ex.
  { intros a Ha. apply Qabs_Qle_condition. split; nra. }
  destruct x as [[]|[]| |[] mx ex]; simpl in Hx; try tauto;
    destruct y as [[]|[]| |[] my ey]; simpl in Hy; try tauto.
  - right. split; [exact Hy|].
    change (F64.add (S754_zero false) (S754_finite false my ey))
      with (S754_finite false my ey).
    change (value (S754_zero false)) with 0%Q.
    set (Y := value (S754_finite false my ey)) in *.
    apply Qabs_Qle_condition. split; nra.
  - right. split; [exact Hx|].
    change (F64.add (S754_finite false mx ex) (S754_zero false))
      with (S754_finite false mx ex).
    change (value (S754_zero false)) with 0%Q.
    set (X := value (S754_finite false mx ex)) in *.
    apply Qabs_Qle_condition. split; nra.
  - unfold F64.add, F64.prec, F64.emax, SFadd. cbn [cond_Zopp].
    set (ez := Z.min ex ey).
    destruct (shl_align_value mx ex ez) as [V1 E1].
    destruct (shl_align_value my ey ez) as [V2 E2].
    set (a := (shl_align mx ex ez).1) in *.
    set (b := (shl_align my ey ez).1) in *.
    assert ((shl_align mx ex ez).2 = ez) as F1 by (subst ez; lia).
    assert ((shl_align my ey ez).2 = ez) as F2 by (subst ez; lia).
    rewrite F1 in V1. rewrite F2 in V2.
    change (Zpos a + Zpos b) with (Zpos (a + b)). cbn [binary_normalize].
    destruct (round_exact_pos (a + b) ez ltac:(lia)) as (m & e & R & Hm & He & V).
    rewrite R.
    assert (inject_Z (Zpos (a + b)) * pow2 ez ==
            value (S754_finite false mx ex) + value (S754_finite false my ey))%Q as EV.
    { rewrite Pos2Z.inj_add, inject_Z_plus. simpl. rewrite <- V1, <- V2. ring. }
    rewrite EV in V.
    destruct (Z_le_gt_dec e 971) as [L|G].
    + right. split; [apply F_of_nn; assumption|].
      rewrite F_of_value by assumption.
      setoid_replace (1 * (inject_Z m * pow2 e))%Q with (inject_Z m * pow2 e)%Q
        using relation Qeq by ring.
      exact V.
    + destruct m as [|p|p]; try lia.
      * right. split; [exact I|]. simpl F_of. change (value (S754_zero false)) with 0%Q.
        change (inject_Z 0) with 0%Q in V.
        setoid_replace (0 * pow2 e)%Q with 0%Q using relation Qeq in V by ring.
        exact V.
      * left. simpl. destruct (Z.leb_spec e 971); [lia|reflexivity].
Qed.

Lemma F_of_false_cases m e :
  0 <= m -> -1074 <= e ->
  nn (F_of false m e) \/ F_of false m e = S754_infinity false.
Proof.
  intros Hm He. destruct m as [|p|p]; try lia; simpl; [now left|].
  destruct (Z.leb_spec e 971); [now left|now right].
Qed.

(** ** Parsed numbers *)
Lemma of_ratio_nn p d :
  nn (F64.of_ratio false p d) \/ F64.of_ratio false p d = S754_infinity false.
Proof.
  unfold F64.of_ratio, F64.prec, F64.emax.
  pose proof (ratio_round (Zpos p) 0 (Zpos d) 0 0 ltac:(lia) ltac:(lia) ltac:(lia))
    as R. cbv zeta in R.
  destruct (SFdiv_core_binary 53 1024 (Zpos p) 0 (Zpos d) 0) as [[q e'] l].
  destruct R as (m & e & -> & Hm & He & _). now apply F_of_false_cases.
Qed.

Lemma py_float_nn g x :
  py_float g = Ret x -> nn x \/ x = S754_infinity false.
Proof.
  unfold py_float. destruct (read_decimal g 0 0 None) as [[[n [|k]] f]|];
    try discriminate.
  destruct n as [|p|p]; intros [= <-]; try (now left).
  apply of_ratio_nn.
Qed.

(** ** Rounding to an integer *)
Lemma Zdigits2_mul_pow2 m k :
  0 < m -> 0 <= k -> Zdigits2 (m * 2 ^ k) = Zdigits2 m + k.
Proof.
  intros Hm Hk.
  pose proof (Zdigits2_bounds m Hm) as [B1 B2].
  pose proof (Zdigits2_pos m Hm).
  assert (0 < 2 ^ k) by (apply Z.pow_pos_nonneg; lia).
  apply Zdigits2_unique; try nia.
  replace (Zdigits2 m + k - 1) with (Zdigits2 m - 1 + k) by lia.
  rewrite !Z.pow_add_r by lia. nia.
Qed.

Lemma binary_round_exact s m e :
  fexp64 (Zdigits2 (Zpos m) + e) <= e ->
  exists m' e',
    binary_round 53 1024 s m e = F_of s m' e' /\ 0 <= m' /\
    e' <= e + 1 /\
    (inject_Z m' * pow2 e' == inject_Z (Zpos m) * pow2 e)%Q.
Proof.
  intros Hf. unfold binary_round. rewrite fexp64_eq.
  change (Zpos (digits2_pos m)) with (Zdigits2 (Zpos m)).
  set (f := fexp64 (Zdigits2 (Zpos m) + e)) in *.
  destruct (shl_align_spec m e f) as [S1 S2].
  destruct (shl_align_value m e f) as [V _].
  destruct (shl_align m e f) as [mz ez]. cbn [fst snd] in *.
  assert (ez = f) as -> by lia.
  set (x := (inject_Z (Zpos m) * pow2 e)%Q) in *.
  assert (located (Zpos mz) loc_Exact (x * pow2 (- f))) as L.
  { simpl. rewrite <- V, (pow2_inv f). pose proof (pow2_pos f). field. lra. }
  destruct (binary_round_aux_spec s (Zpos mz) f loc_Exact x ltac:(lia) L)
    as (m' & e' & R & Hm & He & _ & Vx & _).
  assert (Zdigits2 (Zpos mz) + f = Zdigits2 (Zpos m) + e) as D.
  { rewrite S1, Zdigits2_mul_pow2 by lia. lia. }
  rewrite D in *. fold f in He, Vx.
  exists m', e'. split; [exact R|]. split; [exact Hm|]. split; [lia|].
  apply Vx; [reflexivity|lia].
Qed.

Lemma nearest_spec he m e :
  e < 0 ->
  let n := F64.nearest he m e in
  0 <= n /\ (Qabs (inject_Z n - inject_Z (Zpos m) * pow2 e) <= 1 # 2)%Q /\
  n <= Zpos m.
Proof.
  intros He. unfold F64.nearest.
  set (d := 2 ^ (- e)).
  assert (0 < d) as Pd by (apply Z.pow_pos_nonneg; lia).
  assert (2 <= d) as Pd2.
  { subst d. replace (- e) with (1 + (- e - 1)) by lia.
    rewrite Z.pow_add_r by lia.
    assert (0 < 2 ^ (- e - 1)) by (apply Z.pow_pos_nonneg; lia).
    change (2 ^ 1) with 2. lia. }
  pose proof (Z_div_mod_eq_full (Zpos m) d) as DM.
  pose proof (Z.mod_pos_bound (Zpos m) d Pd) as Hr.
  set (q := Zpos m / d) in *. set (r := Zpos m mod d) in *.
  assert (0 <= q) as Hq by (apply Z.div_pos; lia).
  assert (inject_Z (Zpos m) * pow2 e * inject_Z d ==
          inject_Z q * inject_Z d + inject_Z r)%Q as EQ.
  { rewrite <- inject_Z_mult, <- inject_Z_plus.
    replace (q * d + r) with (Zpos m) by lia.
    subst d. rewrite <- pow2_Z by lia.
    rewrite <- Qmult_assoc, <- pow2_add. replace (e + - e) with 0 by lia.
    rewrite pow2_0. ring. }
  pose proof (inject_Z_pos d Pd) as PD.
  set (Y := (inject_Z (Zpos m) * pow2 e)%Q) in *.
  assert (inject_Z (2 * r) == 2 * inject_Z r)%Q as E2
    by (rewrite inject_Z_mult; reflexivity).
  assert (inject_Z (q + 1) == inject_Z q + 1)%Q as E3
    by (rewrite inject_Z_plus; reflexivity).
  assert (0 <= inject_Z r)%Q as PR by (apply inject_Z_nonneg; lia).
  assert (inject_Z r < inject_Z d)%Q as PR2 by (rewrite <- Zlt_Qlt; lia).
  assert (q + 1 <= Zpos m) as Hq1 by nia.
  destruct (Z.compare_spec (2 * r) d) as [C|C|C].
  - assert (2 * inject_Z r == inject_Z d)%Q as C' by (rewrite <- E2, C; reflexivity).
    destruct (he && Z.even q); (split; [lia|]); (split; [|lia]);
      apply Qabs_Qle_condition; rewrite ?E3; split; nra.
  - assert (2 * inject_Z r < inject_Z d)%Q as C' by (rewrite <- E2, <- Zlt_Qlt; lia).
    split; [lia|]. split; [|lia]. apply Qabs_Qle_condition. split; nra.
  - assert (inject_Z d < 2 * inject_Z r)%Q as C' by (rewrite <- E2, <- Zlt_Qlt; lia).
    split; [lia|]. split; [|lia]. apply Qabs_Qle_condition. rewrite E3. split; nra.
Qed.

Lemma trunc_exact s p' e' n :
  0 < n ->
  (inject_Z (Zpos p') * pow2 e' == inject_Z n * pow2 0)%Q ->
  F64.trunc s p' e' = cond_Zopp s n.
Proof.
  intros Hn E. unfold F64.trunc. f_equal. rewrite pow2_0, Qmult_1_r in E.
  destruct (Z.leb_spec 0 e') as [L|G].
  - rewrite pow2_Z, <- inject_Z_mult in E by lia.
    now apply (proj1 (inject_Z_injective _ _)) in E.
  - assert (inject_Z (Zpos p') == inject_Z (n * 2 ^ (- e')))%Q as E'.
    { rewrite inject_Z_mult, <- pow2_Z by lia. rewrite <- E.
      rewrite <- Qmult_assoc, pow2_opp. ring. }
    apply (proj1 (inject_Z_injective _ _)) in E'. rewrite E'.
    apply Z.div_mul. assert (0 < 2 ^ (- e')) by (apply Z.pow_pos_nonneg; lia). lia.
Qed.

Lemma int_round_spec v s m e :
  let Y := (inject_Z (Zpos m) * pow2 e)%Q in
  (e < 0 -> (Y < pow2 52)%Q) ->
  exists n,
    (py_round v (PyFloat (S754_finite s m e)) ≫= py_int) = Ret (cond_Zopp s n) /\
    0 <= n /\ (Qabs (inject_Z n - Y) <= 1 # 2)%Q.
Proof.
  intros Y HY. unfold py_round.
  destruct (Z.leb_spec 0 e) as [L|G].
  - exists (Zpos m * 2 ^ e). cbn [mbind result_bind py_int].
    unfold F64.trunc. destruct (Z.leb_spec 0 e); [|lia].
    split; [reflexivity|].
    assert (0 < 2 ^ e) by (apply Z.pow_pos_nonneg; lia).
    split; [lia|].
    assert (inject_Z (Zpos m * 2 ^ e) == Y)%Q as E.
    { subst Y. rewrite inject_Z_mult, <- pow2_Z by lia. reflexivity. }
    rewrite (Qabs_exact _ _ E). discriminate.
  - specialize (HY G).
    set (he := match v with Py3 => true | Py2 => false end).
    destruct (nearest_spec he m e G) as (Hn & Vn & _). cbv zeta in Hn, Vn.
    set (n := F64.nearest he m e) in *. fold Y in Vn.
    exists n. cbn [mbind result_bind]. split; [|split; assumption].
    destruct (Z.eq_dec n 0) as [->|NZ].
    + now destruct s.
    + assert (n <= 2 ^ 52) as Hn52.
      { apply Qabs_Qle_condition in Vn.
        assert (inject_Z n < inject_Z (2 ^ 52 + 1))%Q as Q1.
        { rewrite inject_Z_plus, <- pow2_Z by lia.
          change (inject_Z 1) with 1%Q. lra. }
        rewrite <- Zlt_Qlt in Q1. lia. }
      destruct n as [|p|p]; try lia.
      assert (binary_normalize F64.prec F64.emax (cond_Zopp s (Zpos p)) 0 s
              = binary_round 53 1024 s p 0) as -> by (now destruct s).
      assert (Zdigits2 (Zpos p) <= 53) as D.
      { pose proof (Zdigits2_bounds (Zpos p) ltac:(lia)) as [B1 _].
        destruct (Z_le_gt_dec (Zdigits2 (Zpos p)) 53); [assumption|].
        assert (2 ^ 53 <= 2 ^ (Zdigits2 (Zpos p) - 1))
          by (apply Z.pow_le_mono_r; lia).
        change (2 ^ 52) with 4503599627370496 in Hn52.
        change (2 ^ 53) with 9007199254740992 in H. lia. }
      destruct (binary_round_exact s p 0) as (m' & e' & R & Hm' & He' & V).
      { pose proof (Zdigits2_pos (Zpos p) ltac:(lia)). unfold fexp64. lia. }
      rewrite R.
      assert (0 < m') as Pm'.
      { destruct (Z.eq_dec m' 0) as [Z0|]; [|lia].
        rewrite Z0 in V. change (inject_Z 0) with 0%Q in V.
        rewrite pow2_0 in V.
        pose proof (inject_Z_pos (Zpos p) ltac:(lia)). lra. }
      destruct m' as [|p'|p']; try lia. simpl F_of.
      destruct (Z.leb_spec e' 971); [|lia]. cbn [py_int]. f_equal.
      apply trunc_exact; [lia|exact V].
Qed.

(** ** The arithmetic of the error analysis *)
Section Arith.
Local Open Scope Q_scope.

Lemma Qle_cancel_r (z c p : Q) : 0 < p -> z * p <= c * p -> z <= c.
Proof. intros Hp H. apply Qmult_lt_0_le_reg_r with p; assumption. Qed.

Lemma sum_ratio_bounds a1 a2 a3 P q1 q2 q3 t1 t2 t3 :
  0 <= a1 -> 0 <= a2 -> 0 <= a3 -> 0 < P ->
  (1 - uQ) * (1 - uQ) * (a1 + a2 + a3) <= P ->
  P <= (1 + uQ) * (1 + uQ) * (a1 + a2 + a3) ->
  0 <= t1 <= epsQ * P -> 0 <= t2 <= epsQ * P -> 0 <= t3 <= epsQ * P ->
  Qabs (q1 * P - a1) <= uQ * a1 + t1 ->
  Qabs (q2 * P - a2) <= uQ * a2 + t2 ->
  Qabs (q3 * P - a3) <= uQ * a3 + t3 ->
  1 - dQ <= q1 + q2 + q3 <= 1 + dQ.
Proof.
  intros A1 A2 A3 HP L U T1 T2 T3 H1 H2 H3.
  apply Qabs_Qle_condition in H1, H2, H3.
  unfold uQ, epsQ, dQ in *.
  split.
  - apply Qle_cancel_r with P; [assumption|]. lra.
  - apply Qle_cancel_r with P; [assumption|]. lra.
Qed.

Lemma Qmult_le_mono_nonneg w z c : 0 <= w -> z <= c -> w * z <= w * c.
Proof. intros. nra. Qed.

Lemma sum_counts_bound W q1 q2 q3 y1 y2 y3 n1 n2 n3 h1 h2 h3 :
  0 <= W <= W49 ->
  0 <= q1 -> 0 <= q2 -> 0 <= q3 ->
  1 - dQ <= q1 + q2 + q3 <= 1 + dQ ->
  0 <= h1 <= epsQ -> 0 <= h2 <= epsQ -> 0 <= h3 <= epsQ ->
  Qabs (y1 - W * q1) <= uQ * (W * q1) + h1 ->
  Qabs (y2 - W * q2) <= uQ * (W * q2) + h2 ->
  Qabs (y3 - W * q3) <= uQ * (W * q3) + h3 ->
  Qabs (n1 - y1) <= 1 # 2 -> Qabs (n2 - y2) <= 1 # 2 -> Qabs (n3 - y3) <= 1 # 2 ->
  Qabs (n1 + n2 + n3 - W) <= 2.
Proof.
  intros HW Q1 Q2 Q3 [ZL ZU] E1 E2 E3 Y1 Y2 Y3 N1 N2 N3.
  apply Qabs_Qle_condition in Y1, Y2, Y3, N1, N2, N3.
  pose proof (Qmult_le_mono_nonneg W _ _ (proj1 HW) ZU) as WU.
  pose proof (Qmult_le_mono_nonneg W _ _ (proj1 HW) ZL) as WL.
  apply Qabs_Qle_condition.
  unfold uQ, epsQ, dQ, W49 in *.
  split; lra.
Qed.
End Arith.

Lemma u53_eq : (u53 == uQ)%Q.
Proof. reflexivity. Qed.

Lemma eta_le : (eta <= epsQ)%Q.
Proof.
  assert (pow2 (-100) == epsQ)%Q as <- by reflexivity.
  apply pow2_le. lia.
Qed.
End FloatFacts.

(** ** The sum of the derived counts *)
Module StarSumFacts.
Import Re Star StarSpec StarFacts FloatSpec FloatFacts.

(** One derived count, for a non-zero [unmapped_count]. *)
Lemma count_bound v sU mU eU p P :
  nn p -> nn P -> (0 < value P)%Q -> (value p <= 2 * value P)%Q ->
  let W := (inject_Z (Zpos mU) * pow2 eU)%Q in
  (W <= W49)%Q ->
  exists n (q y t h : Q),
    spec_derived_count v (S754_finite sU mU eU) p P = Ret (cond_Zopp sU n) /\
    0 <= n /\ (0 <= q)%Q /\
    (0 <= t <= epsQ * value P)%Q /\ (0 <= h <= epsQ)%Q /\
    (Qabs (q * value P - value p) <= uQ * value p + t)%Q /\
    (Qabs (y - W * q) <= uQ * (W * q) + h)%Q /\
    (Qabs (inject_Z n - y) <= 1 # 2)%Q.
Proof.
  intros Hp HP PP Hle W HW.
  destruct (div_nn p P Hp HP PP Hle) as [Hq Vq].
  set (qf := F64.div p P) in *. set (q := value qf) in *.
  pose proof (nn_nonneg _ Hq) as Q0. fold q in Q0.
  pose proof (nn_nonneg _ Hp) as A0.
  pose proof eta_le as He. assert (0 < eta)%Q as Pn by apply pow2_pos.
  rewrite u53_eq in Vq.
  assert (0 < W)%Q as PW.
  { subst W. pose proof (pow2_pos eU).
    pose proof (inject_Z_pos (Zpos mU) ltac:(lia)). nra. }
  (* the quotient, multiplied out *)
  assert (Qabs (q * value P - value p) <= uQ * value p + eta * value P)%Q as Vq'.
  { apply Qabs_Qle_condition in Vq. apply Qabs_Qle_condition.
    set (X := (value p / value P)%Q) in *.
    assert (value p == X * value P)%Q as EX.
    { subst X. field. lra. }
    rewrite EX. unfold uQ in *. split; nra. }
  (* the quotient is at most 3 *)
  assert (q <= 3)%Q as Q3.
  { apply Qabs_Qle_condition in Vq'.
    apply Qle_cancel_r with (value P); [exact PP|].
    unfold uQ, epsQ in *. nra. }
  assert (W * q < pow2 971)%Q as Hb.
  { apply Qle_lt_trans with (W49 * 3)%Q.
    - unfold W49 in *. nra.
    - rewrite pow2_Z by lia. unfold W49.
      change (562949953421312 * 3)%Q with (inject_Z (562949953421312 * 3)).
      rewrite <- Zlt_Qlt. reflexivity. }
  destruct (mul_round sU mU eU qf Hq Hb) as (m & e & R & Hm & He971 & Vy).
  fold W q in Vy. rewrite u53_eq in Vy.
  set (y := (inject_Z m * pow2 e)%Q) in *.
  assert (y < pow2 52)%Q as Hy.
  { apply Qabs_Qle_condition in Vy.
    assert (pow2 52 == 4503599627370496)%Q as -> by reflexivity.
    unfold uQ, epsQ, W49 in *. nra. }
  assert (spec_derived_count v (S754_finite sU mU eU) p P =
          (py_round v (PyFloat (F_of sU m e)) ≫= py_int)) as ->.
  { unfold spec_derived_count.
    destruct P as [[]|[]| |[] mP eP]; simpl in HP; try tauto;
      try (simpl in PP; lra).
    cbn [F64.is_zero]. fold qf. now rewrite R. }
  assert (exists n, (py_round v (PyFloat (F_of sU m e)) ≫= py_int)
                    = Ret (cond_Zopp sU n) /\
                    0 <= n /\ (Qabs (inject_Z n - y) <= 1 # 2)%Q)
    as (n & Rn & Hn & Vn).
  { destruct m as [|pm|pm]; try lia.
    - exists 0. simpl F_of. split; [now destruct sU|]. split; [lia|].
      subst y. change (inject_Z 0) with 0%Q.
      apply Qabs_Qle_condition. split; lra.
    - simpl F_of. destruct (Z.leb_spec e 971); [|lia].
      apply int_round_spec. intros _. exact Hy. }
  exists n, q, y, (eta * value P)%Q, eta.
  split; [exact Rn|]. split; [exact Hn|]. split; [exact Q0|].
  split; [split; nra|]. split; [split; lra|].
  split; [exact Vq'|]. split; [exact Vy|exact Vn].
Qed.

Lemma nn_finite x : nn x -> is_finite x = true.
Proof. destruct x as [[]|[]| |[] m e]; simpl; tauto. Qed.

Lemma add_finite_inv x y :
  nn x \/ x = S754_infinity false -> nn y \/ y = S754_infinity false ->
  is_finite (F64.add x y) = true -> nn x /\ nn y.
Proof.
  intros [Hx| ->] [Hy| ->] F; try (split; assumption).
  - destruct x as [[]|[]| |[] m e]; simpl in Hx; try tauto; discriminate.
  - destruct y as [[]|[]| |[] m e]; simpl in Hy; try tauto; discriminate.
  - discriminate.
Qed.

Lemma add_nn_or_inf x y :
  nn x \/ x = S754_infinity false -> nn y \/ y = S754_infinity false ->
  nn (F64.add x y) \/ F64.add x y = S754_infinity false.
Proof.
  intros [Hx| ->] [Hy| ->].
  - destruct (add_nn x y Hx Hy) as [E|[N _]]; [now right|now left].
  - right. destruct x as [[]|[]| |[] m e]; simpl in Hx; try tauto; reflexivity.
  - right. destruct y as [[]|[]| |[] m e]; simpl in Hy; try tauto; reflexivity.
  - now right.
Qed.

(** The sum of the three percentages, when it is finite. *)
Lemma percent_sum p1 p2 p3 :
  nn p1 \/ p1 = S754_infinity false ->
  nn p2 \/ p2 = S754_infinity false ->
  nn p3 \/ p3 = S754_infinity false ->
  let P := F64.add (F64.add p1 p2) p3 in
  is_finite P = true ->
  nn p1 /\ nn p2 /\ nn p3 /\ nn P /\
  ((1 - uQ) * (1 - uQ) * (value p1 + value p2 + value p3) <= value P)%Q /\
  (value P <= (1 + uQ) * (1 + uQ) * (value p1 + value p2 + value p3))%Q.
Proof.
  intros H1 H2 H3 P F.
  pose proof (add_nn_or_inf p1 p2 H1 H2) as H12.
  destruct (add_finite_inv _ _ H12 H3 F) as [N12 N3].
  destruct (add_finite_inv _ _ H1 H2 (nn_finite _ N12)) as [N1 N2].
  destruct (add_nn p1 p2 N1 N2) as [E|[_ V12]].
  { rewrite E in N12. contradiction. }
  destruct (add_nn _ p3 N12 N3) as [E|[NP VP]].
  { fold P in E. rewrite E in F. discriminate. }
  fold P in NP, VP.
  pose proof (nn_nonneg _ N1). pose proof (nn_nonneg _ N2).
  pose proof (nn_nonneg _ N3). pose proof (nn_nonneg _ N12).
  rewrite u53_eq in V12, VP.
  apply Qabs_Qle_condition in V12, VP.
  repeat split; try assumption; unfold uQ in *; nra.
Qed.

Lemma extract_parsed {v} raw (d : gmap string pyval) k x :
  extract_fields v raw ∅ = (Ret tt, d) -> d !! k = Some (PyFloat x) ->
  exists g, py_float g = Ret x.
Proof.
  intros Hrun Hk. destruct (extract_floats _ _ _ _ Hrun Hk) as [Hin _].
  apply list_elem_of_fmap in Hin as [[k' r] [-> Hin]]. simpl in Hk.
  pose proof (extract_lookup _ _ _ _ _ _ Hrun (regexes_NoDup _) Hin) as H.
  destruct (first_match raw r) as [g|].
  - destruct H as (y & Hy & Hd). exists g. rewrite Hd in Hk. congruence.
  - rewrite H, lookup_empty in Hk. discriminate.
Qed.

Lemma field_present {v} raw (d : gmap string pyval) k :
  extract_fields v raw ∅ = (Ret tt, d) -> is_Some (d !! k) ->
  d !! k = Some (PyFloat (field d k)) /\
  (nn (field d k) \/ field d k = S754_infinity false).
Proof.
  intros Hrun [x Hx]. destruct (extract_floats _ _ _ _ Hrun Hx) as [_ Fl].
  destruct x as [x|n]; [|contradiction].
  assert (field d k = x) as E by (unfold field; now rewrite Hx).
  rewrite E. split; [exact Hx|].
  destruct (extract_parsed _ _ _ _ Hrun Hx) as [g Hg].
  now apply py_float_nn in Hg.
Qed.

(** A zero [unmapped_count] gives three zero counts. *)
Lemma count_zero v s p P :
  nn p -> nn P -> (0 < value P)%Q -> (value p <= 2 * value P)%Q ->
  spec_derived_count v (S754_zero s) p P = Ret 0.
Proof.
  intros Hp HP PP Hle. unfold spec_derived_count.
  destruct (div_nn p P Hp HP PP Hle) as [Hq _].
  destruct P as [[]|[]| |[] mP eP]; simpl in HP; try tauto;
    try (simpl in PP; lra).
  cbn [F64.is_zero].
  destruct (F64.div p (S754_finite false mP eP)) as [[]|[]| |[] m e];
    simpl in Hq; try tauto; now destruct s.
Qed.

(** The sum of the derived counts: within 2 of [unmapped_count], when the
    latter is at most [2^49] in absolute value. *)
Lemma counts_sum v U p1 p2 p3 :
  nn p1 \/ p1 = S754_infinity false ->
  nn p2 \/ p2 = S754_infinity false ->
  nn p3 \/ p3 = S754_infinity false ->
  let P := F64.add (F64.add p1 p2) p3 in
  is_finite P = true -> (0 < value P)%Q ->
  is_finite U = true -> (Qabs (value U) <= W49)%Q ->
  exists c1 c2 c3,
    spec_derived_count v U p1 P = Ret c1 /\
    spec_derived_count v U p2 P = Ret c2 /\
    spec_derived_count v U p3 P = Ret c3 /\
    (Qabs (inject_Z (c1 + c2 + c3) - value U) <= 2)%Q.
Proof.
  intros H1 H2 H3 P FP PP FU HU.
  destruct (percent_sum p1 p2 p3 H1 H2 H3 FP) as (N1 & N2 & N3 & NP & Lo & Hi).
  fold P in NP, Lo, Hi.
  pose proof (nn_nonneg _ N1) as A1. pose proof (nn_nonneg _ N2) as A2.
  pose proof (nn_nonneg _ N3) as A3.
  assert (value p1 <= 2 * value P /\ value p2 <= 2 * value P /\ value p3 <= 2 * value P)%Q
    as (L1 & L2 & L3) by (unfold uQ in *; repeat split; nra).
  destruct U as [s| | |sU mU eU]; try discriminate.
  - exists 0, 0, 0. rewrite !count_zero by assumption.
    repeat split. simpl. discriminate.
  - set (W := (inject_Z (Zpos mU) * pow2 eU)%Q).
    assert (0 < W)%Q as PW.
    { subst W. pose proof (pow2_pos eU).
      pose proof (inject_Z_pos (Zpos mU) ltac:(lia)). nra. }
    assert (W <= W49)%Q as HW.
    { apply Qabs_Qle_condition in HU. simpl in HU. fold W in HU.
      destruct sU; lra. }
    destruct (count_bound v sU mU eU p1 P N1 NP PP L1 HW)
      as (n1 & q1 & y1 & t1 & h1 & R1 & M1 & Q1 & T1 & E1 & V1 & Y1 & I1).
    destruct (count_bound v sU mU eU p2 P N2 NP PP L2 HW)
      as (n2 & q2 & y2 & t2 & h2 & R2 & M2 & Q2 & T2 & E2 & V2 & Y2 & I2).
    destruct (count_bound v sU mU eU p3 P N3 NP PP L3 HW)
      as (n3 & q3 & y3 & t3 & h3 & R3 & M3 & Q3 & T3 & E3 & V3 & Y3 & I3).
    fold W in Y1, Y2, Y3.
    exists (cond_Zopp sU n1), (cond_Zopp sU n2), (cond_Zopp sU n3).
    repeat split; try assumption.
    pose proof (sum_ratio_bounds _ _ _ _ _ _ _ _ _ _ A1 A2 A3 PP Lo Hi
                  T1 T2 T3 V1 V2 V3) as Z.
    pose proof (sum_counts_bound W q1 q2 q3 y1 y2 y3
                  (inject_Z n1) (inject_Z n2) (inject_Z n3) h1 h2 h3
                  (conj (Qlt_le_weak _ _ PW) HW) Q1 Q2 Q3 Z E1 E2 E3
                  Y1 Y2 Y3 I1 I2 I3) as B.
    apply Qabs_Qle_condition in B. apply Qabs_Qle_condition.
    cbn [value]. fold W.
    destruct sU; cbn [cond_Zopp]; rewrite !inject_Z_plus, ?inject_Z_opp;
      split; lra.
Qed.

(** ** The derived count is a nearest integer *)

(** A finite product has a mantissa of at most 53 digits. *)
Lemma mul_finite_mantissa a b s m e :
  F64.mul a b = S754_finite s m e -> Zpos m < 2 ^ 53.
Proof.
  destruct a as [sa|sa| |sa ma ea], b as [sb|sb| |sb mb eb];
    try discriminate.
  unfold F64.mul, F64.prec, F64.emax, SFmul.
  set (x := (inject_Z (Zpos (ma * mb)) * pow2 (ea + eb))%Q).
  assert (located (Zpos (ma * mb)) loc_Exact (x * pow2 (- (ea + eb)))) as L.
  { simpl. subst x. rewrite (pow2_inv (ea + eb)).
    pose proof (pow2_pos (ea + eb)). field. lra. }
  destruct (binary_round_aux_spec (xorb sa sb) (Zpos (ma * mb)) (ea + eb)
              loc_Exact x ltac:(lia) L)
    as (m' & e' & -> & Hm & _ & _ & _ & B).
  destruct m' as [|p|p]; simpl; try discriminate.
  destruct (e' <=? 971); [|discriminate]. now intros [= _ <- _].
Qed.

Lemma int_round_canonical v s m e :
  Zpos m < 2 ^ 53 ->
  exists n,
    (py_round v (PyFloat (S754_finite s m e)) ≫= py_int) = Ret (cond_Zopp s n) /\
    0 <= n /\
    (Qabs (inject_Z n - inject_Z (Zpos m) * pow2 e) <= 1 # 2)%Q.
Proof.
  intros B. apply int_round_spec. intros He.
  assert (pow2 e <= 1 # 2)%Q as P1.
  { rewrite <- pow2_m1. apply pow2_le. lia. }
  assert (inject_Z (Zpos m) < inject_Z (2 ^ 53))%Q as P2
    by (rewrite <- Zlt_Qlt; exact B).
  pose proof (pow2_pos e).
  pose proof (inject_Z_pos (Zpos m) ltac:(lia)).
  assert (pow2 52 == 4503599627370496)%Q as -> by reflexivity.
  change (inject_Z (2 ^ 53)) with 9007199254740992%Q in P2. nra.
Qed.

(** The specification's formula has a value when the divisor is not zero and
    the product is finite. *)
Lemma derived_count_returns v U p P :
  F64.is_zero P = false ->
  is_finite (F64.mul U (F64.div p P)) = true ->
  exists c, spec_derived_count v U p P = Ret c.
Proof.
  intros Z F. unfold spec_derived_count. rewrite Z.
  destruct (F64.mul U (F64.div p P)) as [s|s| |s m e] eqn:E;
    try discriminate.
  - exists 0. reflexivity.
  - pose proof (mul_finite_mantissa _ _ _ _ _ E) as B.
    destruct (int_round_canonical v s m e B) as (n & R & _).
    exists (cond_Zopp s n). exact R.
Qed.

(** The integer the specification's formula yields is within one half of the
    product it rounds. *)
Lemma derived_count_nearest v U p P c :
  spec_derived_count v U p P = Ret c ->
  (Qabs (inject_Z c - value (F64.mul U (F64.div p P))) <= 1 # 2)%Q.
Proof.
  unfold spec_derived_count. destruct (F64.is_zero P); [discriminate|].
  destruct (F64.mul U (F64.div p P)) as [s|s| |s m e] eqn:E.
  - cbn. intros [= <-]. discriminate.
  - cbn. discriminate.
  - cbn. discriminate.
  - pose proof (mul_finite_mantissa _ _ _ _ _ E) as B.
    destruct (int_round_canonical v s m e B) as (n & R & Hn & V).
    change (r ← py_round v (PyFloat (S754_finite s m e)); py_int r)
      with (py_round v (PyFloat (S754_finite s m e)) ≫= py_int).
    rewrite R. intros [= <-].
    apply Qabs_Qle_condition in V. apply Qabs_Qle_condition. cbn [value].
    destruct s; cbn [cond_Zopp]; rewrite ?inject_Z_opp; split; lra.
Qed.
End StarSumFacts.

(** ** The STAR parser: extraction and derived values *)
Module StarClaims.
Import Re Star FloatSpec StarSpec StarFacts StarSumFacts Samples MoreSamples.

(** Evaluates the derived counts in a goal about a concrete log. *)
Ltac eval_counts :=
  repeat match goal with
         | |- context [spec_derived_count ?v ?u ?p ?t] =>
             let r := eval vm_compute in (spec_derived_count v u p t) in
             replace (spec_derived_count v u p t) with r
               by (vm_compute; reflexivity)
         end.

(** C1, as stated, fails: for a log whose number of input reads is beyond
    the range of binary64, the extracted FieldMap holds the seven inputs and
    the three percentages do not sum to zero, but [unmapped_count] and the
    first product are infinite, [int] raises [OverflowError] and no derived
    field is added. *)
Lemma overflow_adds_no_derived_field :
  let d := (extract_fields Py3 overflow_log ∅).2 in
  (extract_fields Py3 overflow_log ∅).1 = Ret tt /\
  Forall (fun k => is_Some (d !! k)) required /\
  F64.is_zero (total_unmapped_percent d) = false /\
  unmapped_count d = S754_infinity false /\
  parse_star_report Py3 overflow_log = Raise OverflowError.
Proof.
  cbv zeta. split; [vm_compute; reflexivity|].
  split; [refine (bool_decide_unpack _ _); vm_compute; exact I|].
  repeat split; vm_compute; reflexivity.
Qed.

(** C1, amended: for a FieldMap holding the seven inputs, whose three
    percentages do not sum to zero and for which each product
    [unmapped_count * (reason_percent / total_unmapped_percent)] is finite,
    [parse_star_report] returns the FieldMap with the three derived fields
    added, computed in binary64 as
    [total_mapped = uniquely_mapped + multimapped + multimapped_toomany],
    [unmapped_count = total_reads - total_mapped], [total_unmapped_percent]
    the sum of the three percentages, and each derived count the value of
    the specification's formula, an integer nearest to the product it
    rounds. *)
Theorem derived_fields_as_specified v raw (d : gmap string pyval)
    tr um mm mt p1 p2 p3 :
  extract_fields v raw ∅ = (Ret tt, d) ->
  d !! "total_reads" = Some (PyFloat tr) ->
  d !! "uniquely_mapped" = Some (PyFloat um) ->
  d !! "multimapped" = Some (PyFloat mm) ->
  d !! "multimapped_toomany" = Some (PyFloat mt) ->
  d !! "unmapped_mismatches_percent" = Some (PyFloat p1) ->
  d !! "unmapped_tooshort_percent" = Some (PyFloat p2) ->
  d !! "unmapped_other_percent" = Some (PyFloat p3) ->
  let total_mapped := F64.add (F64.add um mm) mt in
  let unmapped_count := F64.sub tr total_mapped in
  let total_unmapped_percent := F64.add (F64.add p1 p2) p3 in
  let product p :=
    F64.mul unmapped_count (F64.div p total_unmapped_percent) in
  F64.is_zero total_unmapped_percent = false ->
  Forall (fun p => is_finite (product p) = true) [p1; p2; p3] ->
  exists c1 c2 c3,
    parse_star_report v raw =
      Ret (Some (<["unmapped_other" := PyInt c3]>
                  (<["unmapped_tooshort" := PyInt c2]>
                    (<["unmapped_mismatches" := PyInt c1]> d)))) /\
    spec_derived_count v unmapped_count p1 total_unmapped_percent = Ret c1 /\
    spec_derived_count v unmapped_count p2 total_unmapped_percent = Ret c2 /\
    spec_derived_count v unmapped_count p3 total_unmapped_percent = Ret c3 /\
    Forall2 (fun c p => (Qabs (inject_Z c - value (product p)) <= 1 # 2)%Q)
      [c1; c2; c3] [p1; p2; p3].
Proof.
  intros Hrun Htr Hum Hmm Hmt Hp1 Hp2 Hp3 total_mapped U P product Z HF.
  apply Forall_cons in HF as [F1 HF]. apply Forall_cons in HF as [F2 HF].
  apply Forall_cons in HF as [F3 _].
  destruct (derived_count_returns v U p1 P Z F1) as [c1 R1].
  destruct (derived_count_returns v U p2 P Z F2) as [c2 R2].
  destruct (derived_count_returns v U p3 P Z F3) as [c3 R3].
  exists c1, c2, c3.
  split; [|split; [exact R1|split; [exact R2|split; [exact R3|]]]].
  - rewrite parse_star_report_unfold, Hrun,
      (try_derive_present v d _ _ _ _ _ _ _ Htr Hum Hmm Hmt Hp1 Hp2 Hp3),
      (derive_unmapped_run v d _ _ _ _ _ _ _ Htr Hum Hmm Hmt Hp1 Hp2 Hp3).
    cbv zeta. fold total_mapped. fold U. fold P. rewrite R1, R2, R3.
    destruct (decide _) as [Hsz|_]; [|reflexivity].
    apply map_size_empty_iff in Hsz. now apply insert_non_empty in Hsz.
  - subst product. cbv beta.
    constructor; [exact (derived_count_nearest v U p1 P c1 R1)|].
    constructor; [exact (derived_count_nearest v U p2 P c2 R2)|].
    constructor; [exact (derived_count_nearest v U p3 P c3 R3)|].
    constructor.
Qed.

Lemma derived_fields_as_specified_witness :
  let d := (extract_fields Py3 star_log ∅).2 in
  exists c1 c2 c3,
    parse_star_report Py3 star_log =
      Ret (Some (<["unmapped_other" := PyInt c3]>
                  (<["unmapped_tooshort" := PyInt c2]>
                    (<["unmapped_mismatches" := PyInt c1]> d)))) /\
    spec_derived_count Py3 (unmapped_count d)
      (field d "unmapped_mismatches_percent") (total_unmapped_percent d)
      = Ret c1 /\
    spec_derived_count Py3 (unmapped_count d)
      (field d "unmapped_tooshort_percent") (total_unmapped_percent d)
      = Ret c2 /\
    spec_derived_count Py3 (unmapped_count d)
      (field d "unmapped_other_percent") (total_unmapped_percent d)
      = Ret c3 /\
    Forall2
      (fun c p =>
         (Qabs (inject_Z c -
                value (F64.mul (unmapped_count d)
                         (F64.div p (total_unmapped_percent d))))
          <= 1 # 2)%Q)
      [c1; c2; c3]
      [field d "unmapped_mismatches_percent";
       field d "unmapped_tooshort_percent";
       field d "unmapped_other_percent"].
Proof.
  apply (derived_fields_as_specified Py3 star_log
           (extract_fields Py3 star_log ∅).2
           (field (extract_fields Py3 star_log ∅).2 "total_reads")
           (field (extract_fields Py3 star_log ∅).2 "uniquely_mapped")
           (field (extract_fields Py3 star_log ∅).2 "multimapped")
           (field (extract_fields Py3 star_log ∅).2 "multimapped_toomany")).
  - apply run_outcome. vm_compute. reflexivity.
  - vm_compute. reflexivity.
  - vm_compute. reflexivity.
  - vm_compute. reflexivity.
  - vm_compute. reflexivity.
  - vm_compute. reflexivity.
  - vm_compute. reflexivity.
  - vm_compute. reflexivity.
  - vm_compute. reflexivity.
  - refine (bool_decide_unpack _ _). vm_compute. exact I.
Defined.

(** C3: when one of the seven inputs is absent from the extracted FieldMap,
    the calculation is skipped as a whole: the result is the extracted
    FieldMap itself (Python's [None] when it is empty), none of the three
    derived names is in it, and nothing is raised. *)
Theorem missing_input_skips_derivation v raw (d : gmap string pyval) k :
  extract_fields v raw ∅ = (Ret tt, d) ->
  k ∈ required -> d !! k = None ->
  parse_star_report v raw =
    Ret (if decide (size d = 0%nat) then None else Some d) /\
  (forall k', k' ∈ derived -> d !! k' = None).
Proof.
  intros Hrun Hk Hnone.
  assert (forall k' x, d !! k' = Some x -> is_float x) as Hfl.
  { intros k' x Hx. eapply extract_floats; eauto. }
  split.
  - rewrite parse_star_report_unfold, Hrun,
      (try_derive_missing v d k Hfl Hk Hnone).
    now destruct (decide _).
  - intros k' Hk'. destruct (d !! k') as [x|] eqn:E; [|reflexivity].
    destruct (extract_floats _ _ _ _ Hrun E) as [Hin _].
    pose proof (regexes_not_derived v) as Hnd.
    rewrite Forall_forall in Hnd. now destruct (Hnd k' Hin).
Qed.

Lemma missing_input_skips_derivation_witness :
  parse_star_report Py3 truncated_log =
    Ret (if decide (size (extract_fields Py3 truncated_log ∅).2 = 0%nat)
         then None else Some (extract_fields Py3 truncated_log ∅).2) /\
  (forall k', k' ∈ derived -> (extract_fields Py3 truncated_log ∅).2 !! k' = None).
Proof.
  apply (missing_input_skips_derivation Py3 truncated_log
           (extract_fields Py3 truncated_log ∅).2 "unmapped_other_percent").
  - apply run_outcome. vm_compute. reflexivity.
  - mem.
  - vm_compute. reflexivity.
Defined.




(** C4: on a log whose three unmapped percentages are all zero the division
    by their sum raises [ZeroDivisionError], which the [except KeyError] does
    not catch: [parse_star_report] raises. *)
Theorem zero_percent_sum_raises v :
  parse_star_report v all_mapped_log = Raise ZeroDivisionError.
Proof. destruct v; vm_compute; reflexivity. Qed.
End StarClaims.

(** ** The sum of the derived counts: the bound *)
Module StarSumClaims.
Import Re Star StarSpec StarFacts Samples FloatSpec FloatFacts StarSumFacts.

(** C5, as stated, fails: for a log with 8734179639749270 reads, whose
    counts and percentages agree with each other, the FieldMap holds the
    seven inputs, the percentages sum to 98.42 and [unmapped_count] is
    8595781061715165, but the three derived counts sum to 3 more. *)
Lemma derived_counts_off_by_three :
  let m := returned (parse_star_report Py3 huge_log) in
  returns_map (parse_star_report Py3 huge_log) = true /\
  Forall (fun k => is_Some (m !! k)) required /\
  total_unmapped_percent m = S754_finite false 6925691801965690 (-46) /\
  unmapped_count m = S754_finite false 8595781061715165 0 /\
  count m "unmapped_mismatches" + count m "unmapped_tooshort"
    + count m "unmapped_other" = 8595781061715165 + 3.
Proof.
  cbv zeta. split; [vm_compute; reflexivity|].
  split; [refine (bool_decide_unpack _ _); vm_compute; exact I|].
  repeat split; vm_compute; reflexivity.
Qed.

(** C5, amended: when the extracted FieldMap holds the seven inputs, the
    three percentages sum to a finite value greater than 0 and
    [unmapped_count] is finite and at most [2^49] in absolute value,
    [parse_star_report] returns the FieldMap with three derived counts whose
    sum is within 2 of [unmapped_count]. *)
Theorem derived_counts_sum_within_two v raw (d : gmap string pyval) :
  extract_fields v raw ∅ = (Ret tt, d) ->
  Forall (fun k => is_Some (d !! k)) required ->
  is_finite (total_unmapped_percent d) = true ->
  (0 < value (total_unmapped_percent d))%Q ->
  is_finite (unmapped_count d) = true ->
  (Qabs (value (unmapped_count d)) <= 2 ^ 49)%Q ->
  exists c1 c2 c3,
    parse_star_report v raw =
      Ret (Some (<["unmapped_other" := PyInt c3]>
                  (<["unmapped_tooshort" := PyInt c2]>
                    (<["unmapped_mismatches" := PyInt c1]> d)))) /\
    (Qabs (inject_Z (c1 + c2 + c3) - value (unmapped_count d)) <= 2)%Q.
Proof.
  intros Hrun Hreq FP PP FU HU. rewrite Forall_forall in Hreq.
  destruct (field_present raw d "total_reads" Hrun) as [Htr _];
    [apply Hreq; mem|].
  destruct (field_present raw d "uniquely_mapped" Hrun) as [Hum _];
    [apply Hreq; mem|].
  destruct (field_present raw d "multimapped" Hrun) as [Hmm _];
    [apply Hreq; mem|].
  destruct (field_present raw d "multimapped_toomany" Hrun) as [Hmt _];
    [apply Hreq; mem|].
  destruct (field_present raw d "unmapped_mismatches_percent" Hrun)
    as [Hp1 N1]; [apply Hreq; mem|].
  destruct (field_present raw d "unmapped_tooshort_percent" Hrun)
    as [Hp2 N2]; [apply Hreq; mem|].
  destruct (field_present raw d "unmapped_other_percent" Hrun)
    as [Hp3 N3]; [apply Hreq; mem|].
  change (2 ^ 49)%Q with W49 in HU.
  destruct (counts_sum v (unmapped_count d) _ _ _ N1 N2 N3 FP PP FU HU)
    as (c1 & c2 & c3 & R1 & R2 & R3 & B).
  exists c1, c2, c3. split; [|exact B].
  rewrite parse_star_report_unfold, Hrun,
    (try_derive_present v d _ _ _ _ _ _ _ Htr Hum Hmm Hmt Hp1 Hp2 Hp3),
    (derive_unmapped_run v d _ _ _ _ _ _ _ Htr Hum Hmm Hmt Hp1 Hp2 Hp3).
  cbv zeta. unfold unmapped_count, total_unmapped_percent in R1, R2, R3.
  rewrite R1, R2, R3.
  destruct (decide _) as [Hsz|_]; [|reflexivity].
  apply map_size_empty_iff in Hsz. now apply insert_non_empty in Hsz.
Qed.

Lemma derived_counts_sum_within_two_witness :
  let d := (extract_fields Py3 star_log ∅).2 in
  exists c1 c2 c3,
    parse_star_report Py3 star_log =
      Ret (Some (<["unmapped_other" := PyInt c3]>
                  (<["unmapped_tooshort" := PyInt c2]>
                    (<["unmapped_mismatches" := PyInt c1]> d)))) /\
    (Qabs (inject_Z (c1 + c2 + c3) - value (unmapped_count d)) <= 2)%Q.
Proof.
  apply (derived_counts_sum_within_two Py3 star_log).
  - apply run_outcome. vm_compute. reflexivity.
  - refine (bool_decide_unpack _ _). vm_compute. exact I.
  - vm_compute. reflexivity.
  - vm_compute. reflexivity.
  - vm_compute. reflexivity.
  - vm_compute. discriminate.
Defined.
End StarSumClaims.

(** ** The sample aggregator of the STAR module *)
Module StarModuleClaims.
Import Re Star StarSpec Samples.

(** One turn of the loop on a file that parses. *)
Lemma load_report_run v f d st :
  parse_star_report v (f_content f) = Ret (Some d) ->
  load_report v f st =
  (Ret tt,
   set_star_data (<[s_name f := d]> (star_data st))
     (match star_data st !! s_name f with
      | Some _ => on_world (add_log (duplicate_record (s_name f))) st
      | None => st
      end)).
Proof.
  intros Hp. unfold load_report. rewrite run_bind, run_lift, Hp.
  cbv beta iota. rewrite run_bind. unfold get at 1. cbv beta iota.
  rewrite run_bind. now destruct (star_data st !! s_name f).
Qed.

(** One turn of the loop on a file without any field. *)
Lemma load_report_none v f st :
  parse_star_report v (f_content f) = Ret None ->
  load_report v f st = (Ret tt, st).
Proof.
  intros Hp. unfold load_report. now rewrite run_bind, run_lift, Hp.
Qed.

(** The loop over files that parse ends normally; it keeps the log records
    and the samples it found, and leaves alone the names it does not meet. *)
Lemma loop_parsed v l st :
  Forall (parses v) l ->
  exists st',
    for_each l (load_report v) st = (Ret tt, st') /\
    (forall r, r ∈ log (world st) -> r ∈ log (world st')) /\
    (forall s, is_Some (star_data st !! s) -> is_Some (star_data st' !! s)) /\
    (forall s, Forall (fun f => s_name f <> s) l ->
               star_data st' !! s = star_data st !! s).
Proof.
  intros Hall. revert st. induction Hall as [|f l [d Hd] _ IH]; intros st.
  - exists st. repeat split; auto.
  - rewrite run_for_each_cons, (load_report_run _ _ _ _ Hd).
    destruct (IH (set_star_data (<[s_name f := d]> (star_data st))
                    (match star_data st !! s_name f with
                     | Some _ =>
                         on_world (add_log (duplicate_record (s_name f))) st
                     | None => st
                     end))) as (st' & Hrun & Hlog & Hkeep & Hother).
    exists st'. split; [exact Hrun|]. split; [|split].
    + intros r Hr. apply Hlog.
      destruct (star_data st !! s_name f); simpl; [|exact Hr].
      apply elem_of_app. now left.
    + intros s Hs. apply Hkeep. simpl.
      destruct (decide (s_name f = s)) as [->|Hne].
      * rewrite lookup_insert_eq. eauto.
      * now rewrite lookup_insert_ne.
    + intros s Hs. apply Forall_cons in Hs as [Hne Hs].
      rewrite (Hother s Hs). simpl. now rewrite lookup_insert_ne.
Qed.

(** C6: in a sequence of files that all parse, in which a sample name occurs
    twice, the loop of [__init__] ends normally, the Dataset maps the name to
    the FieldMap of the last file of that name, and the record "Duplicate
    sample name found! Overwriting: name" went to the logger. *)
Theorem duplicate_sample_last_wins v (l1 l2 l3 : list log_file) f1 f2 d2 st :
  Forall (parses v) (l1 ++ f1 :: l2 ++ f2 :: l3) ->
  s_name f1 = s_name f2 ->
  Forall (fun f => s_name f <> s_name f2) l3 ->
  parse_star_report v (f_content f2) = Ret (Some d2) ->
  exists st',
    load_reports v (l1 ++ f1 :: l2 ++ f2 :: l3) st = (Ret tt, st') /\
    star_data st' !! s_name f2 = Some d2 /\
    duplicate_record (s_name f2) ∈ log (world st').
Proof.
  intros Hall Hname Hlast Hd2.
  apply Forall_app in Hall as [H1 Hall].
  apply Forall_cons in Hall as [[d1 Hd1] Hall].
  apply Forall_app in Hall as [H2 Hall].
  apply Forall_cons in Hall as [_ H3].
  unfold load_reports. rewrite run_bind. unfold modify at 1. cbv beta iota.
  set (st0 := set_star_data ∅ st).
  destruct (loop_parsed v l1 st0 H1) as (sa & Ra & _ & _ & _).
  rewrite run_for_each_app, Ra, run_for_each_cons,
    (load_report_run _ _ _ _ Hd1), run_for_each_app.
  set (sb := set_star_data _ _).
  destruct (loop_parsed v l2 sb H2) as (sc & Rc & _ & Kc & _).
  rewrite Rc, run_for_each_cons, (load_report_run _ _ _ _ Hd2).
  assert (is_Some (star_data sc !! s_name f2)) as [d' Hd'].
  { apply Kc. subst sb. simpl. rewrite <- Hname, lookup_insert_eq. eauto. }
  rewrite Hd'.
  set (sd := set_star_data _ _).
  destruct (loop_parsed v l3 sd H3) as (se & Re & Le & _ & Oe).
  exists se. split; [exact Re|]. split.
  - rewrite (Oe _ Hlast). subst sd. simpl. apply lookup_insert_eq.
  - apply Le. subst sd. simpl. apply elem_of_app. right.
    apply list_elem_of_here.
Qed.

Lemma duplicate_sample_last_wins_witness :
  exists st',
    load_reports Py3 [file "s1" star_log; file "s1" truncated_log] blank
      = (Ret tt, st') /\
    star_data st' !! "s1"
      = Some (returned (parse_star_report Py3 truncated_log)) /\
    duplicate_record "s1" ∈ log (world st').
Proof.
  apply (duplicate_sample_last_wins Py3 [] [] []
           (file "s1" star_log) (file "s1" truncated_log)).
  - repeat constructor; eexists;
      apply StarFacts.returns_map_returned; vm_compute; reflexivity.
  - reflexivity.
  - constructor.
  - apply StarFacts.returns_map_returned. vm_compute. reflexivity.
Defined.
End StarModuleClaims.


(** ** The matcher and the language of a pattern *)
Module ReFacts.
Import Re ReSpec.

Lemma rep_sound {R} p : forall rest lo hi before (k : list ascii -> list ascii -> option R) m,
  rep p lo hi before rest k = Some m ->
  exists cs rest',
    rest = cs ++ rest' /\ Forall (fun c => p c = true) cs /\
    (lo <= length cs)%nat /\ (forall h, hi = Some h -> (length cs <= h)%nat) /\
    k (rev cs ++ before) rest' = Some m.
Proof.
  induction rest as [|c rest IH]; intros lo hi before k m H.
  - simpl in H. destruct lo; [|discriminate].
    exists [], []. repeat split; auto. intros; simpl; lia.
  - assert (match lo with O => k before (c :: rest) | S _ => None end = Some m ->
            exists cs rest',
              c :: rest = cs ++ rest' /\ Forall (fun c => p c = true) cs /\
              (lo <= length cs)%nat /\
              (forall h, hi = Some h -> (length cs <= h)%nat) /\
              k (rev cs ++ before) rest' = Some m) as Stop.
    { destruct lo; [|discriminate]. intros Hk.
      exists [], (c :: rest). repeat split; auto. intros; simpl; lia. }
    simpl in H.
    destruct (p c && match hi with Some O => false | _ => true end) eqn:E;
      [|exact (Stop H)].
    apply andb_true_iff in E as [Pc Hhi].
    destruct (rep p (Nat.pred lo) (Nat.pred <$> hi) (c :: before) rest k)
      as [m'|] eqn:Hrec; [|exact (Stop H)].
    inversion H; subst m'. clear H Stop.
    destruct (IH _ _ _ _ _ Hrec) as (cs & rest' & -> & Hall & Hlo & Hh & Hk).
    exists (c :: cs), rest'. split; [reflexivity|].
    split; [now constructor|]. split; [simpl; lia|]. split.
    + intros h ->. destruct h as [|h]; [discriminate|].
      specialize (Hh h eq_refl). simpl. lia.
    + simpl. now rewrite <- app_assoc.
Qed.

Lemma rep_complete {R} p : forall cs lo hi before rest' (k : list ascii -> list ascii -> option R),
  Forall (fun c => p c = true) cs -> (lo <= length cs)%nat ->
  (forall h, hi = Some h -> (length cs <= h)%nat) ->
  is_Some (k (rev cs ++ before) rest') ->
  is_Some (rep p lo hi before (cs ++ rest') k).
Proof.
  induction cs as [|c cs IH]; intros lo hi before rest' k Hall Hlo Hhi Hk.
  - simpl in *. assert (lo = 0%nat) as -> by lia.
    destruct rest' as [|c r]; [exact Hk|]. simpl.
    destruct (p c && _); [|exact Hk].
    now destruct (rep p _ _ _ r k).
  - apply Forall_cons in Hall as [Pc Hall]. simpl.
    rewrite Pc. simpl.
    assert (match hi with Some O => false | _ => true end = true) as ->.
    { destruct hi as [[|h]|]; auto. specialize (Hhi 0%nat eq_refl). simpl in Hhi. lia. }
    assert (is_Some (rep p (Nat.pred lo) (Nat.pred <$> hi) (c :: before)
                       (cs ++ rest') k)) as [m Hm].
    { apply IH; auto.
      - simpl in Hlo. lia.
      - intros h Hh. destruct hi as [h0|]; [|discriminate].
        simpl in Hh. inversion Hh; subst h. specialize (Hhi h0 eq_refl).
        simpl in Hhi. lia.
      - simpl in Hk. now rewrite <- app_assoc in Hk. }
    rewrite Hm. eauto.
Qed.

Lemma rep_total {R} p hi before rest (k : list ascii -> list ascii -> option R) :
  (forall b r, is_Some (k b r)) -> is_Some (rep p 0 hi before rest k).
Proof.
  intros Hk. apply (rep_complete p [] 0 hi before rest k); auto.
  intros h _. simpl. lia.
Qed.

(** A greedy repetition that ends the pattern takes the whole run. *)
Lemma rep_greedy {R} p (f : list ascii -> list ascii -> R) :
  forall rest lo before m,
    rep p lo None before rest (fun b r => Some (f b r)) = Some m ->
    exists cs rest',
      rest = cs ++ rest' /\ Forall (fun c => p c = true) cs /\
      (lo <= length cs)%nat /\ m = f (rev cs ++ before) rest' /\
      whole_run p rest'.
Proof.
  induction rest as [|c rest IH]; intros lo before m H.
  - simpl in H. destruct lo; [|discriminate]. inversion H.
    exists [], []. repeat split; auto. intros c r. discriminate.
  - simpl in H. destruct (p c) eqn:Pc; simpl in H.
    + destruct (rep p (Nat.pred lo) None (c :: before) rest
                  (fun b r => Some (f b r))) as [m'|] eqn:Hrec.
      * inversion H; subst m'.
        destruct (IH _ _ _ Hrec) as (cs & rest' & -> & Hall & Hlo & -> & Hw).
        exists (c :: cs), rest'. split; [reflexivity|].
        split; [now constructor|]. split; [simpl; lia|].
        split; [|exact Hw]. simpl. now rewrite <- app_assoc.
      * destruct lo; [|discriminate]. simpl in Hrec.
        destruct (rep_total p None (c :: before) rest
                    (fun b r => Some (f b r))) as [x Hx]; [eauto|].
        congruence.
    + destruct lo; [|discriminate]. inversion H.
      exists [], (c :: rest). repeat split; auto.
      intros c' r [= <- _]. exact Pc.
Qed.

Lemma captured_group (cs before : list ascii) :
  rev (take (length (rev cs ++ before) - length before) (rev cs ++ before)) = cs.
Proof.
  rewrite length_app, length_rev.
  replace (length cs + length before - length before)%nat with (length (rev cs))
    by (rewrite length_rev; lia).
  rewrite take_app_length. apply rev_involutive.
Qed.

(** The matcher is sound and complete for [Matches]: it finds a match when
    there is one, and what it finds is one. *)
Lemma rmatch_sound {R} ml r : forall before rest g
    (k : list ascii -> list ascii -> list (list ascii) -> option R) m,
  rmatch ml r before rest g k = Some m ->
  exists cs rest' gs,
    rest = cs ++ rest' /\ Matches ml r before cs gs /\
    k (rev cs ++ before) rest' (g ++ gs) = Some m.
Proof.
  induction r as [|p|p lo hi| |r1 IH1 r2 IH2|r1 IH1]; intros before rest g k m H;
    simpl in H.
  - exists [], rest, []. rewrite app_nil_r. simpl. auto.
  - destruct rest as [|c rest]; [discriminate|].
    destruct (p c) eqn:Pc; [|discriminate].
    exists [c], rest, []. rewrite app_nil_r. simpl. eauto 10.
  - apply rep_sound in H as (cs & rest' & -> & Hall & Hlo & Hh & Hk).
    exists cs, rest', []. rewrite app_nil_r. simpl. auto 10.
  - destruct (at_bol ml before) eqn:E; [|discriminate].
    exists [], rest, []. rewrite app_nil_r. simpl. auto 10.
  - apply IH1 in H as (c1 & rest1 & g1 & -> & M1 & H).
    apply IH2 in H as (c2 & rest2 & g2 & -> & M2 & H).
    exists (c1 ++ c2), rest2, (g1 ++ g2). split; [now rewrite app_assoc|].
    split; [now exists c1, c2, g1, g2|].
    rewrite rev_app_distr, <- (app_assoc (rev c2)), (app_assoc g). exact H.
  - apply IH1 in H as (cs & rest' & g1 & -> & M1 & H).
    rewrite captured_group in H.
    exists cs, rest', (g1 ++ [cs]). split; [reflexivity|].
    split; [now exists g1|]. now rewrite app_assoc.
Qed.

Lemma rmatch_complete {R} ml r : forall before cs rest' gs g
    (k : list ascii -> list ascii -> list (list ascii) -> option R),
  Matches ml r before cs gs ->
  is_Some (k (rev cs ++ before) rest' (g ++ gs)) ->
  is_Some (rmatch ml r before (cs ++ rest') g k).
Proof.
  induction r as [|p|p lo hi| |r1 IH1 r2 IH2|r1 IH1];
    intros before cs rest' gs g k HM Hk; simpl in HM |- *.
  - destruct HM as [-> ->]. now rewrite app_nil_r in Hk.
  - destruct HM as [(c & -> & Pc) ->]. simpl. rewrite Pc.
    now rewrite app_nil_r in Hk.
  - destruct HM as (Hall & Hlo & Hh & ->). rewrite app_nil_r in Hk.
    now apply rep_complete.
  - destruct HM as (-> & -> & ->). rewrite app_nil_r in Hk. now simpl.
  - destruct HM as (c1 & c2 & g1 & g2 & -> & -> & M1 & M2).
    rewrite <- app_assoc. apply (IH1 _ _ _ g1); [exact M1|].
    apply (IH2 _ _ _ g2); [exact M2|].
    rewrite rev_app_distr, <- (app_assoc (rev c2)), (app_assoc g) in Hk.
    exact Hk.
  - destruct HM as (g1 & M1 & ->).
    apply (IH1 _ _ _ g1); [exact M1|].
    rewrite captured_group. now rewrite app_assoc in Hk.
Qed.

Lemma search_from_sound ml r : forall rest before g,
  search_from ml r before rest = Some g ->
  exists pre cs post,
    rest = pre ++ cs ++ post /\ Matches ml r (rev pre ++ before) cs g.
Proof.
  induction rest as [|c rest IH]; intros before g H; simpl in H.
  - destruct (match_here ml r before []) as [g'|] eqn:E; [|discriminate].
    inversion H; subst g'. unfold match_here in E.
    apply rmatch_sound in E as (cs & rest' & gs & E1 & M & E2).
    inversion E2; subst. exists [], cs, rest'. now split.
  - destruct (match_here ml r before (c :: rest)) as [g'|] eqn:E.
    + inversion H; subst g'. unfold match_here in E.
      apply rmatch_sound in E as (cs & rest' & gs & E1 & M & E2).
      inversion E2; subst. exists [], cs, rest'. now split.
    + apply IH in H as (pre & cs & post & -> & M).
      exists (c :: pre), cs, post. split; [reflexivity|].
      simpl. now rewrite <- app_assoc.
Qed.

Lemma search_from_complete ml r : forall pre before cs post gs,
  Matches ml r (rev pre ++ before) cs gs ->
  is_Some (search_from ml r before (pre ++ cs ++ post)).
Proof.
  assert (forall before rest, is_Some (match_here ml r before rest) ->
            is_Some (search_from ml r before rest)) as Here.
  { intros before rest [g Hg]. destruct rest; simpl; rewrite Hg; eauto. }
  induction pre as [|c pre IH]; intros before cs post gs M.
  - apply Here. unfold match_here. simpl.
    apply (rmatch_complete _ _ _ _ _ gs); [exact M|eauto].
  - simpl. destruct (match_here ml r before (c :: pre ++ cs ++ post)); [eauto|].
    apply (IH _ _ _ gs). simpl in M. now rewrite <- app_assoc in M.
Qed.

Lemma search_contains ml r s :
  is_Some (search ml r s) <-> contains ml r s.
Proof.
  unfold search, contains. split.
  - intros [g Hg]. apply search_from_sound in Hg as (pre & cs & post & -> & M).
    rewrite app_nil_r in M. now exists pre, cs, post, g.
  - intros (pre & cs & post & gs & -> & M).
    apply (search_from_complete _ _ _ _ _ _ gs). now rewrite app_nil_r.
Qed.

(** [re.search] returns the match at the first position that has one. *)
Lemma search_from_first ml r : forall rest before g,
  search_from ml r before rest = Some g ->
  exists pre rest',
    rest = pre ++ rest' /\
    match_here ml r (rev pre ++ before) rest' = Some g /\
    (forall pre1 pre2, pre = pre1 ++ pre2 -> pre2 <> [] ->
       match_here ml r (rev pre1 ++ before) (pre2 ++ rest') = None).
Proof.
  induction rest as [|c rest IH]; intros before g H; simpl in H.
  - destruct (match_here ml r before []) as [g'|] eqn:E; [|discriminate].
    inversion H; subst g'. exists [], []. split; [reflexivity|].
    split; [exact E|]. intros pre1 pre2 E' N.
    destruct pre1, pre2; simpl in E'; congruence.
  - destruct (match_here ml r before (c :: rest)) as [g'|] eqn:E.
    + inversion H; subst g'. exists [], (c :: rest). split; [reflexivity|].
      split; [exact E|]. intros pre1 pre2 E' N.
      destruct pre1, pre2; simpl in E'; congruence.
    + apply IH in H as (pre & rest' & -> & Hm & Hfirst).
      exists (c :: pre), rest'. split; [reflexivity|]. split.
      * simpl. now rewrite <- app_assoc.
      * intros pre1 pre2 E' N. destruct pre1 as [|c1 pre1]; simpl in E'.
        -- subst pre2. exact E.
        -- inversion E'; subst c1 pre. simpl. rewrite <- app_assoc.
           now apply Hfirst.
Qed.

(** Patterns of the same shape, whose classes agree on the characters of the
    text, match alike. *)
Lemma same_on_refl A r : same_on A r r.
Proof. induction r; simpl; auto. Qed.

Lemma rep_same {R} (A : ascii -> Prop) p q :
  (forall c, A c -> p c = q c) ->
  forall rest lo hi before (k1 k2 : list ascii -> list ascii -> option R),
    Forall A rest ->
    (forall b r, r `suffix_of` rest -> k1 b r = k2 b r) ->
    rep p lo hi before rest k1 = rep q lo hi before rest k2.
Proof.
  intros Hpq. induction rest as [|c rest IH]; intros lo hi before k1 k2 HA Hk.
  - simpl. destruct lo; [|reflexivity]. now apply Hk.
  - apply Forall_cons in HA as [Ac HA]. simpl. rewrite (Hpq c Ac).
    assert (match lo with O => k1 before (c :: rest) | S _ => None end =
            match lo with O => k2 before (c :: rest) | S _ => None end) as Stop.
    { destruct lo; [|reflexivity]. now apply Hk. }
    rewrite (IH (Nat.pred lo) (Nat.pred <$> hi) (c :: before) k1 k2 HA).
    + now rewrite Stop.
    + intros b r Hr. apply Hk. now apply suffix_cons_r.
Qed.

Lemma rmatch_same {R} (A : ascii -> Prop) ml : forall r1 r2,
  same_on A r1 r2 ->
  forall rest before g
    (k1 k2 : list ascii -> list ascii -> list (list ascii) -> option R),
    Forall A rest ->
    (forall b r g', r `suffix_of` rest -> k1 b r g' = k2 b r g') ->
    rmatch ml r1 before rest g k1 = rmatch ml r2 before rest g k2.
Proof.
  induction r1 as [|p|p lo hi| |a IHa b IHb|a IHa];
    intros [|q|q lo' hi'| |a' b'|a'] Hs; try contradiction;
    intros rest before g k1 k2 HA Hk; simpl in Hs |- *.
  - now apply Hk.
  - destruct rest as [|c rest]; [reflexivity|].
    apply Forall_cons in HA as [Ac HA]. rewrite (Hs c Ac).
    destruct (q c); [|reflexivity]. apply Hk. now apply suffix_cons_r.
  - destruct Hs as (<- & <- & Hpq). apply (rep_same A); auto.
  - destruct (at_bol ml before); [|reflexivity]. now apply Hk.
  - destruct Hs as [Ha Hb]. apply IHa; [exact Ha|exact HA|].
    intros b0 r g' Hr. apply IHb; [exact Hb| |].
    + destruct Hr as [pre ->]. now apply Forall_app in HA as [_ HA].
    + intros b1 r1 g1 Hr1. apply Hk. now transitivity r.
  - apply IHa; [exact Hs|exact HA|]. intros b0 r g' Hr. now apply Hk.
Qed.

Lemma search_from_same (A : ascii -> Prop) ml r1 r2 :
  same_on A r1 r2 ->
  forall rest before, Forall A rest ->
    search_from ml r1 before rest = search_from ml r2 before rest.
Proof.
  intros Hs. induction rest as [|c rest IH]; intros before HA; simpl;
    unfold match_here;
    rewrite (rmatch_same A ml r1 r2 Hs _ before [] _ (fun _ _ g => Some g) HA)
      by reflexivity.
  - reflexivity.
  - apply Forall_cons in HA as [_ HA]. now rewrite IH.
Qed.

Lemma Matches_lit ml (l : list ascii) before cs gs :
  Matches ml (foldr (fun c r => Seq (chr c) r) Eps l) before cs gs <->
  cs = l /\ gs = [].
Proof.
  revert before cs gs. induction l as [|c l IH]; intros before cs gs; simpl.
  - tauto.
  - split.
    + intros (c1 & c2 & g1 & g2 & -> & -> & [(c' & -> & E) ->] & M).
      apply IH in M as [-> ->]. apply Ascii.eqb_eq in E. now subst c'.
    + intros [-> ->]. exists [c], l, [], []. repeat split.
      * exists c. split; [reflexivity|]. apply Ascii.eqb_refl.
      * now apply IH.
Qed.

Lemma Matches_run ml cls hi before cs gs :
  Matches ml (Rep cls 1 hi) before cs gs <-> run_of cls hi cs /\ gs = [].
Proof.
  simpl. unfold run_of. split.
  - intros (H1 & H2 & H3 & ->). split; [|reflexivity].
    split; [|now split]. intros ->. simpl in H2. lia.
  - intros [(H1 & H2 & H3) ->]. repeat split; auto.
    destruct cs; [congruence|simpl; lia].
Qed.

Lemma Matches_chr ml c before cs gs :
  Matches ml (chr c) before cs gs <-> cs = [c] /\ gs = [].
Proof.
  simpl. split.
  - intros [(c' & -> & E) ->]. apply Ascii.eqb_eq in E. now subst.
  - intros [-> ->]. split; [|reflexivity]. exists c.
    split; [reflexivity|apply Ascii.eqb_refl].
Qed.

Lemma Matches_seq ml r1 r2 before c1 c2 g1 g2 :
  Matches ml r1 before c1 g1 -> Matches ml r2 (rev c1 ++ before) c2 g2 ->
  Matches ml (Seq r1 r2) before (c1 ++ c2) (g1 ++ g2).
Proof. intros M1 M2. now exists c1, c2, g1, g2. Qed.

Lemma Matches_grp_run ml cls hi before cs :
  run_of cls hi cs -> Matches ml (Grp (Rep cls 1 hi)) before cs [cs].
Proof. intros H. exists []. split; [now apply Matches_run|reflexivity]. Qed.

Lemma Matches_grp_run_inv ml cls hi before cs gs :
  Matches ml (Grp (Rep cls 1 hi)) before cs gs -> run_of cls hi cs /\ gs = [cs].
Proof.
  intros (g1 & M & ->). apply Matches_run in M as [R ->]. now split.
Qed.
End ReFacts.

(** ** The patterns of the STAR table *)
Module FieldFacts.
Import Re Star StarSpec StarFacts ReSpec ReFacts FieldSpec.

Lemma Matches_field {v} ml label cls before cs gs :
  Matches ml (field_re v label cls) before cs gs <->
  exists ws ds,
    cs = list_ascii_of_string label ++ list_ascii_of_string " |" ++ ws ++ ds /\
    ws <> [] /\ Forall (fun c => is_space v c = true) ws /\
    ds <> [] /\ Forall (fun c => cls c = true) ds /\ gs = [ds].
Proof.
  unfold field_re, lit, plus. cbn [Matches]. split.
  - intros (c1 & c2 & g1 & g2 & -> & -> & M1 & c3 & c4 & g3 & g4 & -> & -> & M3 &
            ws & c6 & g5 & g6 & -> & -> & (Hws & Lws & _ & ->) & g7 &
            (Hds & Lds & _ & ->) & ->).
    apply Matches_lit in M1 as [-> ->]. apply Matches_lit in M3 as [-> ->].
    exists ws, c6. repeat split; auto.
    + intros ->. simpl in Lws. lia.
    + intros ->. simpl in Lds. lia.
  - intros (ws & ds & -> & Nws & Hws & Nds & Hds & ->).
    exists (list_ascii_of_string label), (list_ascii_of_string " |" ++ ws ++ ds),
      [], [ds].
    split; [reflexivity|]. split; [reflexivity|].
    split; [now apply Matches_lit|].
    exists (list_ascii_of_string " |"), (ws ++ ds), [], [ds].
    split; [reflexivity|]. split; [reflexivity|].
    split; [now apply Matches_lit|].
    exists ws, ds, [], [ds]. split; [reflexivity|]. split; [reflexivity|].
    split.
    + split; [exact Hws|]. split; [destruct ws; [congruence|simpl; lia]|].
      split; [discriminate|reflexivity].
    + exists []. split; [|reflexivity]. split; [exact Hds|].
      split; [destruct ds; [congruence|simpl; lia]|].
      split; [discriminate|reflexivity].
Qed.

Lemma contains_field {v} label cls raw :
  contains true (field_re v label cls) raw <-> has_line v raw label cls.
Proof.
  unfold contains, has_line, line_at. split.
  - intros (pre & cs & post & gs & -> & M).
    apply Matches_field in M as (ws & ds & -> & H).
    exists pre, ((list_ascii_of_string label ++ list_ascii_of_string " |"
                  ++ ws ++ ds) ++ post), ws, ds, post.
    rewrite <- !app_assoc. tauto.
  - intros (pre & rest & ws & ds & post & -> & -> & H).
    exists pre, (list_ascii_of_string label ++ list_ascii_of_string " |" ++ ws ++ ds),
      post, [ds].
    split; [now rewrite <- !app_assoc|].
    apply Matches_field. exists ws, ds. tauto.
Qed.

(** What the first match of a pattern of the table captures. *)
Lemma first_match_field {v} label cls raw g :
  first_match raw (field_re v label cls) = Some g ->
  g <> [] /\ Forall (fun c => cls c = true) g.
Proof.
  unfold first_match, search. destruct (search_from _ _ _ _) as [gs|] eqn:E;
    [|discriminate].
  intros [= <-]. apply search_from_sound in E as (pre & cs & post & _ & M).
  apply Matches_field in M as (ws & ds & _ & _ & _ & N & H & ->). now simpl.
Qed.

Lemma first_match_is_Some raw r :
  is_Some (first_match raw r) <-> contains true r raw.
Proof.
  unfold first_match. rewrite <- search_contains.
  destruct (search true r raw); simpl; split; intros [x H]; eauto; discriminate.
Qed.

(** Every pattern of the table has the shape [field_re], on digits or on
    digits and points. *)
Lemma regexes_shape {v} k r :
  (k, r) ∈ regexes v ->
  exists label, r = field_re v label is_digit \/ r = field_re v label is_digit_or_dot.
Proof.
  unfold regexes. intros H.
  repeat (apply elem_of_cons in H as [H|H];
          [inversion H; eexists; first [left; reflexivity | right; reflexivity]|]).
  now apply elem_of_nil in H.
Qed.

(** On a text where [\s] means the same in the two versions, the patterns
    of the table find the same matches and the loop extracts the same
    FieldMap. *)
Lemma field_re_same label cls :
  same_on (fun c => is_space Py2 c = is_space Py3 c)
    (field_re Py2 label cls) (field_re Py3 label cls).
Proof.
  unfold field_re. cbn [same_on].
  split; [apply same_on_refl|]. split; [apply same_on_refl|].
  split; [|unfold plus; cbn [same_on]; auto].
  unfold plus. cbn [same_on]. auto.
Qed.

Lemma regexes_same :
  Forall2 (fun a b => a.1 = b.1 /\
             same_on (fun c => is_space Py2 c = is_space Py3 c) a.2 b.2)
    (regexes Py2) (regexes Py3).
Proof.
  unfold regexes.
  repeat (constructor; [split; [reflexivity|apply field_re_same]|]).
  constructor.
Qed.

Lemma extract_fields_same raw d :
  same_spaces raw -> extract_fields Py2 raw d = extract_fields Py3 raw d.
Proof.
  intros HA. unfold extract_fields. revert d.
  induction regexes_same as [|[k1 r1] [k2 r2] l1 l2 [Hk Hr] _ IH]; intros d;
    [reflexivity|].
  simpl in Hk, Hr. subst k2.
  rewrite !run_for_each_cons, !extract_field_run. cbn [fst snd].
  unfold first_match, search.
  rewrite (search_from_same _ true r1 r2 Hr raw [] HA).
  destruct (search_from true r2 [] raw) as [g|]; simpl; [|apply IH].
  destruct (py_float (group 1 g)); [apply IH|reflexivity].
Qed.

(** The match of a pattern of the table that starts here. *)
Lemma match_here_field {v} label cls before rest g :
  match_here true (field_re v label cls) before rest = Some g ->
  exists ws ds post,
    line_at v rest label cls ws ds post /\ whole_run cls post /\ g = [ds].
Proof.
  unfold match_here, field_re. cbn [rmatch]. intros H.
  apply rmatch_sound in H as (c1 & r1 & g1 & -> & M1 & H).
  unfold lit in M1. apply Matches_lit in M1 as [-> ->].
  cbn [rmatch] in H.
  apply rmatch_sound in H as (c2 & r2 & g2 & -> & M2 & H).
  unfold lit in M2. apply Matches_lit in M2 as [-> ->].
  cbn [rmatch] in H. unfold plus in H. cbn [rmatch] in H.
  apply rep_sound in H as (ws & r3 & -> & Hws & Lws & _ & H).
  apply rep_greedy in H as (ds & post & -> & Hds & Lds & -> & Hw).
  rewrite captured_group.
  exists ws, ds, post. split; [|split; [exact Hw|reflexivity]].
  split; [reflexivity|].
  split; [intros ->; simpl in Lws; lia|]. split; [exact Hws|].
  split; [intros ->; simpl in Lds; lia|exact Hds].
Qed.

Lemma match_here_None {v} label cls before rest ws ds post :
  match_here true (field_re v label cls) before rest = None ->
  ~ line_at v rest label cls ws ds post.
Proof.
  intros H (-> & Nws & Hws & Nds & Hds).
  assert (is_Some (match_here true (field_re v label cls) before
                     ((list_ascii_of_string label ++ list_ascii_of_string " |"
                       ++ ws ++ ds) ++ post))) as [g Hg].
  { unfold match_here.
    apply (rmatch_complete _ _ _ _ _ [ds]); [|eauto].
    apply Matches_field. exists ws, ds. tauto. }
  rewrite <- !app_assoc in Hg. congruence.
Qed.
End FieldFacts.

(** ** Numbers that binary64 holds exactly *)
Module NumberFacts.
Import Re Star StarSpec StarFacts FloatSpec FloatFacts StarSumFacts.
Import FieldSpec DeriveSpec.

Lemma digit_val_digit c :
  is_digit c = true -> exists d, digit_val c = Some d /\ 0 <= d <= 9.
Proof.
  unfold is_digit, digit_val. intros H. apply andb_true_iff in H as [H1 H2].
  apply Nat.leb_le in H1, H2.
  assert ((48 <=? Z.of_nat (nat_of_ascii c)) && (Z.of_nat (nat_of_ascii c) <=? 57)
          = true) as ->.
  { apply andb_true_iff. split; apply Z.leb_le; lia. }
  eexists. split; [reflexivity|]. lia.
Qed.

Lemma decimal_fold_nonneg ds : forall acc,
  Forall (fun c => is_digit c = true) ds -> 0 <= acc ->
  0 <= fold_left (fun acc c => 10 * acc + default 0 (digit_val c)) ds acc.
Proof.
  induction ds as [|c ds IH]; intros acc H Hacc; [exact Hacc|].
  apply Forall_cons in H as [Hc H]. simpl. apply IH; [exact H|].
  destruct (digit_val_digit c Hc) as (d & -> & Hd). simpl. lia.
Qed.

Lemma read_decimal_digits ds : forall acc n,
  Forall (fun c => is_digit c = true) ds ->
  read_decimal ds acc n None =
  Some (fold_left (fun acc c => 10 * acc + default 0 (digit_val c)) ds acc,
        (n + length ds)%nat, 0%nat).
Proof.
  induction ds as [|c ds IH]; intros acc n H.
  - simpl. now rewrite Nat.add_0_r.
  - apply Forall_cons in H as [Hc H]. simpl.
    destruct (digit_val_digit c Hc) as (d & -> & Hd). simpl.
    rewrite (IH _ _ H). do 3 f_equal. lia.
Qed.

(** [float] of a non-empty string of digits. *)
Lemma py_float_digits ds :
  ds <> [] -> Forall (fun c => is_digit c = true) ds ->
  py_float ds =
  match decimal_value ds with
  | Zpos p => Ret (F64.of_ratio false p 1)
  | _ => Ret (S754_zero false)
  end.
Proof.
  intros N H. unfold py_float. rewrite (read_decimal_digits _ _ _ H).
  destruct ds as [|c ds]; [congruence|]. simpl length. 
  fold (decimal_value (c :: ds)).
  now destruct (decimal_value (c :: ds)).
Qed.

(** Two numbers of the grid of step [2^ef] that are within half a step of
    each other are equal. *)
Lemma grid_exact m e p ef :
  ef <= e -> ef <= 0 ->
  (Qabs (inject_Z m * pow2 e - inject_Z p) <= pow2 (ef - 1))%Q ->
  (inject_Z m * pow2 e == inject_Z p)%Q.
Proof.
  intros He Hef H.
  set (N := m * 2 ^ (e - ef) - p * 2 ^ (- ef)).
  pose proof (pow2_pos ef) as Pef.
  assert (inject_Z m * pow2 e - inject_Z p == inject_Z N * pow2 ef)%Q as E.
  { subst N. unfold Z.sub at 1. rewrite inject_Z_plus, inject_Z_opp, !inject_Z_mult.
    rewrite <- !pow2_Z by lia.
    replace e with ((e - ef) + ef) at 1 by lia. rewrite pow2_add.
    pose proof (pow2_opp ef) as O.
    setoid_replace (inject_Z p) with (inject_Z p * (pow2 ef * pow2 (- ef)))%Q
      using relation Qeq at 1 by (rewrite O; ring).
    ring. }
  rewrite E in H. rewrite pow2_pred in H.
  apply Qabs_Qle_condition in H as [H1 H2].
  assert (-1 < N < 1) as HN.
  { split; rewrite Zlt_Qlt.
    - change (inject_Z (-1)) with (-1)%Q. nra.
    - change (inject_Z 1) with 1%Q. nra. }
  assert (N = 0) as N0 by lia.
  rewrite N0 in E. 
  assert (inject_Z m * pow2 e - inject_Z p == 0)%Q as E0 by (rewrite E; ring).
  lra.
Qed.

(** An integer below [2^53] is a binary64 number: its conversion is exact. *)
Lemma of_ratio_exact p :
  Zpos p < 2 ^ 53 ->
  exists m e,
    F64.of_ratio false p 1 = S754_finite false m e /\
    (inject_Z (Zpos m) * pow2 e == inject_Z (Zpos p))%Q.
Proof.
  intros Hp. unfold F64.of_ratio, F64.prec, F64.emax.
  destruct (SFdiv_core_binary 53 1024 (Zpos p) 0 1 0) as [[q e'] l] eqn:D.
  assert (0 < Zpos p) as Pp by lia. assert (0 < 1) as P01 by lia.
  destruct (div_core_spec _ _ _ _ _ _ _ Pp P01 D) as (Hq & L & C1 & C2).
  set (x := (inject_Z (Zpos p) * pow2 0 / (inject_Z 1 * pow2 0))%Q) in *.
  assert (x == inject_Z (Zpos p))%Q as Ex.
  { subst x. rewrite pow2_0. change (inject_Z 1) with 1%Q. field. }
  assert (1 <= inject_Z (Zpos p))%Q as P1.
  { change 1%Q with (inject_Z 1). rewrite <- Zle_Qle. lia. }
  assert (inject_Z (Zpos p) < pow2 53)%Q as P53.
  { rewrite pow2_Z by lia. rewrite <- Zlt_Qlt. exact Hp. }
  (* the exponent of the quotient is not positive *)
  assert (Zdigits2 (Zpos p) <= 53) as Dp.
  { pose proof (digits_below (Zpos p) 0 (inject_Z (Zpos p)) 53 ltac:(lia)).
    rewrite pow2_0 in H. specialize (H ltac:(lra) P53). lia. }
  change (Zdigits2 1) with 1 in C2.
  assert (e' <= 0) as He'.
  { unfold fexp64 in C2. clear - C2 Dp. revert C2 Dp.
    generalize (Zdigits2 (Zpos p)). intros d. lia. }
  assert (0 < q) as Pq.
  { destruct (Z.eq_dec q 0) as [->|]; [|lia]. exfalso.
    assert (1 <= x * pow2 (- e'))%Q as T.
    { assert (pow2 0 <= pow2 (- e'))%Q as P by (apply pow2_le; lia).
      rewrite pow2_0 in P. rewrite Ex. nra. }
    set (t := (x * pow2 (- e'))%Q) in *.
    destruct l as [|[]]; cbn [located] in L;
      change (inject_Z 0) with 0%Q in L; lra. }
  pose proof (scaled_lower _ _ _ _ L) as Lo.
  assert (Zdigits2 q + e' <= 53) as Dq.
  { apply (digits_below q e' x 53 Pq Lo). now rewrite Ex. }
  destruct (binary_round_aux_spec false q e' l x Hq L)
    as (m & e & -> & Hm & He & V & _ & _).
  set (ef := Z.max e' (fexp64 (Zdigits2 q + e'))) in *.
  assert (ef <= 0) as Hef by (subst ef; unfold fexp64 in *; lia).
  rewrite Ex in V.
  pose proof (grid_exact m e (Zpos p) ef ltac:(lia) Hef V) as G.
  assert (0 < m) as Pm.
  { destruct (Z.eq_dec m 0) as [->|]; [|lia]. exfalso.
    change (inject_Z 0) with 0%Q in G. lra. }
  destruct m as [|pm|pm]; try lia.
  exists pm, e. split; [|exact G].
  simpl. destruct (Z.leb_spec e 971); [reflexivity|lia].
Qed.

(** [float] of a string of digits that denotes an integer below [2^53] is
    that integer. *)
Lemma py_float_exact ds :
  ds <> [] -> Forall (fun c => is_digit c = true) ds ->
  decimal_value ds < 2 ^ 53 ->
  exists x, py_float ds = Ret x /\ is_finite x = true /\
            (value x == inject_Z (decimal_value ds))%Q.
Proof.
  intros N H B. rewrite (py_float_digits _ N H).
  pose proof (decimal_fold_nonneg ds 0 H ltac:(lia)) as P.
  fold (decimal_value ds) in P.
  destruct (decimal_value ds) as [|p|p] eqn:E; try lia.
  - exists (S754_zero false). now repeat split.
  - destruct (of_ratio_exact p B) as (m & e & -> & V).
    eexists. split; [reflexivity|]. split; [reflexivity|].
    simpl. rewrite V. ring.
Qed.

Lemma inject_Z_eq a b : (inject_Z a == inject_Z b)%Q -> a = b.
Proof. intros H. now apply (proj1 (inject_Z_injective _ _)) in H. Qed.

(** Rounding a number that is an integer below [2^53] changes nothing. *)
Lemma round_aux_int s mx ex lx N :
  0 < mx -> located mx lx (inject_Z N * pow2 (- ex)) ->
  lx = loc_Exact \/ ex <= fexp64 (Zdigits2 mx + ex) ->
  0 < N < 2 ^ 53 ->
  exists m e,
    binary_round_aux 53 1024 s mx ex lx = S754_finite s m e /\
    (inject_Z (Zpos m) * pow2 e == inject_Z N)%Q.
Proof.
  intros Pm L Hcase HN.
  destruct (binary_round_aux_spec s mx ex lx (inject_Z N) ltac:(lia) L)
    as (m & e & -> & Hm & He & V & Vx & _).
  set (d := Zdigits2 mx) in *.
  set (ef := Z.max ex (fexp64 (d + ex))) in *.
  pose proof (scaled_lower _ _ _ _ L) as Lo.
  assert (inject_Z N < pow2 53)%Q as P53.
  { rewrite pow2_Z by lia. rewrite <- Zlt_Qlt. lia. }
  assert (d + ex <= 53) as Dd by (apply (digits_below mx ex _ 53 Pm Lo P53)).
  assert (fexp64 (d + ex) <= 0) as F0 by (unfold fexp64; lia).
  assert (0 < inject_Z N)%Q as PN by (apply inject_Z_pos; lia).
  assert (ex < 53) as Hex.
  { apply pow2_lt_inv.
    assert (1 <= inject_Z mx)%Q as M1.
    { change 1%Q with (inject_Z 1). rewrite <- Zle_Qle. lia. }
    pose proof (pow2_pos ex). nra. }
  assert (inject_Z m * pow2 e == inject_Z N)%Q as G.
  { destruct (Z_le_gt_dec ex (fexp64 (d + ex))) as [Hle|Hgt].
    - apply (grid_exact m e N ef); [lia|subst ef; lia|exact V].
    - destruct Hcase as [->|Hle]; [|lia]. apply Vx; [reflexivity|lia]. }
  assert (0 < m) as Pm'.
  { destruct (Z.eq_dec m 0) as [->|]; [|lia]. exfalso.
    change (inject_Z 0) with 0%Q in G. lra. }
  destruct m as [|pm|pm]; try lia.
  exists pm, e. split; [|exact G]. simpl.
  destruct (Z.leb_spec e 971); [reflexivity|]. subst ef. lia.
Qed.

Lemma binary_round_int s p e N :
  (inject_Z (Zpos p) * pow2 e == inject_Z N)%Q -> 0 < N < 2 ^ 53 ->
  exists m e',
    binary_round 53 1024 s p e = S754_finite s m e' /\
    (inject_Z (Zpos m) * pow2 e' == inject_Z N)%Q.
Proof.
  intros E HN. unfold binary_round. rewrite fexp64_eq.
  destruct (shl_align_value p e (fexp64 (Zpos (digits2_pos p) + e))) as [V _].
  destruct (shl_align p e (fexp64 (Z.pos (digits2_pos p) + e))) as [mz ez].
  cbn [fst snd] in V.
  apply round_aux_int; [lia| |now left|exact HN].
  simpl. rewrite <- E, <- V, (pow2_inv ez).
  pose proof (pow2_pos ez). field. lra.
Qed.

Lemma normalize_int M ez N :
  (inject_Z M * pow2 ez == inject_Z N)%Q -> - 2 ^ 53 < N < 2 ^ 53 ->
  holds_int (binary_normalize 53 1024 M ez false) N.
Proof.
  intros E HN. pose proof (pow2_pos ez) as Pe.
  destruct M as [|p|p]; cbn [binary_normalize].
  - split; [reflexivity|]. simpl value.
    change (inject_Z 0) with 0%Q in E. rewrite <- E. ring.
  - assert (0 < N) as PN.
    { rewrite Zlt_Qlt. change (inject_Z 0) with 0%Q.
      pose proof (inject_Z_pos (Zpos p) ltac:(lia)). rewrite <- E. nra. }
    destruct (binary_round_int false p ez N E ltac:(lia)) as (m & e' & -> & V).
    split; [reflexivity|]. simpl value. rewrite V. ring.
  - assert (inject_Z (Zpos p) * pow2 ez == inject_Z (- N))%Q as E'.
    { rewrite inject_Z_opp, <- E. change (Zneg p) with (- Zpos p).
      rewrite inject_Z_opp. ring. }
    assert (0 < - N) as PN.
    { rewrite Zlt_Qlt. change (inject_Z 0) with 0%Q.
      pose proof (inject_Z_pos (Zpos p) ltac:(lia)). rewrite <- E'. nra. }
    destruct (binary_round_int true p ez (- N) E' ltac:(lia)) as (m & e' & -> & V).
    split; [reflexivity|]. simpl value. rewrite V, inject_Z_opp. ring.
Qed.

Lemma holds_int_zero s n : holds_int (S754_zero s) n -> n = 0.
Proof. intros [_ V]. simpl in V. apply inject_Z_eq. now rewrite <- V. Qed.

Lemma aligned_value s m e ez :
  (inject_Z (cond_Zopp s (Zpos (shl_align m e ez).1)) * pow2 (Z.min e ez)
   == value (S754_finite s m e))%Q.
Proof.
  destruct (shl_align_value m e ez) as [V E]. rewrite <- E. simpl value.
  rewrite <- V. destruct s; simpl cond_Zopp.
  - change (Zneg (shl_align m e ez).1) with (- Zpos (shl_align m e ez).1).
    rewrite inject_Z_opp. ring.
  - ring.
Qed.

(** The sum and the difference of two integers, when it is below [2^53] in
    absolute value, are computed exactly. *)
Lemma add_int x y a b :
  holds_int x a -> holds_int y b -> - 2 ^ 53 < a + b < 2 ^ 53 ->
  holds_int (F64.add x y) (a + b).
Proof.
  intros Hx Hy B.
  destruct x as [sx|sx| |sx mx ex]; try (destruct Hx; discriminate);
    destruct y as [sy|sy| |sy my ey]; try (destruct Hy; discriminate).
  - rewrite (holds_int_zero _ _ Hx), (holds_int_zero _ _ Hy).
    split; [now destruct sx, sy|]. now destruct sx, sy.
  - rewrite (holds_int_zero _ _ Hx). exact Hy.
  - rewrite (holds_int_zero _ _ Hy), Z.add_0_r. exact Hx.
  - unfold F64.add, F64.prec, F64.emax, SFadd.
    apply normalize_int; [|exact B].
    destruct Hx as [_ Vx], Hy as [_ Vy].
    assert (inject_Z (a + b) ==
            value (S754_finite sx mx ex) + value (S754_finite sy my ey))%Q as ->
      by (rewrite inject_Z_plus, Vx, Vy; reflexivity).
    rewrite <- (aligned_value sx mx ex (Z.min ex ey)).
    rewrite <- (aligned_value sy my ey (Z.min ex ey)).
    replace (Z.min ex (Z.min ex ey)) with (Z.min ex ey) by lia.
    replace (Z.min ey (Z.min ex ey)) with (Z.min ex ey) by lia.
    rewrite inject_Z_plus. ring.
Qed.

Lemma sub_int x y a b :
  holds_int x a -> holds_int y b -> - 2 ^ 53 < a - b < 2 ^ 53 ->
  holds_int (F64.sub x y) (a - b).
Proof.
  intros Hx Hy B.
  destruct x as [sx|sx| |sx mx ex]; try (destruct Hx; discriminate);
    destruct y as [sy|sy| |sy my ey]; try (destruct Hy; discriminate).
  - rewrite (holds_int_zero _ _ Hx), (holds_int_zero _ _ Hy).
    split; [now destruct sx, sy|]. now destruct sx, sy.
  - rewrite (holds_int_zero _ _ Hx). destruct Hy as [_ Vy].
    split; [reflexivity|].
    change (F64.sub (S754_zero sx) (S754_finite sy my ey))
      with (S754_finite (negb sy) my ey).
    simpl Z.sub. rewrite inject_Z_opp, <- Vy. simpl value.
    destruct sy; simpl; ring.
  - rewrite (holds_int_zero _ _ Hy), Z.sub_0_r. exact Hx.
  - unfold F64.sub, F64.prec, F64.emax, SFsub.
    apply normalize_int; [|exact B].
    destruct Hx as [_ Vx], Hy as [_ Vy].
    assert (inject_Z (a - b) ==
            value (S754_finite sx mx ex) - value (S754_finite sy my ey))%Q as ->
      by (unfold Z.sub; rewrite inject_Z_plus, inject_Z_opp, Vx, Vy; reflexivity).
    rewrite <- (aligned_value sx mx ex (Z.min ex ey)).
    rewrite <- (aligned_value sy my ey (Z.min ex ey)).
    replace (Z.min ex (Z.min ex ey)) with (Z.min ex ey) by lia.
    replace (Z.min ey (Z.min ex ey)) with (Z.min ex ey) by lia.
    unfold Z.sub. rewrite inject_Z_plus, inject_Z_opp. ring.
Qed.

(** A positive number divided by itself is one. *)
Lemma div_self m e :
  exists mq eq,
    F64.div (S754_finite false m e) (S754_finite false m e)
      = S754_finite false mq eq /\
    (inject_Z (Zpos mq) * pow2 eq == 1)%Q.
Proof.
  unfold F64.div, F64.prec, F64.emax, SFdiv. cbn [xorb].
  destruct (SFdiv_core_binary 53 1024 (Zpos m) e (Zpos m) e) as [[q e'] l] eqn:D.
  assert (0 < Zpos m) as Pm by lia.
  destruct (div_core_spec _ _ _ _ _ _ _ Pm Pm D) as (Hq & L & C1 & C2).
  assert (inject_Z (Zpos m) * pow2 e / (inject_Z (Zpos m) * pow2 e) == inject_Z 1)%Q
    as E1.
  { pose proof (pow2_pos e). pose proof (inject_Z_pos (Zpos m) Pm).
    change (inject_Z 1) with 1%Q. field. split; lra. }
  assert (located q l (inject_Z 1 * pow2 (- e'))) as L'.
  { eapply located_ext; [|exact L]. now rewrite E1. }
  replace (Zdigits2 (Zpos m) + e - (Zdigits2 (Zpos m) + e)) with 0 in C2 by lia.
  assert (e' <= -53) as He' by (unfold fexp64 in C2; lia).
  assert (0 < q) as Pq.
  { destruct (Z.eq_dec q 0) as [->|]; [|lia]. exfalso.
    assert (1 <= inject_Z 1 * pow2 (- e'))%Q as T.
    { assert (pow2 0 <= pow2 (- e'))%Q as P by (apply pow2_le; lia).
      rewrite pow2_0 in P. change (inject_Z 1) with 1%Q. lra. }
    set (t := (inject_Z 1 * pow2 (- e'))%Q) in *.
    destruct l as [|[]]; cbn [located] in L';
      change (inject_Z 0) with 0%Q in L'; lra. }
  destruct (round_aux_int false q e' l 1 Pq L' (or_intror C1) ltac:(lia))
    as (mq & eq & -> & V).
  now exists mq, eq.
Qed.

(** An integer below [2^53] times one is that integer. *)
Lemma mul_one U N mq eq :
  holds_int U N -> - 2 ^ 53 < N < 2 ^ 53 ->
  (inject_Z (Zpos mq) * pow2 eq == 1)%Q ->
  holds_int (F64.mul U (S754_finite false mq eq)) N.
Proof.
  intros HU B E1.
  destruct U as [s|s| |s mU eU]; try (destruct HU; discriminate).
  - rewrite (holds_int_zero _ _ HU). now split.
  - destruct HU as [_ V]. unfold F64.mul, F64.prec, F64.emax, SFmul.
    rewrite xorb_false_r.
    set (A := cond_Zopp s N).
    assert (inject_Z (Zpos mU) * pow2 eU == inject_Z A)%Q as EA.
    { subst A. simpl value in V. destruct s; simpl cond_Zopp.
      - rewrite inject_Z_opp, <- V. ring.
      - rewrite <- V. ring. }
    assert (0 < A) as PA.
    { rewrite Zlt_Qlt. change (inject_Z 0) with 0%Q. rewrite <- EA.
      pose proof (pow2_pos eU). pose proof (inject_Z_pos (Zpos mU) ltac:(lia)).
      nra. }
    assert (A < 2 ^ 53) as BA by (subst A; destruct s; simpl in *; lia).
    assert (located (Zpos (mU * mq)) loc_Exact
              (inject_Z A * pow2 (- (eU + eq)))) as L.
    { simpl. rewrite <- EA, Pos2Z.inj_mul, inject_Z_mult.
      rewrite (pow2_inv (eU + eq)), pow2_add.
      pose proof (pow2_pos eU). pose proof (pow2_pos eq).
      setoid_replace (inject_Z (Zpos mU) * pow2 eU / (pow2 eU * pow2 eq))%Q
        with (inject_Z (Zpos mU) * (/ pow2 eq))%Q using relation Qeq
        by (field; split; lra).
      assert (/ pow2 eq == inject_Z (Zpos mq))%Q as ->.
      { rewrite <- (Qmult_1_l (/ pow2 eq)), <- E1. field. lra. }
      reflexivity. }
    destruct (round_aux_int s (Zpos (mU * mq)) (eU + eq) loc_Exact A
                ltac:(lia) L (or_introl eq_refl) ltac:(lia))
      as (m & e & -> & Vm).
    split; [reflexivity|]. simpl value. rewrite Vm. subst A.
    destruct s; simpl cond_Zopp; rewrite ?inject_Z_opp; ring.
Qed.

(** [int(round(y, 0))] of an integer is that integer. *)
Lemma round_int_exact v y N :
  holds_int y N ->
  (forall s m e, y = S754_finite s m e -> Zpos m < 2 ^ 53) ->
  (py_round v (PyFloat y) ≫= py_int) = Ret N.
Proof.
  intros Hy Hm. destruct y as [s|s| |s m e]; try (destruct Hy; discriminate).
  - rewrite (holds_int_zero _ _ Hy). reflexivity.
  - destruct (int_round_canonical v s m e (Hm _ _ _ eq_refl))
      as (n & -> & Hn & V).
    f_equal. destruct Hy as [_ Vy]. simpl value in Vy.
    assert (inject_Z (Zpos m) * pow2 e == inject_Z (cond_Zopp s N))%Q as E.
    { destruct s; simpl cond_Zopp.
      - rewrite inject_Z_opp, <- Vy. ring.
      - rewrite <- Vy. ring. }
    rewrite E in V. apply Qabs_Qle_condition in V as [V1 V2].
    assert (-1 < n - cond_Zopp s N < 1) as D.
    { split; rewrite Zlt_Qlt; unfold Z.sub;
        rewrite inject_Z_plus, inject_Z_opp.
      - change (inject_Z (-1)) with (-1)%Q. lra.
      - change (inject_Z 1) with 1%Q. lra. }
    destruct s; simpl in *; lia.
Qed.

(** [int(round(y, 0))] of a number with a fractional part is the nearest
    integer by the rule of the version. *)
Lemma int_round_nearest v s m e :
  e < 0 -> Zpos m < 2 ^ 53 ->
  (py_round v (PyFloat (S754_finite s m e)) ≫= py_int) =
  Ret (cond_Zopp s
         (F64.nearest (match v with Py3 => true | Py2 => false end) m e)).
Proof.
  intros G Hm. unfold py_round.
  destruct (Z.leb_spec 0 e) as [L|_]; [lia|].
  set (he := match v with Py3 => true | Py2 => false end).
  destruct (nearest_spec he m e G) as (Hn & _ & Hle). cbv zeta in Hn, Hle.
  set (n := F64.nearest he m e) in *.
  cbn [mbind result_bind].
  destruct (Z.eq_dec n 0) as [->|NZ]; [now destruct s|].
  destruct n as [|p|p]; try lia.
  assert (binary_normalize F64.prec F64.emax (cond_Zopp s (Zpos p)) 0 s
          = binary_round 53 1024 s p 0) as -> by (now destruct s).
  assert (Zdigits2 (Zpos p) <= 53) as D.
  { pose proof (Zdigits2_bounds (Zpos p) ltac:(lia)) as [B1 _].
    destruct (Z_le_gt_dec (Zdigits2 (Zpos p)) 53); [assumption|].
    assert (2 ^ 53 <= 2 ^ (Zdigits2 (Zpos p) - 1))
      by (apply Z.pow_le_mono_r; lia).
    lia. }
  destruct (binary_round_exact s p 0) as (m' & e' & R & Hm' & He' & V).
  { pose proof (Zdigits2_pos (Zpos p) ltac:(lia)). unfold fexp64. lia. }
  rewrite R.
  assert (0 < m') as Pm'.
  { destruct (Z.eq_dec m' 0) as [Z0|]; [|lia].
    rewrite Z0 in V. change (inject_Z 0) with 0%Q in V.
    rewrite pow2_0 in V.
    pose proof (inject_Z_pos (Zpos p) ltac:(lia)). lra. }
  destruct m' as [|p'|p']; try lia. simpl F_of.
  destruct (Z.leb_spec e' 971); [|lia]. cbn [py_int]. f_equal.
  apply trunc_exact; [lia|exact V].
Qed.

(** On a tie of the kind [half_to_even], Python 3 rounds toward zero and
    Python 2 away from it. *)
Lemma nearest_tie m e :
  (2 * (Zpos m mod 2 ^ (- e)) =? 2 ^ (- e)) && Z.even (Zpos m / 2 ^ (- e))
    = true ->
  F64.nearest true m e = Zpos m / 2 ^ (- e) /\
  F64.nearest false m e = Zpos m / 2 ^ (- e) + 1.
Proof.
  intros H. apply andb_true_iff in H as [H1 H2]. apply Z.eqb_eq in H1.
  unfold F64.nearest. cbv zeta.
  rewrite (proj2 (Z.compare_eq_iff _ _) H1), H2. now split.
Qed.

Lemma nearest_agree m e :
  (2 * (Zpos m mod 2 ^ (- e)) =? 2 ^ (- e)) && Z.even (Zpos m / 2 ^ (- e))
    = false ->
  F64.nearest true m e = F64.nearest false m e.
Proof.
  intros H. unfold F64.nearest. cbv zeta.
  destruct (2 * (Zpos m mod 2 ^ (- e)) ?= 2 ^ (- e)) eqn:C; try reflexivity.
  apply Z.compare_eq in C. rewrite C, Z.eqb_refl in H. simpl in H.
  now rewrite H.
Qed.

Lemma round_agree y :
  half_to_even y = false ->
  py_round Py2 (PyFloat y) = py_round Py3 (PyFloat y).
Proof.
  destruct y as [s|s| |s m e]; try reflexivity. simpl.
  destruct (Z.leb_spec 0 e) as [L|G]; [reflexivity|].
  assert ((e <? 0) = true) as -> by (apply Z.ltb_lt; lia). simpl.
  intros H. now rewrite (nearest_agree m e H).
Qed.

Lemma nn_unsigned x : nn x \/ x = S754_infinity false -> unsigned x.
Proof.
  intros [H| ->]; [|reflexivity].
  destruct x as [[]|[]| |[] m e]; simpl in *; tauto.
Qed.

Lemma F_of_unsigned m e : 0 <= m -> unsigned (F_of false m e).
Proof.
  intros Hm. destruct m as [|p|p]; try lia; simpl; [reflexivity|].
  now destruct (e <=? 971).
Qed.

Lemma div_unsigned p P : unsigned p -> unsigned P -> unsigned (F64.div p P).
Proof.
  intros Hp HP.
  destruct p as [sp|sp| |sp mp ep], P as [sP|sP| |sP mP eP];
    simpl in Hp, HP; subst; try exact I; try reflexivity.
  unfold F64.div, F64.prec, F64.emax, SFdiv. cbn [xorb].
  pose proof (ratio_round (Zpos mp) ep (Zpos mP) eP 0 ltac:(lia) ltac:(lia)
                ltac:(lia)) as R. cbv zeta in R.
  destruct (SFdiv_core_binary 53 1024 (Zpos mp) ep (Zpos mP) eP) as [[q e'] l].
  destruct R as (m & e & -> & Hm & _). now apply F_of_unsigned.
Qed.

(** A finite product with an unsigned factor has the sign of the other
    factor, which is finite. *)
Lemma mul_sign U q s m e :
  unsigned q -> F64.mul U q = S754_finite s m e ->
  exists mU eU, U = S754_finite s mU eU.
Proof.
  intros Hq.
  destruct U as [sU|sU| |sU mU eU], q as [sq|sq| |sq mq eq];
    try discriminate.
  simpl in Hq. subst sq.
  unfold F64.mul, F64.prec, F64.emax, SFmul.
  set (x := (inject_Z (Zpos (mU * mq)) * pow2 (eU + eq))%Q).
  assert (located (Zpos (mU * mq)) loc_Exact (x * pow2 (- (eU + eq)))) as L.
  { simpl. subst x. rewrite (pow2_inv (eU + eq)).
    pose proof (pow2_pos (eU + eq)). field. lra. }
  destruct (binary_round_aux_spec (xorb sU false) (Zpos (mU * mq)) (eU + eq)
              loc_Exact x ltac:(lia) L)
    as (m' & e' & -> & Hm & _).
  destruct m' as [|p'|p']; simpl; try discriminate.
  destruct (e' <=? 971); [|discriminate].
  intros [= <- _ _]. exists mU, eU. now destruct sU.
Qed.
End NumberFacts.

(** ** The outcomes of [parse_star_report] *)
Module ParseFacts.
Import Re Star StarSpec StarFacts FloatSpec FloatFacts StarSumFacts.
Import ReSpec ReFacts FieldSpec FieldFacts DeriveSpec NumberFacts.

Lemma py_float_raises g e : py_float g = Raise e -> e = ValueError.
Proof.
  unfold py_float.
  destruct (read_decimal g 0 0 None) as [[[n [|k]] f]|]; try congruence.
  destruct n; congruence.
Qed.

Lemma extract_raises raw l : forall d e d',
  for_each l (extract_field raw) d = (Raise e, d') ->
  exists k r g, (k, r) ∈ l /\ first_match raw r = Some g /\ py_float g = Raise e.
Proof.
  induction l as [|[k0 r0] l IH]; intros d e d' H.
  - discriminate.
  - rewrite run_for_each_cons, extract_field_run in H. simpl in H.
    destruct (first_match raw r0) as [g|] eqn:E.
    + destruct (py_float g) as [x|e0] eqn:F.
      * apply IH in H as (k & r & g' & Hin & H1 & H2).
        exists k, r, g'. split; [now apply elem_of_cons; right|auto].
      * inversion H; subst. exists k0, r0, g. split; [apply list_elem_of_here|auto].
    + apply IH in H as (k & r & g' & Hin & H1 & H2).
      exists k, r, g'. split; [now apply elem_of_cons; right|auto].
Qed.

(** No pattern matches: the dict is left as it is. *)
Lemma extract_nothing raw l : forall d,
  (forall k r, (k, r) ∈ l -> first_match raw r = None) ->
  for_each l (extract_field raw) d = (Ret tt, d).
Proof.
  induction l as [|[k0 r0] l IH]; intros d H; [reflexivity|].
  rewrite run_for_each_cons, extract_field_run. simpl.
  rewrite (H k0 r0 (list_elem_of_here _ _)). apply IH.
  intros k r Hin. apply (H k). now apply elem_of_cons; right.
Qed.

(** A count pattern captures a number that [float] accepts. *)
Lemma count_parses {v} label raw g :
  first_match raw (count_re v label) = Some g -> exists x, py_float g = Ret x.
Proof.
  intros H. apply (first_match_field label is_digit) in H as [N D].
  rewrite (py_float_digits g N D). destruct (decimal_value g); eauto.
Qed.

(** What [parse_star_report] has done when it returns a FieldMap, or
    [None]. *)
Lemma parse_returned_inv v raw m :
  parse_star_report v raw = Ret (Some m) ->
  exists d,
    extract_fields v raw ∅ = (Ret tt, d) /\
    try_except_KeyError_pass (derive_unmapped v) d = (Ret tt, m) /\
    (forall k x, d !! k = Some x -> is_float x) /\
    (forall k, k ∉ derived -> m !! k = d !! k).
Proof.
  rewrite parse_star_report_unfold.
  destruct (extract_fields v raw ∅) as [[[]|e] d] eqn:Hrun; [|discriminate].
  destruct (try_except_KeyError_pass (derive_unmapped v) d)
    as [[[]|e] m'] eqn:Htry; [|discriminate].
  destruct (decide _); [discriminate|]. intros [= <-].
  assert (forall k' x, d !! k' = Some x -> is_float x) as Hfl.
  { intros k' x Hx. eapply extract_floats; eauto. }
  exists d. repeat split; auto.
  intros k Hk. apply (try_derive_frame v d m' _ k Hfl Htry Hk).
Qed.

Lemma table_not_derived {v} k r : (k, r) ∈ regexes v -> k ∉ derived.
Proof.
  intros Hin. 
  assert (Forall (fun k => k ∉ derived) (regexes v).*1) as Hnd
    by (refine (bool_decide_unpack _ _); vm_compute; exact I).
  rewrite Forall_forall in Hnd.
  apply Hnd. apply list_elem_of_fmap. now exists (k, r).
Qed.

(** The value of a name of the table in the returned FieldMap. *)
Lemma returned_lookup v raw m k r :
  parse_star_report v raw = Ret (Some m) -> (k, r) ∈ regexes v ->
  match first_match raw r with
  | Some g => exists x, py_float g = Ret x /\ m !! k = Some (PyFloat x)
  | None => m !! k = None
  end.
Proof.
  intros Hp Hin. destruct (parse_returned_inv _ _ _ Hp) as (d & Hrun & _ & _ & Hfr).
  rewrite (Hfr k (table_not_derived _ _ Hin)).
  pose proof (extract_lookup _ _ _ _ _ _ Hrun (regexes_NoDup _) Hin) as H.
  destruct (first_match raw r); [exact H|]. now rewrite H, lookup_empty.
Qed.

(** A name of the table holds a float in every FieldMap the parser
    returns. *)
Lemma parsed_floats v raw (m : gmap string pyval) k x :
  parse_star_report v raw = Ret (Some m) -> k ∈ (regexes v).*1 ->
  m !! k = Some x -> is_float x.
Proof.
  intros Hp Hk Hx. apply list_elem_of_fmap in Hk as [[k' r] [-> Hin]].
  pose proof (returned_lookup _ _ _ _ _ Hp Hin) as H. simpl in Hx.
  destruct (first_match raw r).
  - destruct H as (y & _ & Hy). rewrite Hy in Hx. now inversion Hx.
  - rewrite H in Hx. discriminate.
Qed.

(** Why the formula of a derived count raises. *)
Lemma spec_derived_count_raises v U p P e :
  spec_derived_count v U p P = Raise e ->
  (F64.is_zero P = true /\ e = ZeroDivisionError) \/
  (F64.is_zero P = false /\
   match F64.mul U (F64.div p P) with
   | S754_infinity _ => e = OverflowError
   | S754_nan => e = ValueError
   | _ => False
   end).
Proof.
  unfold spec_derived_count. destruct (F64.is_zero P); [intros [= <-]; now left|].
  intros H. right. split; [reflexivity|].
  destruct (F64.mul U (F64.div p P)) as [s|s| |s m e'] eqn:E.
  - discriminate.
  - cbn in H. congruence.
  - cbn in H. congruence.
  - pose proof (mul_finite_mantissa _ _ _ _ _ E) as B.
    destruct (int_round_canonical v s m e' B) as (n & R & _).
    change (r ← py_round v (PyFloat (S754_finite s m e')); py_int r)
      with (py_round v (PyFloat (S754_finite s m e')) ≫= py_int) in H.
    rewrite R in H. discriminate.
Qed.

(** The fields of a FieldMap that holds the seven inputs. *)
Lemma inputs_fields (d : gmap string pyval) tr um mm mt p1 p2 p3 :
  d !! "total_reads" = Some (PyFloat tr) ->
  d !! "uniquely_mapped" = Some (PyFloat um) ->
  d !! "multimapped" = Some (PyFloat mm) ->
  d !! "multimapped_toomany" = Some (PyFloat mt) ->
  d !! "unmapped_mismatches_percent" = Some (PyFloat p1) ->
  d !! "unmapped_tooshort_percent" = Some (PyFloat p2) ->
  d !! "unmapped_other_percent" = Some (PyFloat p3) ->
  unmapped_count d = F64.sub tr (F64.add (F64.add um mm) mt) /\
  total_unmapped_percent d = F64.add (F64.add p1 p2) p3 /\
  field d "unmapped_mismatches_percent" = p1 /\
  field d "unmapped_tooshort_percent" = p2 /\
  field d "unmapped_other_percent" = p3.
Proof.
  intros Htr Hum Hmm Hmt Hp1 Hp2 Hp3.
  unfold unmapped_count, total_unmapped_percent, field.
  now rewrite Htr, Hum, Hmm, Hmt, Hp1, Hp2, Hp3.
Qed.

Lemma required_present (d : gmap string pyval) tr um mm mt p1 p2 p3 :
  d !! "total_reads" = Some (PyFloat tr) ->
  d !! "uniquely_mapped" = Some (PyFloat um) ->
  d !! "multimapped" = Some (PyFloat mm) ->
  d !! "multimapped_toomany" = Some (PyFloat mt) ->
  d !! "unmapped_mismatches_percent" = Some (PyFloat p1) ->
  d !! "unmapped_tooshort_percent" = Some (PyFloat p2) ->
  d !! "unmapped_other_percent" = Some (PyFloat p3) ->
  Forall (fun k => is_Some (d !! k)) required.
Proof.
  intros Htr Hum Hmm Hmt Hp1 Hp2 Hp3. unfold required.
  repeat constructor; eauto.
Qed.

(** The outcome of the [try] on a FieldMap that holds the seven inputs, by
    the three products. *)
Lemma try_derive_outcome v (d : gmap string pyval) :
  (forall k x, d !! k = Some x -> is_float x) ->
  Forall (fun k => is_Some (d !! k)) required ->
  let U := unmapped_count d in
  let P := total_unmapped_percent d in
  let c k := spec_derived_count v U (field d k) P in
  try_except_KeyError_pass (derive_unmapped v) d =
  match c "unmapped_mismatches_percent" with
  | Raise e => (Raise e, d)
  | Ret c1 =>
      let d1 := <["unmapped_mismatches" := PyInt c1]> d in
      match c "unmapped_tooshort_percent" with
      | Raise e => (Raise e, d1)
      | Ret c2 =>
          let d2 := <["unmapped_tooshort" := PyInt c2]> d1 in
          match c "unmapped_other_percent" with
          | Raise e => (Raise e, d2)
          | Ret c3 => (Ret tt, <["unmapped_other" := PyInt c3]> d2)
          end
      end
  end.
Proof.
  intros Hfl Hreq U P c.
  destruct (required_cases d Hfl) as
    [(k0 & Hk0 & Hnone)|(tr & um & mm & mt & p1 & p2 & p3 & H)].
  - rewrite Forall_forall in Hreq. destruct (Hreq k0 Hk0) as [x Hx]. congruence.
  - destruct H as (Htr & Hum & Hmm & Hmt & Hp1 & Hp2 & Hp3).
    rewrite (try_derive_present v d _ _ _ _ _ _ _ Htr Hum Hmm Hmt Hp1 Hp2 Hp3),
      (derive_unmapped_run v d _ _ _ _ _ _ _ Htr Hum Hmm Hmt Hp1 Hp2 Hp3).
    destruct (inputs_fields d _ _ _ _ _ _ _ Htr Hum Hmm Hmt Hp1 Hp2 Hp3)
      as (EU & EP & E1 & E2 & E3).
    subst c U P. cbv beta zeta. now rewrite EU, EP, E1, E2, E3.
Qed.

Lemma count_agree U p P :
  half_to_even (F64.mul U (F64.div p P)) = false ->
  spec_derived_count Py2 U p P = spec_derived_count Py3 U p P.
Proof.
  intros H. unfold spec_derived_count. now rewrite (round_agree _ H).
Qed.

(** A derived count has the sign of [unmapped_count]. *)
Lemma derived_count_sign v U p P c :
  unsigned p -> unsigned P ->
  spec_derived_count v U p P = Ret c ->
  match U with
  | S754_finite true _ _ => c <= 0
  | _ => 0 <= c
  end.
Proof.
  intros Hp HP. unfold spec_derived_count.
  destruct (F64.is_zero P); [discriminate|].
  pose proof (div_unsigned p P Hp HP) as Hq.
  destruct (F64.mul U (F64.div p P)) as [s|s| |s m e] eqn:E.
  - cbn. intros [= <-]. destruct U as [| | |[]]; lia.
  - cbn. discriminate.
  - cbn. discriminate.
  - destruct (mul_sign _ _ _ _ _ Hq E) as (mU & eU & ->).
    pose proof (mul_finite_mantissa _ _ _ _ _ E) as B.
    destruct (int_round_canonical v s m e B) as (n & R & Hn & _).
    change (r ← py_round v (PyFloat (S754_finite s m e)); py_int r)
      with (py_round v (PyFloat (S754_finite s m e)) ≫= py_int).
    rewrite R. intros [= <-]. destruct s; simpl; lia.
Qed.

(** The subtraction and the two additions of [unmapped_count] are exact on
    integers below [2^53]. *)
Lemma unmapped_count_int (d : gmap string pyval) tr um mm mt :
  holds_int (field d "total_reads") tr ->
  holds_int (field d "uniquely_mapped") um ->
  holds_int (field d "multimapped") mm ->
  holds_int (field d "multimapped_toomany") mt ->
  0 <= um -> 0 <= mm -> 0 <= mt -> um + mm + mt < 2 ^ 53 ->
  0 <= tr < 2 ^ 53 ->
  holds_int (unmapped_count d) (tr - (um + mm + mt)).
Proof.
  intros Htr Hum Hmm Hmt P1 P2 P3 B Btr. unfold unmapped_count.
  apply sub_int; [exact Htr| |lia].
  apply add_int; [|exact Hmt|lia].
  apply add_int; [exact Hum|exact Hmm|lia].
Qed.

(** The count of a reason by its percentage, when [unmapped_count] is an
    integer below [2^53]. *)
Lemma count_of_zero_or_all v U p P N c :
  holds_int U N -> - 2 ^ 53 < N < 2 ^ 53 ->
  nn P \/ P = S754_infinity false ->
  spec_derived_count v U p P = Ret c ->
  (p = S754_zero false -> c = 0) /\ (p = P -> c = N).
Proof.
  intros HU B HP. unfold spec_derived_count.
  destruct (F64.is_zero P) eqn:Z; [discriminate|].
  change (r ← py_round v (PyFloat (F64.mul U (F64.div p P))); py_int r)
    with (py_round v (PyFloat (F64.mul U (F64.div p P))) ≫= py_int).
  intros H. split.
  - intros ->.
    assert (F64.div (S754_zero false) P = S754_zero false) as E.
    { destruct HP as [HP| ->]; [|reflexivity].
      destruct P as [[]|[]| |[] mP eP]; simpl in HP, Z; try tauto;
        try discriminate; reflexivity. }
    rewrite E in H.
    destruct U as [s|s| |s mU eU]; try (destruct HU; discriminate);
      cbn in H; congruence.
  - intros ->. destruct HP as [HP| ->].
    + destruct P as [[]|[]| |[] mP eP]; simpl in HP, Z; try tauto;
        try discriminate.
      destruct (div_self mP eP) as (mq & eq & E & V1). rewrite E in H.
      rewrite (round_int_exact v _ N) in H; [congruence| |].
      * now apply mul_one.
      * intros s m e Em. eapply mul_finite_mantissa; eauto.
    + exfalso.
      change (F64.div (S754_infinity false) (S754_infinity false))
        with S754_nan in H.
      destruct U as [s|s| |s mU eU]; try (destruct HU; discriminate);
        cbn in H; discriminate.
Qed.

Lemma count_on_tie U p P s m e :
  F64.is_zero P = false ->
  F64.mul U (F64.div p P) = S754_finite s m e ->
  half_to_even (S754_finite s m e) = true ->
  spec_derived_count Py3 U p P = Ret (cond_Zopp s (Zpos m / 2 ^ (- e))) /\
  spec_derived_count Py2 U p P = Ret (cond_Zopp s (Zpos m / 2 ^ (- e) + 1)).
Proof.
  intros Z E H. unfold spec_derived_count. rewrite Z, E.
  pose proof (mul_finite_mantissa _ _ _ _ _ E) as B.
  simpl in H. apply andb_true_iff in H as [H Hev].
  apply andb_true_iff in H as [G H]. apply Z.ltb_lt in G.
  assert ((2 * (Zpos m mod 2 ^ (- e)) =? 2 ^ (- e))
            && Z.even (Zpos m / 2 ^ (- e)) = true) as T
    by (now rewrite H, Hev).
  destruct (nearest_tie m e T) as [N3 N2].
  split.
  - change (r ← py_round Py3 (PyFloat (S754_finite s m e)); py_int r)
      with (py_round Py3 (PyFloat (S754_finite s m e)) ≫= py_int).
    now rewrite (int_round_nearest Py3 s m e G B), N3.
  - change (r ← py_round Py2 (PyFloat (S754_finite s m e)); py_int r)
      with (py_round Py2 (PyFloat (S754_finite s m e)) ≫= py_int).
    now rewrite (int_round_nearest Py2 s m e G B), N2.
Qed.

Lemma reasons_percents {v} kp kc : (kp, kc) ∈ reasons -> kp ∈ (regexes v).*1.
Proof.
  unfold reasons. intros H.
  repeat (apply elem_of_cons in H as [H|H];
          [inversion H; refine (bool_decide_unpack _ _); vm_compute; exact I|]).
  now apply elem_of_nil in H.
Qed.
End ParseFacts.

(** ** Properties of the field extractor and of the derived counts *)
Module ParseProperties.
Import Re Star StarSpec StarFacts FloatSpec FloatFacts StarSumFacts Samples.
Import ReSpec ReFacts FieldSpec FieldFacts DeriveSpec NumberFacts ParseFacts.
Import MoreSamples.

(** X1: in a FieldMap that [parse_star_report] returns, a name of the table
    is present exactly when the text has, somewhere, the label of its
    pattern followed by a blank and a bar, one or more whitespace characters
    (of the class [\s] of the version of Python) and one or more characters
    of the class of the pattern (digits, or digits and points). *)
Theorem field_present_iff_line v raw (m : gmap string pyval) k label cls :
  parse_star_report v raw = Ret (Some m) ->
  (k, field_re v label cls) ∈ regexes v ->
  (is_Some (m !! k) <-> has_line v raw label cls).
Proof.
  intros Hp Hin. rewrite <- contains_field, <- first_match_is_Some.
  pose proof (returned_lookup _ _ _ _ _ Hp Hin) as H.
  destruct (first_match raw (field_re v label cls)) as [g|].
  - destruct H as (x & _ & ->). split; eauto.
  - rewrite H. split; intros [x Hx]; discriminate.
Qed.

Lemma field_present_iff_line_witness :
  is_Some (returned (parse_star_report Py3 star_log) !! "total_reads") <->
  has_line Py3 star_log "Number of input reads" is_digit.
Proof.
  apply (field_present_iff_line Py3 star_log _ "total_reads"
           "Number of input reads" is_digit).
  - apply StarFacts.returns_map_returned. vm_compute. reflexivity.
  - apply list_elem_of_here.
Defined.

(** X2: the value under a name of the table is [float] of the characters
    [ds] that the pattern captures at the first position of the text where
    a line of its shape starts: no line of the shape starts earlier, and
    [ds] is a longest run of characters of the pattern's own class, in that
    the text does not go on with one more character of this class. The
    class of a count pattern is the digits only: before [12.5] it captures
    [12]. *)
Theorem field_reads_first_whole_number v raw (m : gmap string pyval)
    k label cls x :
  parse_star_report v raw = Ret (Some m) ->
  (k, field_re v label cls) ∈ regexes v ->
  m !! k = Some (PyFloat x) ->
  exists pre rest ws ds post,
    raw = pre ++ rest /\
    line_at v rest label cls ws ds post /\ whole_run cls post /\
    py_float ds = Ret x /\
    (forall pre1 pre2 ws' ds' post',
       pre = pre1 ++ pre2 -> pre2 <> [] ->
       ~ line_at v (pre2 ++ rest) label cls ws' ds' post').
Proof.
  intros Hp Hin Hx.
  pose proof (returned_lookup _ _ _ _ _ Hp Hin) as H.
  unfold first_match, search in H.
  destruct (search_from true (field_re v label cls) [] raw) as [g|] eqn:E;
    simpl in H; [|rewrite H in Hx; discriminate].
  destruct H as (y & Hy & Hm). rewrite Hm in Hx. inversion Hx; subst y.
  apply search_from_first in E as (pre & rest & -> & Hhere & Hfirst).
  apply match_here_field in Hhere as (ws & ds & post & Hline & Hw & ->).
  exists pre, rest, ws, ds, post.
  split; [reflexivity|]. split; [exact Hline|]. split; [exact Hw|].
  split; [exact Hy|].
  intros pre1 pre2 ws' ds' post' E N.
  apply (match_here_None label cls (rev pre1 ++ [])). now apply Hfirst.
Qed.

Lemma field_reads_first_whole_number_witness :
  exists pre rest ws ds post,
    star_log = pre ++ rest /\
    line_at Py3 rest "Uniquely mapped reads number" is_digit ws ds post /\
    whole_run is_digit post /\
    py_float ds
      = Ret (field (returned (parse_star_report Py3 star_log)) "uniquely_mapped")
    /\
    (forall pre1 pre2 ws' ds' post',
       pre = pre1 ++ pre2 -> pre2 <> [] ->
       ~ line_at Py3 (pre2 ++ rest) "Uniquely mapped reads number" is_digit
           ws' ds' post').
Proof.
  apply (field_reads_first_whole_number Py3 star_log
           (returned (parse_star_report Py3 star_log)) "uniquely_mapped").
  - apply StarFacts.returns_map_returned. vm_compute. reflexivity.
  - do 2 apply list_elem_of_further. apply list_elem_of_here.
  - vm_compute. reflexivity.
Defined.

(** X3: a count field ([(\d+)]) holds [float] of a non-empty string of
    digits, and when the integer these digits denote is below [2^53] the
    float is that integer, exactly. *)
Theorem count_field_exact v raw (m : gmap string pyval) k label x :
  parse_star_report v raw = Ret (Some m) ->
  (k, count_re v label) ∈ regexes v ->
  m !! k = Some (PyFloat x) ->
  exists ds,
    first_match raw (count_re v label) = Some ds /\
    ds <> [] /\ Forall (fun c => is_digit c = true) ds /\
    py_float ds = Ret x /\
    (decimal_value ds < 2 ^ 53 ->
     is_finite x = true /\ (value x == inject_Z (decimal_value ds))%Q).
Proof.
  intros Hp Hin Hx.
  pose proof (returned_lookup _ _ _ _ _ Hp Hin) as H.
  destruct (first_match raw (count_re v label)) as [ds|] eqn:E;
    [|rewrite H in Hx; discriminate].
  destruct H as (y & Hy & Hm). rewrite Hm in Hx. inversion Hx; subst y.
  destruct (first_match_field label is_digit raw ds E) as [N D].
  exists ds. split; [reflexivity|]. split; [exact N|]. split; [exact D|].
  split; [exact Hy|]. intros B.
  destruct (py_float_exact ds N D B) as (x' & Hx' & F & V).
  rewrite Hx' in Hy. inversion Hy; subst x'. now split.
Qed.

Lemma count_field_exact_witness :
  exists ds,
    first_match star_log (count_re Py3 "Number of input reads") = Some ds /\
    ds <> [] /\ Forall (fun c => is_digit c = true) ds /\
    py_float ds
      = Ret (field (returned (parse_star_report Py3 star_log)) "total_reads") /\
    (decimal_value ds < 2 ^ 53 ->
     is_finite (field (returned (parse_star_report Py3 star_log)) "total_reads")
       = true /\
     (value (field (returned (parse_star_report Py3 star_log)) "total_reads")
      == inject_Z (decimal_value ds))%Q).
Proof.
  apply (count_field_exact Py3 star_log
           (returned (parse_star_report Py3 star_log)) "total_reads").
  - apply StarFacts.returns_map_returned. vm_compute. reflexivity.
  - apply list_elem_of_here.
  - vm_compute. reflexivity.
Defined.

(** X4: [parse_star_report] returns [None], its "no data" signal, exactly
    when the text has no line of the shape of any pattern of the table. *)
Theorem no_data_iff_no_line v raw :
  parse_star_report v raw = Ret None <->
  (forall k label cls,
     (k, field_re v label cls) ∈ regexes v -> ~ has_line v raw label cls).
Proof.
  split.
  - rewrite parse_star_report_unfold.
    destruct (extract_fields v raw ∅) as [[[]|e] d] eqn:Hrun; [|discriminate].
    destruct (try_except_KeyError_pass (derive_unmapped v) d)
      as [[[]|e] m'] eqn:Htry; [|discriminate].
    destruct (decide _) as [Hsz|]; [|discriminate]. intros _.
    apply map_size_empty_iff in Hsz. subst m'.
    intros k label cls Hin Hline.
    apply contains_field, first_match_is_Some in Hline as [g Hg].
    assert (forall k' x, d !! k' = Some x -> is_float x) as Hfl.
    { intros k' x Hx. eapply extract_floats; eauto. }
    pose proof (try_derive_frame v d ∅ _ k Hfl Htry (table_not_derived _ _ Hin))
      as Hfr.
    pose proof (extract_lookup _ _ _ _ _ _ Hrun (regexes_NoDup v) Hin) as H.
    rewrite Hg in H. destruct H as (x & _ & Hx).
    rewrite lookup_empty, Hx in Hfr. discriminate.
  - intros Hno.
    assert (forall k r, (k, r) ∈ regexes v -> first_match raw r = None) as Hnone.
    { intros k r Hin. destruct (regexes_shape k r Hin) as [label [-> | ->]];
        (destruct (first_match raw _) as [g|] eqn:E; [exfalso|reflexivity]);
        (eapply Hno; [exact Hin|]);
        apply contains_field, first_match_is_Some; rewrite E; eauto. }
    rewrite parse_star_report_unfold. unfold extract_fields.
    rewrite (extract_nothing raw (regexes v) ∅ Hnone).
    rewrite (try_derive_missing v ∅ "total_reads").
    + rewrite map_size_empty. now destruct (decide _).
    + intros k' x. now rewrite lookup_empty.
    + mem.
    + apply lookup_empty.
Qed.

(** X5: [parse_star_report] raises only [ValueError], [ZeroDivisionError]
    or [OverflowError], and each for one reason: [ValueError] from [float]
    on what a [([\d\.]+)] pattern captured (never from a count pattern), or,
    with the seven inputs present, [ZeroDivisionError] when the three
    percentages sum to zero, [OverflowError] when a product is infinite and
    [ValueError] when it is a NaN. No [KeyError] leaves the function. *)
Theorem parse_star_report_raises v raw e :
  parse_star_report v raw = Raise e ->
  (e = ValueError /\
   exists k label g,
     (k, decimal_re v label) ∈ regexes v /\
     first_match raw (decimal_re v label) = Some g /\
     py_float g = Raise ValueError) \/
  (exists d,
     extract_fields v raw ∅ = (Ret tt, d) /\
     Forall (fun k => is_Some (d !! k)) required /\
     ((e = ZeroDivisionError /\
       F64.is_zero (total_unmapped_percent d) = true) \/
      (F64.is_zero (total_unmapped_percent d) = false /\
       exists k, k ∈ percents /\
         match product d k with
         | S754_infinity _ => e = OverflowError
         | S754_nan => e = ValueError
         | _ => False
         end))).
Proof.
  rewrite parse_star_report_unfold.
  destruct (extract_fields v raw ∅) as [[[]|e0] d] eqn:Hrun.
  - intros H. right. exists d. split; [reflexivity|].
    assert (forall k' x, d !! k' = Some x -> is_float x) as Hfl.
    { intros k' x Hx. eapply extract_floats; eauto. }
    destruct (required_cases d Hfl) as
      [(k & Hk & Hnone)|(tr & um & mm & mt & p1 & p2 & p3 & Hin)]; [exfalso|].
    + rewrite (try_derive_missing v d k Hfl Hk Hnone) in H.
      now destruct (decide _).
    + destruct Hin as (Htr & Hum & Hmm & Hmt & Hp1 & Hp2 & Hp3).
      pose proof (required_present d _ _ _ _ _ _ _ Htr Hum Hmm Hmt Hp1 Hp2 Hp3)
        as Hreq.
      split; [exact Hreq|].
      rewrite (try_derive_outcome v d Hfl Hreq) in H. cbv zeta in H.
      assert (forall k, k ∈ percents ->
                spec_derived_count v (unmapped_count d) (field d k)
                  (total_unmapped_percent d) = Raise e ->
                (e = ZeroDivisionError /\
                 F64.is_zero (total_unmapped_percent d) = true) \/
                (F64.is_zero (total_unmapped_percent d) = false /\
                 exists k, k ∈ percents /\
                   match product d k with
                   | S754_infinity _ => e = OverflowError
                   | S754_nan => e = ValueError
                   | _ => False
                   end)) as Hk.
      { intros k Hk Hr. apply spec_derived_count_raises in Hr as [[Z ->]|[Z Hr]];
          [now left|right]. split; [exact Z|]. now exists k. }
      destruct (spec_derived_count _ _ (field d "unmapped_mismatches_percent") _)
        as [c1|e1] eqn:E1;
        [|inversion H; subst e1; apply (Hk "unmapped_mismatches_percent");
          [unfold percents; mem|exact E1]].
      destruct (spec_derived_count _ _ (field d "unmapped_tooshort_percent") _)
        as [c2|e2] eqn:E2;
        [|inversion H; subst e2; apply (Hk "unmapped_tooshort_percent");
          [unfold percents; mem|exact E2]].
      destruct (spec_derived_count _ _ (field d "unmapped_other_percent") _)
        as [c3|e3] eqn:E3;
        [|inversion H; subst e3; apply (Hk "unmapped_other_percent");
          [unfold percents; mem|exact E3]].
      now destruct (decide _).
  - intros [= ->]. left. unfold extract_fields in Hrun.
    apply extract_raises in Hrun as (k & r & g & Hin & Hg & Hf).
    pose proof (py_float_raises _ _ Hf) as ->. split; [reflexivity|].
    destruct (regexes_shape k r Hin) as [label [-> | ->]].
    + destruct (count_parses label raw g Hg) as [x Hx]. congruence.
    + now exists k, label, g.
Qed.

Lemma parse_star_report_raises_witness :
  (ZeroDivisionError = ValueError /\
   exists k label g,
     (k, decimal_re Py3 label) ∈ regexes Py3 /\
     first_match all_mapped_log (decimal_re Py3 label) = Some g /\
     py_float g = Raise ValueError) \/
  (exists d,
     extract_fields Py3 all_mapped_log ∅ = (Ret tt, d) /\
     Forall (fun k => is_Some (d !! k)) required /\
     ((ZeroDivisionError = ZeroDivisionError /\
       F64.is_zero (total_unmapped_percent d) = true) \/
      (F64.is_zero (total_unmapped_percent d) = false /\
       exists k, k ∈ percents /\
         match product d k with
         | S754_infinity _ => ZeroDivisionError = OverflowError
         | S754_nan => ZeroDivisionError = ValueError
         | _ => False
         end))).
Proof.
  apply (parse_star_report_raises Py3 all_mapped_log ZeroDivisionError).
  vm_compute. reflexivity.
Defined.

(** X6: the outcome of the loop over [regexes.items()] does not depend on
    the order in which the dict yields its items: in any order the loop
    raises or returns alike, and returns the same FieldMap. *)
Theorem extraction_order_irrelevant v raw (l : list (string * regex)) :
  l ≡ₚ regexes v ->
  (for_each l (extract_field raw) ∅).1 = (extract_fields v raw ∅).1 /\
  ((extract_fields v raw ∅).1 = Ret tt ->
   (for_each l (extract_field raw) ∅).2 = (extract_fields v raw ∅).2).
Proof.
  intros Hperm. unfold extract_fields.
  assert (NoDup l.*1) as Hnd.
  { rewrite Hperm. apply (regexes_NoDup _). }
  assert (forall kr, kr ∈ l <-> kr ∈ regexes v) as Hin
    by (intros kr; now rewrite Hperm).
  assert (forall (l1 l2 : list (string * regex)) d1 e d2,
            (forall kr, kr ∈ l2 -> kr ∈ l1) -> NoDup l1.*1 ->
            for_each l1 (extract_field raw) ∅ = (Ret tt, d1) ->
            for_each l2 (extract_field raw) ∅ = (Raise e, d2) -> False) as Hmix.
  { intros l1 l2 d1 e d2 Hsub Hnd1 H1 H2.
    apply extract_raises in H2 as (k & r & g & Hk & Hg & Hf).
    pose proof (extract_lookup _ _ _ _ _ _ H1 Hnd1 (Hsub _ Hk)) as H.
    rewrite Hg in H. destruct H as (x & Hx & _). congruence. }
  destruct (for_each l (extract_field raw) ∅) as [[[]|e1] d1] eqn:H1;
    destruct (for_each (regexes v) (extract_field raw) ∅) as [[[]|e2] d2] eqn:H2;
    simpl.
  - split; [reflexivity|]. intros _. apply map_eq. intros k.
    destruct (decide (k ∈ (regexes v).*1)) as [Hk|Hk].
    + apply list_elem_of_fmap in Hk as [[k' r] [-> Hk]]. simpl.
      pose proof (extract_lookup _ _ _ _ _ _ H1 Hnd (proj2 (Hin _) Hk)) as A.
      pose proof (extract_lookup _ _ _ _ _ _ H2 (regexes_NoDup _) Hk) as B.
      destruct (first_match raw r).
      * destruct A as (x & Hx & ->), B as (y & Hy & ->). congruence.
      * now rewrite A, B.
    + rewrite (extract_other _ _ _ _ _ k H2 Hk).
      apply (extract_other _ _ _ _ _ k H1). now rewrite Hperm.
  - exfalso. apply (Hmix l (regexes v) d1 e2 d2); auto. intros kr. apply Hin.
  - exfalso. apply (Hmix (regexes v) l d2 e1 d1); auto;
      [intros kr; apply Hin | apply (regexes_NoDup _)].
  - split; [|discriminate].
    apply extract_raises in H1 as (k1 & r1 & g1 & _ & _ & F1).
    apply extract_raises in H2 as (k2 & r2 & g2 & _ & _ & F2).
    now rewrite (py_float_raises _ _ F1), (py_float_raises _ _ F2).
Qed.

Lemma extraction_order_irrelevant_witness :
  (for_each (rev (regexes Py3)) (extract_field star_log) ∅).1
    = (extract_fields Py3 star_log ∅).1 /\
  ((extract_fields Py3 star_log ∅).1 = Ret tt ->
   (for_each (rev (regexes Py3)) (extract_field star_log) ∅).2
     = (extract_fields Py3 star_log ∅).2).
Proof.
  apply (extraction_order_irrelevant Py3 star_log (rev (regexes Py3))).
  symmetry. apply Permutation_rev.
Defined.



(** X8: for a FieldMap returned with the seven inputs, whose counts are
    integers as in X7: a reason whose percentage is [0.0] gets the count 0,
    and a reason whose percentage equals the sum of the three (the only
    reason with unmapped reads) gets [unmapped_count] itself, without any
    rounding error. *)
Theorem single_reason_exact v raw (m : gmap string pyval) tr um mm mt :
  parse_star_report v raw = Ret (Some m) ->
  Forall (fun k => is_Some (m !! k)) required ->
  holds_int (field m "total_reads") tr ->
  holds_int (field m "uniquely_mapped") um ->
  holds_int (field m "multimapped") mm ->
  holds_int (field m "multimapped_toomany") mt ->
  0 <= um -> 0 <= mm -> 0 <= mt -> um + mm + mt < 2 ^ 53 ->
  0 <= tr < 2 ^ 53 ->
  forall kp kc, (kp, kc) ∈ reasons ->
    (field m kp = S754_zero false -> m !! kc = Some (PyInt 0)) /\
    (field m kp = total_unmapped_percent m ->
     m !! kc = Some (PyInt (tr - (um + mm + mt)))).
Proof.
  intros Hp Hreq Htr Hum Hmm Hmt P1 P2 P3 B Btr kp kc Hk.
  pose proof (unmapped_count_int m tr um mm mt Htr Hum Hmm Hmt P1 P2 P3 B Btr)
    as HU.
  destruct (parse_returned_inv _ _ _ Hp) as (d & Hrun & Htry & Hfl & Hfr).
  assert (forall k, k ∈ (regexes v).*1 -> m !! k = d !! k) as Hsame.
  { intros k' Hk'. apply Hfr.
    apply list_elem_of_fmap in Hk' as [[k'' r] [-> Hin]].
    exact (table_not_derived _ r Hin). }
  assert (forall k, k ∈ (regexes v).*1 -> field m k = field d k) as Hfield.
  { intros k' Hk'. unfold field. now rewrite Hsame. }
  assert (Forall (fun k => k ∈ (regexes v).*1) required) as Hreg
    by (refine (bool_decide_unpack _ _); vm_compute; exact I).
  assert (Forall (fun k => is_Some (d !! k)) required) as Hreqd.
  { rewrite Forall_forall in Hreq, Hreg |- *. intros k' Hk'.
    rewrite <- Hsame by (now apply Hreg). now apply Hreq. }
  assert (unmapped_count m = unmapped_count d) as EU.
  { unfold unmapped_count. rewrite Forall_forall in Hreg.
    rewrite !Hfield; [reflexivity| | | |]; apply Hreg; mem. }
  assert (total_unmapped_percent m = total_unmapped_percent d) as EP.
  { unfold total_unmapped_percent. rewrite Forall_forall in Hreg.
    rewrite !Hfield; [reflexivity| | |]; apply Hreg; mem. }
  assert (nn (total_unmapped_percent d) \/
          total_unmapped_percent d = S754_infinity false) as HP.
  { unfold total_unmapped_percent. rewrite Forall_forall in Hreqd.
    apply add_nn_or_inf; [apply add_nn_or_inf|];
      apply (field_present raw d _ Hrun), Hreqd; mem. }
  rewrite EU in HU. rewrite EP.
  rewrite (try_derive_outcome v d Hfl Hreqd) in Htry. cbv zeta in Htry.
  pose proof (fun p c =>
    count_of_zero_or_all v (unmapped_count d) p (total_unmapped_percent d)
      (tr - (um + mm + mt)) c HU ltac:(lia) HP) as Hc.
  destruct (spec_derived_count _ _ (field d "unmapped_mismatches_percent") _)
    as [c1|e1] eqn:E1; [|discriminate].
  destruct (spec_derived_count _ _ (field d "unmapped_tooshort_percent") _)
    as [c2|e2] eqn:E2; [|discriminate].
  destruct (spec_derived_count _ _ (field d "unmapped_other_percent") _)
    as [c3|e3] eqn:E3; [|discriminate].
  apply Hc in E1, E2, E3. inversion Htry; subst m. clear Htry.
  rewrite Forall_forall in Hreg.
  unfold reasons in Hk.
  repeat (apply elem_of_cons in Hk as [Hk|Hk];
          [inversion Hk; subst kp kc;
           rewrite Hfield by (apply Hreg; mem);
           rewrite ?lookup_insert_ne by discriminate;
           rewrite lookup_insert_eq;
           split; intros E; do 2 f_equal;
           first [apply E1 | apply E2 | apply E3]; exact E|]).
  now apply elem_of_nil in Hk.
Qed.

Lemma single_reason_exact_witness :
  let m := returned (parse_star_report Py3 short_only_log) in
  (field m "unmapped_tooshort_percent" = S754_zero false ->
   m !! "unmapped_tooshort" = Some (PyInt 0)) /\
  (field m "unmapped_tooshort_percent" = total_unmapped_percent m ->
   m !! "unmapped_tooshort" = Some (PyInt (1000 - (900 + 30 + 10)))).
Proof.
  apply (single_reason_exact Py3 short_only_log
           (returned (parse_star_report Py3 short_only_log)) 1000 900 30 10);
    try lia.
  - apply StarFacts.returns_map_returned. vm_compute. reflexivity.
  - refine (bool_decide_unpack _ _). vm_compute. exact I.
  - split; vm_compute; reflexivity.
  - split; vm_compute; reflexivity.
  - split; vm_compute; reflexivity.
  - split; vm_compute; reflexivity.
  - unfold reasons. mem.
Defined.

(** X9: in a returned FieldMap each derived count has the sign of
    [unmapped_count]: it is not negative when [total_reads] is at least the
    mapped reads, and not positive when the log is inconsistent and
    [unmapped_count] is negative. *)
Theorem derived_counts_sign v raw (m : gmap string pyval) k :
  parse_star_report v raw = Ret (Some m) -> k ∈ derived ->
  match unmapped_count m with
  | S754_finite true _ _ => count m k <= 0
  | _ => 0 <= count m k
  end.
Proof.
  intros Hp Hk.
  destruct (parse_returned_inv _ _ _ Hp) as (d & Hrun & Htry & Hfl & Hfr).
  assert (forall k, k ∈ (regexes v).*1 -> field m k = field d k) as Hfield.
  { intros k' Hk'. unfold field. rewrite Hfr; [reflexivity|].
    apply list_elem_of_fmap in Hk' as [[k'' r] [-> Hin]].
    exact (table_not_derived _ r Hin). }
  assert (unmapped_count m = unmapped_count d) as EU.
  { unfold unmapped_count.
    rewrite !Hfield; [reflexivity| | | |];
      refine (bool_decide_unpack _ _); vm_compute; exact I. }
  rewrite EU.
  assert (forall k', k' ∈ derived -> d !! k' = None) as Hnd.
  { intros k' Hk'. destruct (d !! k') as [x|] eqn:E; [|reflexivity].
    destruct (extract_floats _ _ _ _ Hrun E) as [Hin _].
    apply list_elem_of_fmap in Hin as [[k'' r] [-> Hin]].
    now destruct (table_not_derived _ _ Hin). }
  destruct (required_cases d Hfl) as
    [(k0 & Hk0 & Hnone)|(tr & um & mm & mt & p1 & p2 & p3 & Hin)].
  - rewrite (try_derive_missing v d k0 Hfl Hk0 Hnone) in Htry.
    inversion Htry; subst m. unfold count. rewrite (Hnd k Hk).
    destruct (unmapped_count d) as [| | |[]]; lia.
  - destruct Hin as (Htr & Hum & Hmm & Hmt & Hp1 & Hp2 & Hp3).
    pose proof (required_present d _ _ _ _ _ _ _ Htr Hum Hmm Hmt Hp1 Hp2 Hp3)
      as Hreq.
    rewrite (try_derive_outcome v d Hfl Hreq) in Htry. cbv zeta in Htry.
    assert (forall k', k' ∈ percents -> unsigned (field d k')) as Hun.
    { intros k' Hk'. apply nn_unsigned.
      apply (field_present raw d k' Hrun).
      rewrite Forall_forall in Hreq. apply Hreq.
      unfold percents in Hk'. unfold required.
      repeat (apply elem_of_cons in Hk' as [->|Hk']; [mem|]).
      now apply elem_of_nil in Hk'. }
    assert (unsigned (total_unmapped_percent d)) as HP.
    { apply nn_unsigned. unfold total_unmapped_percent.
      rewrite Forall_forall in Hreq.
      apply add_nn_or_inf; [apply add_nn_or_inf|];
        apply (field_present raw d _ Hrun), Hreq; mem. }
    pose proof (fun k' Hk' c =>
      derived_count_sign v (unmapped_count d) (field d k')
        (total_unmapped_percent d) c (Hun k' Hk') HP) as Hs.
    destruct (spec_derived_count _ _ (field d "unmapped_mismatches_percent") _)
      as [c1|e1] eqn:E1; [|discriminate].
    destruct (spec_derived_count _ _ (field d "unmapped_tooshort_percent") _)
      as [c2|e2] eqn:E2; [|discriminate].
    destruct (spec_derived_count _ _ (field d "unmapped_other_percent") _)
      as [c3|e3] eqn:E3; [|discriminate].
    apply Hs in E1; [|unfold percents; mem].
    apply Hs in E2; [|unfold percents; mem].
    apply Hs in E3; [|unfold percents; mem].
    inversion Htry; subst m. unfold count, derived in *.
    repeat (apply elem_of_cons in Hk as [->|Hk];
            [rewrite ?lookup_insert_ne by discriminate;
             rewrite lookup_insert_eq; assumption|]).
    now apply elem_of_nil in Hk.
Qed.

Lemma derived_counts_sign_witness :
  match unmapped_count (returned (parse_star_report Py3 star_log)) with
  | S754_finite true _ _ =>
      count (returned (parse_star_report Py3 star_log)) "unmapped_tooshort"
        <= 0
  | _ =>
      0 <= count (returned (parse_star_report Py3 star_log))
             "unmapped_tooshort"
  end.
Proof.
  apply (derived_counts_sign Py3 star_log).
  - apply StarFacts.returns_map_returned. vm_compute. reflexivity.
  - mem.
Defined.

(** X10: on a text where [\s] means the same in the two versions (a text
    without the characters 28 to 31, 133 and 160), Python 2 and Python 3
    give the same result unless one of the three products is half-way
    between two integers with the one nearer to zero even, the only numbers
    that their [round] treats differently. *)
Theorem versions_agree_off_ties raw :
  same_spaces raw ->
  let d := (extract_fields Py3 raw ∅).2 in
  (forall k, k ∈ percents -> half_to_even (product d k) = false) ->
  parse_star_report Py2 raw = parse_star_report Py3 raw.
Proof.
  intros HA d H. rewrite !parse_star_report_unfold. subst d.
  rewrite (extract_fields_same raw ∅ HA).
  destruct (extract_fields Py3 raw ∅) as [[[]|e] d] eqn:Hrun; [|reflexivity].
  cbn [snd] in H.
  assert (forall k' x, d !! k' = Some x -> is_float x) as Hfl.
  { intros k' x Hx. eapply extract_floats; eauto. }
  destruct (required_cases d Hfl) as
    [(k & Hk & Hnone)|(tr & um & mm & mt & p1 & p2 & p3 & Hin)].
  - now rewrite !(try_derive_missing _ d k Hfl Hk Hnone).
  - destruct Hin as (Htr & Hum & Hmm & Hmt & Hp1 & Hp2 & Hp3).
    pose proof (required_present d _ _ _ _ _ _ _ Htr Hum Hmm Hmt Hp1 Hp2 Hp3)
      as Hreq.
    rewrite !(try_derive_outcome _ d Hfl Hreq). cbv zeta.
    rewrite !(count_agree (unmapped_count d) _ (total_unmapped_percent d));
      [reflexivity| |  |]; apply H; unfold percents; mem.
Qed.

Lemma versions_agree_off_ties_witness :
  parse_star_report Py2 star_log = parse_star_report Py3 star_log.
Proof.
  apply (versions_agree_off_ties star_log).
  { refine (bool_decide_unpack _ _). vm_compute. exact I. }
  intros k Hk. unfold percents in Hk.
  repeat (apply elem_of_cons in Hk as [->|Hk]; [vm_compute; reflexivity|]).
  now apply elem_of_nil in Hk.
Defined.

(** X11: on a text where [\s] means the same in the two versions, where
    the product of a reason is such a tie, the count that Python 2 stores is
    one more, in absolute value, than the count that Python 3 stores. *)
Theorem versions_differ_on_tie raw (m2 m3 : gmap string pyval) kp kc :
  same_spaces raw ->
  parse_star_report Py2 raw = Ret (Some m2) ->
  parse_star_report Py3 raw = Ret (Some m3) ->
  Forall (fun k => is_Some (m3 !! k)) required ->
  (kp, kc) ∈ reasons ->
  half_to_even (product m3 kp) = true ->
  Z.abs (count m2 kc) = Z.abs (count m3 kc) + 1.
Proof.
  intros HA H2 H3 Hreq Hk Htie.
  destruct (parse_returned_inv _ _ _ H2) as (d & Hrun & Htry2 & _ & _).
  destruct (parse_returned_inv _ _ _ H3) as (d' & Hrun' & Htry3 & Hfl & Hfr).
  rewrite (extract_fields_same raw ∅ HA), Hrun' in Hrun.
  inversion Hrun; subst d'. clear Hrun. rename Hrun' into Hrun.
  assert (forall k, k ∈ (regexes Py3).*1 -> m3 !! k = d !! k) as Hsame.
  { intros k' Hk'. apply Hfr.
    apply list_elem_of_fmap in Hk' as [[k'' r] [-> Hin]].
    exact (table_not_derived _ r Hin). }
  assert (forall k, k ∈ (regexes Py3).*1 -> field m3 k = field d k) as Hfield.
  { intros k' Hk'. unfold field. now rewrite Hsame. }
  assert (Forall (fun k => k ∈ (regexes Py3).*1) required) as Hreg
    by (refine (bool_decide_unpack _ _); vm_compute; exact I).
  assert (Forall (fun k => is_Some (d !! k)) required) as Hreqd.
  { rewrite Forall_forall in Hreq, Hreg |- *. intros k' Hk'.
    rewrite <- Hsame by (now apply Hreg). now apply Hreq. }
  assert (product m3 kp = product d kp) as EP.
  { unfold product, unmapped_count, total_unmapped_percent.
    rewrite Forall_forall in Hreg.
    rewrite !Hfield; [reflexivity| | | | | | | |];
      first [apply (reasons_percents _ _ Hk) | apply Hreg; mem]. }
  rewrite EP in Htie. clear EP.
  rewrite (try_derive_outcome Py2 d Hfl Hreqd) in Htry2.
  rewrite (try_derive_outcome Py3 d Hfl Hreqd) in Htry3.
  cbv zeta in Htry2, Htry3.
  assert (F64.is_zero (total_unmapped_percent d) = false) as Z.
  { destruct (F64.is_zero (total_unmapped_percent d)) eqn:E; [|reflexivity].
    unfold spec_derived_count in Htry3. rewrite E in Htry3. discriminate. }
  unfold product in Htie.
  destruct (F64.mul (unmapped_count d)
              (F64.div (field d kp) (total_unmapped_percent d)))
    as [| | |s m e] eqn:E; try discriminate.
  destruct (count_on_tie _ _ _ _ _ _ Z E Htie) as [C3 C2].
  assert (0 <= Zpos m / 2 ^ (- e)) as Q0.
  { apply Z.div_pos; [lia|]. apply Z.pow_pos_nonneg; [lia|].
    simpl in Htie. destruct (Z.ltb_spec e 0); [lia|discriminate]. }
  assert (forall c2 c3,
            spec_derived_count Py2 (unmapped_count d) (field d kp)
              (total_unmapped_percent d) = Ret c2 ->
            spec_derived_count Py3 (unmapped_count d) (field d kp)
              (total_unmapped_percent d) = Ret c3 ->
            Z.abs c2 = Z.abs c3 + 1) as Habs.
  { intros c2 c3 E2 E3. rewrite C2 in E2. rewrite C3 in E3.
    inversion E2; inversion E3. destruct s; simpl; lia. }
  destruct (spec_derived_count Py2 _ (field d "unmapped_mismatches_percent") _)
    as [a1|] eqn:A1; [|discriminate].
  destruct (spec_derived_count Py2 _ (field d "unmapped_tooshort_percent") _)
    as [a2|] eqn:A2; [|discriminate].
  destruct (spec_derived_count Py2 _ (field d "unmapped_other_percent") _)
    as [a3|] eqn:A3; [|discriminate].
  destruct (spec_derived_count Py3 _ (field d "unmapped_mismatches_percent") _)
    as [b1|] eqn:B1; [|discriminate].
  destruct (spec_derived_count Py3 _ (field d "unmapped_tooshort_percent") _)
    as [b2|] eqn:B2; [|discriminate].
  destruct (spec_derived_count Py3 _ (field d "unmapped_other_percent") _)
    as [b3|] eqn:B3; [|discriminate].
  inversion Htry2; subst m2. inversion Htry3; subst m3.
  unfold count, reasons in *.
  repeat (apply elem_of_cons in Hk as [Hk|Hk];
          [inversion Hk; subst kp kc;
           rewrite ?lookup_insert_ne by discriminate;
           rewrite !lookup_insert_eq;
           rewrite ?lookup_insert_ne by discriminate;
           rewrite ?lookup_insert_eq;
           first [exact (Habs _ _ A1 B1) | exact (Habs _ _ A2 B2)
                 | exact (Habs _ _ A3 B3)]|]).
  now apply elem_of_nil in Hk.
Qed.

Lemma versions_differ_on_tie_witness :
  Z.abs (count (returned (parse_star_report Py2 tie_log)) "unmapped_mismatches")
  = Z.abs (count (returned (parse_star_report Py3 tie_log))
             "unmapped_mismatches") + 1.
Proof.
  apply (versions_differ_on_tie tie_log
           (returned (parse_star_report Py2 tie_log))
           (returned (parse_star_report Py3 tie_log))
           "unmapped_mismatches_percent" "unmapped_mismatches").
  - refine (bool_decide_unpack _ _). vm_compute. exact I.
  - apply StarFacts.returns_map_returned. vm_compute. reflexivity.
  - apply StarFacts.returns_map_returned. vm_compute. reflexivity.
  - refine (bool_decide_unpack _ _). vm_compute. exact I.
  - apply list_elem_of_here.
  - vm_compute. reflexivity.
Defined.
End ParseProperties.

(** ** The loop over the files and the report *)
Module ReportFacts.
Import Re Star StarSpec StarFacts Samples ReportSpec ParseFacts.

(** One turn of the loop, whatever the file returns. *)
Lemma load_report_step v f st :
  load_report v f st =
  match parse_star_report v (f_content f) with
  | Ret (Some d) =>
      (Ret tt,
       set_star_data (<[s_name f := d]> (star_data st))
         (match star_data st !! s_name f with
          | Some _ => on_world (add_log (duplicate_record (s_name f))) st
          | None => st
          end))
  | Ret None => (Ret tt, st)
  | Raise e => (Raise e, st)
  end.
Proof.
  unfold load_report. rewrite run_bind, run_lift.
  destruct (parse_star_report v (f_content f)) as [[d|]|e]; try reflexivity.
  cbv beta iota. rewrite run_bind. unfold get at 1. cbv beta iota.
  rewrite run_bind. now destruct (star_data st !! s_name f).
Qed.

Lemma same_report_refl st : same_report st st.
Proof. now repeat split. Qed.

Lemma same_report_trans a b c :
  same_report a b -> same_report b c -> same_report a c.
Proof.
  unfold same_report. intros (A1 & A2 & A3 & A4 & A5 & A6 & A7)
    (B1 & B2 & B3 & B4 & B5 & B6 & B7).
  repeat split; congruence.
Qed.

Lemma load_report_same v f st r st' :
  load_report v f st = (r, st') -> same_report st st'.
Proof.
  rewrite load_report_step.
  destruct (parse_star_report v (f_content f)) as [[d|]|e]; intros [= <- <-];
    try apply same_report_refl.
  now destruct (star_data st !! s_name f).
Qed.

Lemma loop_same v l : forall st r st',
  for_each l (load_report v) st = (r, st') -> same_report st st'.
Proof.
  induction l as [|f l IH]; intros st r st' H.
  - inversion H. apply same_report_refl.
  - rewrite run_for_each_cons in H.
    destruct (load_report v f st) as [[[]|e] st1] eqn:E.
    + eapply same_report_trans; [eapply load_report_same; eauto|eauto].
    + inversion H; subst. eapply load_report_same; eauto.
Qed.

(** The loop over files that return ends normally. *)
Lemma loop_returns v l : forall st,
  Forall (returns v) l -> exists st', for_each l (load_report v) st = (Ret tt, st').
Proof.
  induction l as [|f l IH]; intros st H; [now exists st|].
  apply Forall_cons in H as [[r Hr] H].
  rewrite run_for_each_cons, load_report_step, Hr.
  destruct r as [d|]; now apply IH.
Qed.

(** The sample names of the Dataset after the loop: the last file of a name
    that gave a FieldMap wins, and a file that gave [None] changes
    nothing. *)
Lemma loop_dataset v l : forall st st',
  for_each l (load_report v) st = (Ret tt, st') ->
  forall s d,
    star_data st' !! s = Some d <->
    (exists l1 f l2,
       l = l1 ++ f :: l2 /\ s_name f = s /\
       parse_star_report v (f_content f) = Ret (Some d) /\
       Forall (fun f' => s_name f' = s ->
                         parse_star_report v (f_content f') = Ret None) l2) \/
    (star_data st !! s = Some d /\
     Forall (fun f' => s_name f' = s ->
                       parse_star_report v (f_content f') = Ret None) l).
Proof.
  induction l as [|f l IH]; intros st st' H s d.
  - inversion H; subst. split.
    + intros Hs. right. now split.
    + intros [(l1 & f & l2 & E & _)|[Hs _]]; [|exact Hs].
      now destruct l1.
  - rewrite run_for_each_cons, load_report_step in H.
    destruct (parse_star_report v (f_content f)) as [[df|]|e] eqn:Hf;
      [| |discriminate].
    + rewrite (IH _ _ H s d). clear IH H. simpl. split.
      * intros [(l1 & f0 & l2 & -> & Hn & Hp & Hl)|[Hs Hl]].
        -- left. exists (f :: l1), f0, l2. now repeat split.
        -- destruct (decide (s_name f = s)) as [E|N].
           ++ rewrite E, lookup_insert_eq in Hs. inversion Hs; subst df.
              left. exists [], f, l. now repeat split.
           ++ rewrite lookup_insert_ne in Hs by exact N.
              right. split; [|constructor; [tauto|exact Hl]].
              now destruct (star_data st !! s_name f).
      * intros [(l1 & f0 & l2 & E & Hn & Hp & Hl)|[Hs Hl]].
        -- destruct l1 as [|f1 l1]; simpl in E; inversion E; subst.
           ++ right. split; [|exact Hl]. rewrite lookup_insert_eq. congruence.
           ++ left. exists l1, f0, l2. now repeat split.
        -- apply Forall_cons in Hl as [Hf' Hl].
           right. split; [|exact Hl].
           destruct (decide (s_name f = s)) as [E|N];
             [specialize (Hf' E); congruence|].
           rewrite lookup_insert_ne by exact N.
           now destruct (star_data st !! s_name f).
    + rewrite (IH _ _ H s d). clear IH H. split.
      * intros [(l1 & f0 & l2 & -> & Hn & Hp & Hl)|[Hs Hl]].
        -- left. exists (f :: l1), f0, l2. now repeat split.
        -- right. split; [exact Hs|]. constructor; [auto|exact Hl].
      * intros [(l1 & f0 & l2 & E & Hn & Hp & Hl)|[Hs Hl]].
        -- destruct l1 as [|f1 l1]; simpl in E; inversion E; subst.
           ++ congruence.
           ++ left. exists l1, f0, l2. now repeat split.
        -- apply Forall_cons in Hl as [_ Hl]. now right.
Qed.

(** The log grows by duplicate records only, one for each file that gives a
    FieldMap for a name the Dataset has already. *)
Lemma loop_log v l : forall st st',
  for_each l (load_report v) st = (Ret tt, st') ->
  exists dups,
    log (world st') = log (world st) ++ (duplicate_record <$> dups) /\
    (size (star_data st') + length dups =
     size (star_data st) +
     length (filter (fun f => returns_map (parse_star_report v (f_content f)) = true)
               l))%nat.
Proof.
  induction l as [|f l IH]; intros st st' H.
  - inversion H; subst. exists []. simpl. rewrite app_nil_r. split; [reflexivity|lia].
  - rewrite run_for_each_cons, load_report_step in H.
    destruct (parse_star_report v (f_content f)) as [[df|]|e] eqn:Hf;
      [| |discriminate].
    + destruct (IH _ _ H) as (dups & Hlog & Hsz). clear IH H.
      rewrite filter_cons_True by (now rewrite Hf). simpl length.
      destruct (star_data st !! s_name f) as [d0|] eqn:E; simpl in Hlog, Hsz.
      * exists (s_name f :: dups). split.
        -- rewrite Hlog, <- app_assoc. reflexivity.
        -- rewrite map_size_insert_Some in Hsz by eauto. simpl. lia.
      * exists dups. split; [exact Hlog|].
        rewrite map_size_insert_None in Hsz by exact E. lia.
    + destruct (IH _ _ H) as (dups & Hlog & Hsz).
      exists dups. rewrite filter_cons_False by (now rewrite Hf). now split.
Qed.

(** A file that gives a FieldMap leaves its sample name in the Dataset. *)
Lemma loop_keeps v l : forall st st',
  for_each l (load_report v) st = (Ret tt, st') ->
  (forall s, is_Some (star_data st !! s) -> is_Some (star_data st' !! s)) /\
  (forall f, f ∈ l ->
     returns_map (parse_star_report v (f_content f)) = true ->
     is_Some (star_data st' !! s_name f)).
Proof.
  induction l as [|f l IH]; intros st st' H.
  - inversion H; subst. split; [auto|]. intros f Hf. now apply elem_of_nil in Hf.
  - rewrite run_for_each_cons, load_report_step in H.
    destruct (parse_star_report v (f_content f)) as [[df|]|e] eqn:Hf;
      [| |discriminate].
    + destruct (IH _ _ H) as [K1 K2]. clear IH H. split.
      * intros s Hs. apply K1. simpl.
        destruct (decide (s_name f = s)) as [->|N].
        -- rewrite lookup_insert_eq. eauto.
        -- now rewrite lookup_insert_ne.
      * intros f0 Hin Hr. apply elem_of_cons in Hin as [->|Hin]; [|now apply K2].
        apply K1. simpl. rewrite lookup_insert_eq. eauto.
    + destruct (IH _ _ H) as [K1 K2]. split; [exact K1|].
      intros f0 Hin Hr. apply elem_of_cons in Hin as [->|Hin]; [|now apply K2].
      rewrite Hf in Hr. discriminate.
Qed.

(** Every FieldMap of the Dataset was returned for a file of that name. *)
Lemma loop_from_file v l st st' s d :
  for_each l (load_report v) st = (Ret tt, st') ->
  star_data st' !! s = Some d ->
  (exists f, f ∈ l /\ s_name f = s /\
             parse_star_report v (f_content f) = Ret (Some d)) \/
  star_data st !! s = Some d.
Proof.
  intros H Hs. apply (loop_dataset v l st st' H) in Hs
    as [(l1 & f & l2 & -> & Hn & Hp & _)|[Hs _]]; [left|now right].
  exists f. split; [|now split]. apply elem_of_app. right. apply list_elem_of_here.
Qed.

Lemma load_reports_run v found st :
  load_reports v found st = for_each found (load_report v) (set_star_data ∅ st).
Proof. reflexivity. Qed.

Lemma init_run v items cfg found st :
  init v items cfg found st =
  match for_each found (load_report v)
          (set_star_data ∅ (set_static "STAR" "star" [Html intro_html] st)) with
  | (Ret _, st1) => report v items cfg st1
  | (Raise e, st1) => (Raise e, st1)
  end.
Proof.
  unfold init. rewrite run_bind. unfold modify at 1. cbv beta iota.
  rewrite run_bind, load_reports_run.
  now destruct (for_each found (load_report v) _) as [[[]|e] st1].
Qed.

Lemma div_million v y :
  py_div v (PyFloat y) (PyInt 1000000) = Ret (PyFloat (F64.div y million)).
Proof. reflexivity. Qed.

Lemma stats_row_run v sn fm st :
  has_columns fm ->
  stats_row v (sn, fm) st = (Ret tt, with_row sn fm st).
Proof.
  intros [[x Hx] [y Hy]]. unfold stats_row, dict_get. cbn [fst snd].
  rewrite Hx, Hy, run_bind, run_lift. cbv beta iota.
  rewrite run_bind. unfold modify at 1. cbv beta iota.
  rewrite run_bind, run_lift. cbv beta iota.
  rewrite run_bind, run_lift, div_million. cbv beta iota.
  unfold modify, with_row, on_world, set_cell, stats_cells, field.
  rewrite Hx, Hy. cbn. rewrite lookup_insert_eq. cbn.
  now rewrite insert_insert_eq.
Qed.

(** A turn on a sample without one of the two columns raises [KeyError]
    and leaves the data file, the log and the headers as they are. *)
Lemma stats_row_missing v sn fm st :
  (forall x, fm !! "uniquely_mapped" = Some x -> is_float x) ->
  ~ has_columns fm ->
  (forall x, fm !! "uniquely_mapped_percent" = Some x -> is_float x) ->
  exists k st',
    stats_row v (sn, fm) st = (Raise (KeyError k), st') /\
    k ∈ ["uniquely_mapped_percent"; "uniquely_mapped"] /\
    star_data st' = star_data st /\ intro st' = intro st /\
    sections st' = sections st /\
    log (world st') = log (world st) /\
    written (world st') = written (world st) /\
    general_stats_headers (world st') = general_stats_headers (world st).
Proof.
  intros Hfl Hno Hfl'. unfold stats_row, dict_get. cbn [fst snd].
  destruct (fm !! "uniquely_mapped_percent") as [x|] eqn:Hx.
  - destruct (fm !! "uniquely_mapped") as [y|] eqn:Hy.
    + exfalso. apply Hno. split.
      * destruct x as [x|n]; [eauto|]. now destruct (Hfl' _ eq_refl).
      * destruct y as [y|n]; [eauto|]. now destruct (Hfl _ eq_refl).
    + rewrite run_bind, run_lift. cbv beta iota.
      rewrite run_bind. unfold modify at 1. cbv beta iota.
      rewrite run_bind, run_lift. cbv beta iota.
      eexists _, _. split; [reflexivity|]. split; [mem|]. now repeat split.
  - rewrite run_bind, run_lift. cbv beta iota.
    eexists _, _. split; [reflexivity|]. split; [mem|]. now repeat split.
Qed.

(** The loop of [star_stats_table] over rows that all have the two
    columns. *)
Lemma rows_loop v l : forall st,
  NoDup l.*1 -> Forall (fun row => has_columns row.2) l ->
  exists st',
    for_each l (stats_row v) st = (Ret tt, st') /\
    star_data st' = star_data st /\ intro st' = intro st /\
    sections st' = sections st /\ name st' = name st /\
    anchor st' = anchor st /\
    log (world st') = log (world st) /\
    written (world st') = written (world st) /\
    general_stats_headers (world st') = general_stats_headers (world st) /\
    (forall sn fm, (sn, fm) ∈ l ->
       general_stats_rows (world st') !! sn =
       Some (stats_cells fm (default ∅ (general_stats_rows (world st) !! sn)))) /\
    (forall sn, sn ∉ l.*1 ->
       general_stats_rows (world st') !! sn =
       general_stats_rows (world st) !! sn).
Proof.
  induction l as [|[sn0 fm0] l IH]; intros st Hnd Hall.
  - exists st. repeat split; auto. intros sn fm H. now apply elem_of_nil in H.
  - simpl in Hnd. apply NoDup_cons in Hnd as [Hout Hnd].
    apply Forall_cons in Hall as [H0 Hall]. simpl in H0.
    rewrite run_for_each_cons, (stats_row_run v sn0 fm0 st H0).
    destruct (IH (with_row sn0 fm0 st) Hnd Hall)
      as (st' & Hrun & E1 & E2 & E3 & E4 & E5 & E6 & E7 & E8 & Hin & Hnot).
    exists st'. split; [exact Hrun|]. simpl in *.
    repeat (split; [congruence|]). split.
    + intros sn fm Hsn. apply elem_of_cons in Hsn as [Heq|Hsn].
      * inversion Heq; subst sn fm. rewrite (Hnot sn0 Hout).
        apply lookup_insert_eq.
      * rewrite (Hin sn fm Hsn).
        assert (sn <> sn0) as Hne.
        { intros ->. apply Hout. apply list_elem_of_fmap. now exists (sn0, fm). }
        now rewrite lookup_insert_ne by congruence.
    + intros sn Hsn. apply not_elem_of_cons in Hsn as [Hne Hsn].
      rewrite (Hnot sn Hsn). now rewrite lookup_insert_ne by congruence.
Qed.

(** The loop over rows one of which lacks a column. *)
Lemma rows_loop_missing v l : forall st,
  Forall (fun row => forall k x, row.2 !! k = Some x ->
                       k ∈ ["uniquely_mapped_percent"; "uniquely_mapped"] ->
                       is_float x) l ->
  Exists (fun row => ~ has_columns row.2) l ->
  exists k st',
    for_each l (stats_row v) st = (Raise (KeyError k), st') /\
    k ∈ ["uniquely_mapped_percent"; "uniquely_mapped"] /\
    star_data st' = star_data st /\ intro st' = intro st /\
    sections st' = sections st /\
    log (world st') = log (world st) /\
    written (world st') = written (world st) /\
    general_stats_headers (world st') = general_stats_headers (world st).
Proof.
  induction l as [|[sn0 fm0] l IH]; intros st Hfl Hex.
  - now apply Exists_nil in Hex.
  - apply Forall_cons in Hfl as [Hfl0 Hfl]. simpl in Hfl0.
    rewrite run_for_each_cons.
    assert (has_columns fm0 \/ ~ has_columns fm0) as [Hc|Hn].
    { unfold has_columns.
      destruct (fm0 !! "uniquely_mapped_percent") as [[x|n]|] eqn:Hx;
        destruct (fm0 !! "uniquely_mapped") as [[y|n']|] eqn:Hy;
        try (left; split; eauto; fail);
        right; intros [[a Ha] [b Hb]]; congruence. }
    + rewrite (stats_row_run v sn0 fm0 st Hc).
      apply Exists_cons in Hex as [Hex|Hex]; [now destruct Hex|].
      destruct (IH (with_row sn0 fm0 st) Hfl Hex)
        as (k & st' & Hrun & Hk & E1 & E2 & E3 & E4 & E5 & E6).
      exists k, st'. split; [exact Hrun|]. split; [exact Hk|].
      simpl in *. now repeat split.
    + destruct (stats_row_missing v sn0 fm0 st) as (k & st' & Hrun & H);
        [intros x Hx; apply (Hfl0 _ _ Hx); mem | exact Hn
        |intros x Hx; apply (Hfl0 _ _ Hx); mem|].
      rewrite Hrun. now exists k, st'.
Qed.

(** [star_stats_table] on a Dataset all of whose samples have the two
    columns. *)
Lemma stats_table_run v items st :
  enumerates items ->
  (forall sn fm, star_data st !! sn = Some fm -> has_columns fm) ->
  exists st',
    star_stats_table v items st = (Ret tt, st') /\
    star_data st' = star_data st /\ intro st' = intro st /\
    sections st' = sections st /\ name st' = name st /\
    anchor st' = anchor st /\
    log (world st') = log (world st) /\
    written (world st') = written (world st) /\
    general_stats_headers (world st') =
      <["uniquely_mapped" := Html th_mapped]>
        (<["uniquely_mapped_percent" := Html th_percent]>
           (general_stats_headers (world st))) /\
    (forall sn,
       general_stats_rows (world st') !! sn =
       match star_data st !! sn with
       | Some fm =>
           Some (stats_cells fm
                   (default ∅ (general_stats_rows (world st) !! sn)))
       | None => general_stats_rows (world st) !! sn
       end).
Proof.
  intros Hperm Hall. unfold star_stats_table.
  rewrite run_bind. unfold modify at 1. cbv beta iota.
  rewrite run_bind. unfold modify at 1. cbv beta iota.
  rewrite run_bind. unfold get at 1. cbv beta iota.
  set (st1 := on_world _ (on_world _ st)).
  change (star_data st1) with (star_data st).
  specialize (Hperm (star_data st)).
  destruct (rows_loop v (items (star_data st)) st1)
    as (st' & Hrun & E1 & E2 & E3 & E4 & E5 & E6 & E7 & E8 & Hin & Hnot).
  { rewrite Hperm. apply NoDup_fst_map_to_list. }
  { apply Forall_forall. intros [sn fm] H. rewrite Hperm in H.
    apply elem_of_map_to_list in H. simpl. eapply Hall; eauto. }
  exists st'. split; [exact Hrun|]. subst st1. simpl in *.
  repeat (split; [congruence|]).
  intros sn. destruct (star_data st !! sn) as [fm|] eqn:E.
  - apply Hin. rewrite Hperm. now apply elem_of_map_to_list.
  - apply Hnot. intros H. apply list_elem_of_fmap in H as [[sn' fm] [-> H]].
    rewrite Hperm in H. apply elem_of_map_to_list in H. simpl in E. congruence.
Qed.

Lemma report_nonempty v items cfg st :
  star_data st <> ∅ ->
  report v items cfg st =
  (_ ← log_info "Found {} reports" [ANat (size (star_data st))];
   _ ← modify (on_world (add_written "multiqc_star.txt" (star_data st)));
   _ ← modify (set_sections []);
   _ ← star_stats_table v items;
   chart ← star_alignment_chart;
   modify (add_intro chart)) st.
Proof.
  intros Hne. unfold report. rewrite run_bind. unfold get at 1. cbv beta iota.
  destruct (decide (size (star_data st) = 0%nat)) as [Hsz|]; [|reflexivity].
  now apply map_size_empty_iff in Hsz.
Qed.

(** The loop over files without any field changes nothing. *)
Lemma loop_none v l st :
  Forall (fun f => parse_star_report v (f_content f) = Ret None) l ->
  for_each l (load_report v) st = (Ret tt, st).
Proof.
  induction 1 as [|f l Hf _ IH]; [reflexivity|].
  now rewrite run_for_each_cons, load_report_step, Hf.
Qed.

Lemma report_empty v items cfg st :
  star_data st = ∅ ->
  report v items cfg st =
  (Raise UserWarning,
   on_world
     (add_log {| lvl := DEBUG; template := "Could not find any reports in {}";
                 args := [AStr (analysis_dir cfg)] |}) st).
Proof.
  intros He. unfold report. rewrite run_bind. unfold get at 1.
  cbv beta iota. rewrite He, map_size_empty.
  destruct (decide (0%nat = 0%nat)); [reflexivity | congruence].
Qed.

(** [__init__] on files that all give a FieldMap with the two columns. *)
Lemma init_reports v items cfg found st :
  enumerates items ->
  found <> [] ->
  Forall (fun f => exists d, parse_star_report v (f_content f) = Ret (Some d) /\
                             has_columns d) found ->
  exists st',
    init v items cfg found st = (Ret tt, st') /\
    name st' = "STAR" /\ anchor st' = "star" /\ sections st' = [] /\
    written (world st') =
      written (world st) ++ [("multiqc_star.txt", star_data st')] /\
    intro st' =
      [Html intro_html; Bargraph (star_data st') chart_keys chart_config] /\
    found_record (size (star_data st')) ∈ log (world st') /\
    (forall f, f ∈ found ->
       is_Some (star_data st' !! s_name f) /\
       is_Some (general_stats_rows (world st') !! s_name f)).
Proof.
  intros Hperm Hne Hall. rewrite init_run.
  set (st0 := set_star_data ∅ (set_static "STAR" "star" [Html intro_html] st)).
  assert (Forall (returns v) found) as Hret.
  { eapply Forall_impl; [exact Hall|]. intros f (d & Hd & _). now exists (Some d). }
  destruct (loop_returns v found st0 Hret) as [st1 Hrun]. rewrite Hrun.
  destruct (loop_same v found _ _ _ Hrun) as (N1 & N2 & N3 & N4 & N5 & N6 & N7).
  destruct (loop_keeps v found _ _ Hrun) as [_ Hkeep].
  assert (forall f, f ∈ found -> is_Some (star_data st1 !! s_name f)) as Hk.
  { intros f Hf. apply Hkeep; [exact Hf|].
    rewrite Forall_forall in Hall. destruct (Hall f Hf) as (d & -> & _).
    reflexivity. }
  assert (star_data st1 <> ∅) as Hdata.
  { destruct found as [|f found]; [congruence|].
    destruct (Hk f (list_elem_of_here _ _)) as [d Hd]. intros E.
    rewrite E, lookup_empty in Hd. discriminate. }
  assert (forall sn fm, star_data st1 !! sn = Some fm -> has_columns fm) as Hcols.
  { intros sn fm Hs.
    destruct (loop_from_file v found _ _ _ _ Hrun Hs) as [(f & Hf & _ & Hp)|H0].
    - rewrite Forall_forall in Hall. destruct (Hall f Hf) as (d & Hd & Hc).
      congruence.
    - subst st0. simpl in H0. now rewrite lookup_empty in H0. }
  rewrite (report_nonempty v items cfg st1 Hdata).
  rewrite run_bind. unfold log_info at 1, modify at 1. cbv beta iota.
  rewrite run_bind. unfold modify at 1. cbv beta iota.
  rewrite run_bind. unfold modify at 1. cbv beta iota.
  set (st2 := set_sections _ (on_world _ (on_world _ st1))).
  assert (forall sn fm, star_data st2 !! sn = Some fm -> has_columns fm) as Hcols2
    by exact Hcols.
  rewrite run_bind.
  destruct (stats_table_run v items st2 Hperm Hcols2)
    as (st3 & Hrun3 & E1 & E2 & E3 & E4 & E5 & E6 & E7 & E8 & Hrows).
  rewrite Hrun3.
  rewrite run_bind. unfold star_alignment_chart. rewrite run_bind.
  unfold get at 1. cbv beta iota. rewrite run_ret. unfold modify.
  eexists. split; [reflexivity|].
  subst st2 st0. simpl in *.
  rewrite E1, E2, E3, E4, E5, E6, E7, N1, N2, N3, N5.
  repeat (split; [reflexivity|]). split.
  - apply elem_of_app. right. apply list_elem_of_here.
  - intros f Hf. destruct (Hk f Hf) as [d Hd]. split; [eauto|].
    rewrite Hrows, Hd. eauto.
Qed.

Lemma key_order_enumerates : enumerates MoreSamples.key_order.
Proof. intros d. reflexivity. Qed.

(** The Dataset of an object made with one sample. *)
Lemma star_with_lookup s (fm : gmap string pyval) sn fm' :
  star_data (MoreSamples.star_with (MoreSamples.one_sample s fm)) !! sn
    = Some fm' ->
  sn = s /\ fm' = fm.
Proof.
  unfold MoreSamples.star_with, MoreSamples.one_sample. simpl. intros H.
  apply lookup_singleton_Some in H. now destruct H.
Qed.

Lemma star_with_lookup_eq s (fm : gmap string pyval) :
  star_data (MoreSamples.star_with (MoreSamples.one_sample s fm)) !! s
    = Some fm.
Proof.
  unfold MoreSamples.star_with, MoreSamples.one_sample. simpl.
  apply lookup_singleton_eq.
Qed.
End ReportFacts.

(** ** The ignore-list, the empty Dataset and the kraken2 module *)
Module ModuleClaims.
Import Re Samples MoreSamples StarSpec ReportSpec ReportFacts.

Lemma ignore_samples_drops cfg (d : gmap string (gmap string pyval)) s :
  sample_ignored cfg s = true -> ignore_samples cfg d !! s = None.
Proof.
  intros Hs. unfold ignore_samples. apply map_lookup_filter_None. right.
  intros x _. simpl. now rewrite Hs.
Qed.

Lemma ignore_samples_keeps cfg (d : gmap string (gmap string pyval)) s :
  sample_ignored cfg s = false -> ignore_samples cfg d !! s = d !! s.
Proof.
  intros Hs. unfold ignore_samples.
  destruct (d !! s) as [x|] eqn:E.
  - apply map_lookup_filter_Some. now split.
  - apply map_lookup_filter_None. now left.
Qed.

(** The complete log gives a FieldMap with the two columns of the table,
    under both versions. *)
Lemma star_log_columns v :
  exists d, Star.parse_star_report v star_log = Ret (Some d) /\ has_columns d.
Proof.
  exists (returned (Star.parse_star_report v star_log)). split.
  - apply StarFacts.returns_map_returned. destruct v; vm_compute; reflexivity.
  - split;
      [ exists (field (returned (Star.parse_star_report v star_log))
                  "uniquely_mapped_percent")
      | exists (field (returned (Star.parse_star_report v star_log))
                  "uniquely_mapped") ];
      destruct v; vm_compute; reflexivity.
Qed.

(** C7: the STAR module never consults the ignore-list. With a configuration
    that ignores the sample name [ctrl] and one complete log of that name,
    [__init__] ends normally and [ctrl] is in the Dataset, in the data file
    handed to the writer, in the general statistics table and in the data of
    the bar chart, in whatever order the table meets the samples. *)
Theorem star_reports_ignored_sample v items :
  enumerates items ->
  let run := Star.init v items ignore_ctrl [file "ctrl" star_log] Star.blank in
  sample_ignored ignore_ctrl "ctrl" = true /\
  run.1 = Ret tt /\
  has_sample (Star.star_data run.2) "ctrl" = true /\
  (written (Star.world run.2)).*1 = ["multiqc_star.txt"] /\
  forallb (fun fd => has_sample fd.2 "ctrl") (written (Star.world run.2))
    = true /\
  has_sample (general_stats_rows (Star.world run.2)) "ctrl" = true /\
  existsb (chart_has_sample "ctrl") (Star.intro run.2) = true.
Proof.
  intros Hperm run.
  destruct (init_reports v items ignore_ctrl [file "ctrl" star_log] Star.blank
              Hperm)
    as (st' & Hrun & _ & _ & _ & Hw & Hi & _ & Hin).
  { discriminate. }
  { repeat constructor. apply star_log_columns. }
  destruct (Hin (file "ctrl" star_log) (list_elem_of_here _ _)) as [Hd Hr].
  simpl in Hd, Hr.
  assert (has_sample (Star.star_data st') "ctrl" = true) as Sd
    by (now apply bool_decide_eq_true).
  assert (has_sample (general_stats_rows (Star.world st')) "ctrl" = true) as Sr
    by (now apply bool_decide_eq_true).
  subst run. rewrite Hrun. cbn [fst snd]. rewrite Hw, Hi. simpl.
  rewrite Sd, Sr. now repeat split.
Qed.

Lemma star_reports_ignored_sample_witness :
  let run :=
    Star.init Py3 key_order ignore_ctrl [file "ctrl" star_log] Star.blank in
  sample_ignored ignore_ctrl "ctrl" = true /\
  run.1 = Ret tt /\
  has_sample (Star.star_data run.2) "ctrl" = true /\
  (written (Star.world run.2)).*1 = ["multiqc_star.txt"] /\
  forallb (fun fd => has_sample fd.2 "ctrl") (written (Star.world run.2))
    = true /\
  has_sample (general_stats_rows (Star.world run.2)) "ctrl" = true /\
  existsb (chart_has_sample "ctrl") (Star.intro run.2) = true.
Proof.
  apply (star_reports_ignored_sample Py3 key_order key_order_enumerates).
Defined.

(** The kraken2 file does not compile: the loop of [parse_kraken_log] has no
    statement in its block. *)
Lemma kraken2_compile : Kraken2.compile Kraken2.source = Raise IndentationError.
Proof. reflexivity. Qed.

Lemma kraken2_run cfg base found st :
  Kraken2.run cfg base found st = (Raise IndentationError, st).
Proof.
  unfold Kraken2.run. now rewrite run_bind, run_lift, kraken2_compile.
Qed.

(** C8: when the Dataset of the STAR module is empty after parsing, which
    covers the run in which no log file was found, [__init__] logs a debug
    record and raises [UserWarning], which the pipeline takes as the skip;
    up to there it has handed no file to the writer and has put nothing in
    the general statistics table nor any chart in the module's HTML. The
    kraken2 module never gets to its [raise UserWarning]: its file does not
    compile, and every run of it, also one without any log file, ends in
    [IndentationError], a crash of the module. *)
Theorem empty_dataset_skip_star_only :
  (forall v items cfg found st,
     Forall (fun f => Star.parse_star_report v (f_content f) = Ret None) found ->
     exists st',
       Star.init v items cfg found st = (Raise UserWarning, st') /\
       pipeline_outcome (Star.init v items cfg found st).1 = Skipped /\
       Star.star_data st' = ∅ /\
       written (Star.world st') = written (Star.world st) /\
       general_stats_headers (Star.world st')
         = general_stats_headers (Star.world st) /\
       general_stats_rows (Star.world st')
         = general_stats_rows (Star.world st) /\
       Star.intro st' = [Html Star.intro_html]) /\
  (forall cfg base found st,
     Kraken2.run cfg base found st = (Raise IndentationError, st) /\
     pipeline_outcome (Kraken2.run cfg base found st).1
       = Crashed IndentationError).
Proof.
  split.
  - intros v items cfg found st Hnone.
    rewrite init_run, (loop_none _ _ _ Hnone), report_empty by reflexivity.
    eexists. split; [reflexivity|]. now repeat split.
  - intros cfg base found st. rewrite kraken2_run. now split.
Qed.

(** C10: in every run, with a log file or without one, no statement of the
    kraken2 [__init__] is executed and no [AttributeError] is raised for the
    undefined [parse_kraken2_log]: the file does not compile, since the loop
    of [parse_kraken_log] has no body, and the run ends in
    [IndentationError]. The Dataset is not populated, no data file is
    written and no table is rendered: the object and the report are as they
    were. *)
Theorem kraken2_never_loads cfg base found st :
  let r := Kraken2.run cfg base found st in
  r = (Raise IndentationError, st) /\
  r.1 <> Raise (AttributeError "parse_kraken2_log") /\
  Kraken2.kraken2_data r.2 = Kraken2.kraken2_data st /\
  written (Kraken2.world r.2) = written (Kraken2.world st) /\
  general_stats_rows (Kraken2.world r.2)
    = general_stats_rows (Kraken2.world st).
Proof.
  cbv zeta. rewrite kraken2_run. now repeat split.
Qed.

(** C9: the line pattern of [parse_kraken_log] matches a report line with one
    or two blanks before a percentage below 100 and a one-letter rank code,
    at any depth; it matches neither a line at 100.00 percent, nor a line of a
    sub-rank such as [S1], nor a line whose percentage has no blank before
    it, with or without MULTILINE, in Python 2 as in Python 3. *)
Theorem kraken2_regex_misses_report_lines v multiline :
  is_Some (search multiline (Kraken2.regex v) species_line) /\
  is_Some (search multiline (Kraken2.regex v) unclassified_line) /\
  search multiline (Kraken2.regex v) all_unclassified_line = None /\
  search multiline (Kraken2.regex v) subrank_line = None /\
  search multiline (Kraken2.regex v) unpadded_line = None.
Proof.
  destruct v, multiline; repeat split; vm_compute; eauto.
Qed.
End ModuleClaims.

(** ** Properties of the STAR module *)
Module ReportProperties.
Import Re Star StarSpec StarFacts Samples MoreSamples ReportSpec.
Import ParseFacts ReportFacts.

(** X12: when [parse_star_report] returns for every file, the loop of
    [__init__] ends normally and the Dataset maps a sample name to a
    FieldMap exactly when that FieldMap was returned for a file of that name
    and no later file of the name gave a FieldMap: a file that gave [None]
    neither adds nor removes a sample. *)
Theorem dataset_holds_last_parsed v found st :
  Forall (returns v) found ->
  exists st',
    load_reports v found st = (Ret tt, st') /\
    forall s d,
      star_data st' !! s = Some d <->
      exists l1 f l2,
        found = l1 ++ f :: l2 /\ s_name f = s /\
        parse_star_report v (f_content f) = Ret (Some d) /\
        Forall (fun f' => s_name f' = s ->
                          parse_star_report v (f_content f') = Ret None) l2.
Proof.
  intros Hall. rewrite load_reports_run.
  destruct (loop_returns v found (set_star_data ∅ st) Hall) as [st' Hrun].
  exists st'. split; [exact Hrun|]. intros s d.
  rewrite (loop_dataset v found _ _ Hrun s d). simpl. split.
  - intros [H|[H _]]; [exact H|]. now rewrite lookup_empty in H.
  - now left.
Qed.

Lemma dataset_holds_last_parsed_witness :
  exists st',
    load_reports Py3 [file "s1" star_log; file "s1" foreign_log] blank
      = (Ret tt, st') /\
    forall s d,
      star_data st' !! s = Some d <->
      exists l1 f l2,
        [file "s1" star_log; file "s1" foreign_log] = l1 ++ f :: l2 /\
        s_name f = s /\
        parse_star_report Py3 (f_content f) = Ret (Some d) /\
        Forall (fun f' => s_name f' = s ->
                          parse_star_report Py3 (f_content f') = Ret None) l2.
Proof.
  apply (dataset_holds_last_parsed Py3
           [file "s1" star_log; file "s1" foreign_log] blank).
  repeat constructor.
  - exists (Some (returned (parse_star_report Py3 star_log))).
    apply StarFacts.returns_map_returned. vm_compute. reflexivity.
  - exists None. vm_compute. reflexivity.
Defined.

(** X13: the loop adds to the log nothing but "Duplicate sample name"
    records, and every file that gave a FieldMap is accounted for: the
    number of samples of the Dataset plus the number of these records is the
    number of such files. *)
Theorem parsed_files_accounted v found st st' :
  load_reports v found st = (Ret tt, st') ->
  exists dups,
    log (world st') = log (world st) ++ (duplicate_record <$> dups) /\
    (size (star_data st') + length dups =
     length (filter (fun f => returns_map (parse_star_report v (f_content f)) = true)
               found))%nat.
Proof.
  rewrite load_reports_run. intros H.
  destruct (loop_log v found _ _ H) as (dups & Hlog & Hsz).
  exists dups. simpl in Hlog, Hsz. rewrite map_size_empty in Hsz.
  split; [exact Hlog|exact Hsz].
Qed.

Lemma parsed_files_accounted_witness :
  let found := [file "s1" star_log; file "s2" foreign_log;
                file "s1" truncated_log] in
  let st' := (load_reports Py3 found blank).2 in
  exists dups,
    log (world st') = log (world blank) ++ (duplicate_record <$> dups) /\
    (size (star_data st') + length dups =
     length (filter (fun f => returns_map (parse_star_report Py3 (f_content f))
                              = true) found))%nat.
Proof.
  apply (parsed_files_accounted Py3
           [file "s1" star_log; file "s2" foreign_log; file "s1" truncated_log]
           blank).
  apply run_outcome. vm_compute. reflexivity.
Defined.

(** X14: when [parse_star_report] raises for a file, and returned for the
    files before it, [__init__] raises the same exception and leaves the
    object as the loop over the files before it alone leaves it: the files
    after it are not read, the Dataset and the log are those of the files
    before it, no file has been handed to the writer, the general statistics
    table is as it was and the module's HTML is the introduction alone. *)
Theorem raising_file_aborts_init v items cfg l1 f l2 e st :
  Forall (returns v) l1 ->
  parse_star_report v (f_content f) = Raise e ->
  exists st',
    load_reports v l1 (set_static "STAR" "star" [Html intro_html] st)
      = (Ret tt, st') /\
    init v items cfg (l1 ++ f :: l2) st = (Raise e, st') /\
    intro st' = [Html intro_html] /\
    sections st' = sections st /\
    written (world st') = written (world st) /\
    general_stats_headers (world st') = general_stats_headers (world st) /\
    general_stats_rows (world st') = general_stats_rows (world st).
Proof.
  intros Hall Hf. rewrite init_run, run_for_each_app.
  set (st0 := set_star_data ∅ (set_static "STAR" "star" [Html intro_html] st)).
  destruct (loop_returns v l1 st0 Hall) as [st1 Hrun]. rewrite Hrun.
  rewrite run_for_each_cons, load_report_step, Hf.
  exists st1. split; [exact Hrun|]. split; [reflexivity|].
  destruct (loop_same v l1 _ _ _ Hrun) as (_ & _ & E3 & E4 & E5 & E6 & E7).
  subst st0. simpl in *. now repeat split.
Qed.

Lemma raising_file_aborts_init_witness :
  exists st',
    load_reports Py3 [file "s1" star_log]
      (set_static "STAR" "star" [Html intro_html] blank) = (Ret tt, st') /\
    init Py3 key_order ignore_ctrl
      ([file "s1" star_log] ++ file "s2" all_mapped_log :: [file "s3" star_log])
      blank = (Raise ZeroDivisionError, st') /\
    intro st' = [Html intro_html] /\
    sections st' = sections blank /\
    written (world st') = written (world blank) /\
    general_stats_headers (world st') = general_stats_headers (world blank) /\
    general_stats_rows (world st') = general_stats_rows (world blank).
Proof.
  apply (raising_file_aborts_init Py3 key_order ignore_ctrl
           [file "s1" star_log]
           (file "s2" all_mapped_log) [file "s3" star_log] ZeroDivisionError
           blank).
  - repeat constructor.
    exists (Some (returned (parse_star_report Py3 star_log))).
    apply StarFacts.returns_map_returned. vm_compute. reflexivity.
  - vm_compute. reflexivity.
Defined.

(** X15: on a Dataset all of whose samples have the two columns,
    [star_stats_table] sets the two headers and, in the row of each sample
    of the Dataset, the two cells, the second with
    [uniquely_mapped / 1000000] as a float division in Python 2 as in
    Python 3; the other cells of these rows, the rows of other samples, the
    log and the written files are as they were. The result does not depend
    on the order in which the loop meets the samples. *)
Theorem stats_table_rows v items st :
  enumerates items ->
  (forall sn fm, star_data st !! sn = Some fm -> has_columns fm) ->
  exists st',
    star_stats_table v items st = (Ret tt, st') /\
    star_data st' = star_data st /\
    log (world st') = log (world st) /\
    written (world st') = written (world st) /\
    general_stats_headers (world st') =
      <["uniquely_mapped" := Html th_mapped]>
        (<["uniquely_mapped_percent" := Html th_percent]>
           (general_stats_headers (world st))) /\
    (forall sn,
       general_stats_rows (world st') !! sn =
       match star_data st !! sn with
       | Some fm =>
           Some (stats_cells fm
                   (default ∅ (general_stats_rows (world st) !! sn)))
       | None => general_stats_rows (world st) !! sn
       end).
Proof.
  intros Hperm Hall.
  destruct (stats_table_run v items st Hperm Hall)
    as (st' & Hrun & E1 & _ & _ & _ & _ & E6 & E7 & E8 & Hrows).
  exists st'. now repeat split.
Qed.

Lemma stats_table_rows_witness :
  let st := star_with
              (one_sample "s1" (returned (parse_star_report Py3 star_log))) in
  exists st',
    star_stats_table Py3 key_order st = (Ret tt, st') /\
    star_data st' = star_data st /\
    log (world st') = log (world st) /\
    written (world st') = written (world st) /\
    general_stats_headers (world st') =
      <["uniquely_mapped" := Html th_mapped]>
        (<["uniquely_mapped_percent" := Html th_percent]>
           (general_stats_headers (world st))) /\
    (forall sn,
       general_stats_rows (world st') !! sn =
       match star_data st !! sn with
       | Some fm =>
           Some (stats_cells fm
                   (default ∅ (general_stats_rows (world st) !! sn)))
       | None => general_stats_rows (world st) !! sn
       end).
Proof.
  apply (stats_table_rows Py3 key_order
           (star_with
              (one_sample "s1" (returned (parse_star_report Py3 star_log))))
           key_order_enumerates).
  intros sn fm H. apply star_with_lookup in H as [_ ->].
  split;
      [ exists (field (returned (parse_star_report Py3 star_log))
                  "uniquely_mapped_percent")
      | exists (field (returned (parse_star_report Py3 star_log))
                  "uniquely_mapped") ];
      vm_compute; reflexivity.
Defined.

(** X16: when a sample of a non-empty Dataset lacks one of the two columns
    (its log has no "Uniquely mapped reads %" or no "Uniquely mapped reads
    number" line), [__init__] raises [KeyError] from [star_stats_table], in
    whatever order the loop meets the samples: by then "Found n reports" is
    logged and the Dataset is handed to the writer, and no chart is
    added. *)
Theorem missing_column_raises_after_write v items cfg st sn fm :
  enumerates items ->
  star_data st !! sn = Some fm -> ~ has_columns fm ->
  (forall sn fm k x,
     star_data st !! sn = Some fm -> fm !! k = Some x ->
     k ∈ ["uniquely_mapped_percent"; "uniquely_mapped"] -> is_float x) ->
  exists k st',
    report v items cfg st = (Raise (KeyError k), st') /\
    k ∈ ["uniquely_mapped_percent"; "uniquely_mapped"] /\
    log (world st') = log (world st) ++ [found_record (size (star_data st))] /\
    written (world st') =
      written (world st) ++ [("multiqc_star.txt", star_data st)] /\
    intro st' = intro st.
Proof.
  intros Hperm Hsn Hno Hfl. specialize (Hperm (star_data st)).
  assert (star_data st <> ∅) as Hne.
  { intros E. rewrite E, lookup_empty in Hsn. discriminate. }
  rewrite (report_nonempty v items cfg st Hne).
  rewrite run_bind. unfold log_info at 1, modify at 1. cbv beta iota.
  rewrite run_bind. unfold modify at 1. cbv beta iota.
  rewrite run_bind. unfold modify at 1. cbv beta iota.
  rewrite run_bind. unfold star_stats_table.
  rewrite run_bind. unfold modify at 1. cbv beta iota.
  rewrite run_bind. unfold modify at 1. cbv beta iota.
  rewrite run_bind. unfold get at 1. cbv beta iota.
  set (st1 := on_world _ (on_world _ (set_sections _ (on_world _ (on_world _ st))))).
  change (star_data st1) with (star_data st).
  destruct (rows_loop_missing v (items (star_data st)) st1)
    as (k & st' & Hrun & Hk & E1 & E2 & E3 & E4 & E5 & E6).
  { apply Forall_forall. intros [sn' fm'] H k x Hx Hk. rewrite Hperm in H.
    apply elem_of_map_to_list in H. simpl in Hx. eapply Hfl; eauto. }
  { apply Exists_exists. exists (sn, fm). split; [|exact Hno].
    rewrite Hperm. now apply elem_of_map_to_list. }
  rewrite Hrun. exists k, st'. split; [reflexivity|]. split; [exact Hk|].
  subst st1. simpl in *. now repeat split.
Qed.

Lemma missing_column_raises_after_write_witness :
  let st := star_with
              (one_sample "s1"
                 (returned (parse_star_report Py3 reads_only_log))) in
  exists k st',
    report Py3 key_order ignore_ctrl st = (Raise (KeyError k), st') /\
    k ∈ ["uniquely_mapped_percent"; "uniquely_mapped"] /\
    log (world st') = log (world st) ++ [found_record (size (star_data st))] /\
    written (world st') =
      written (world st) ++ [("multiqc_star.txt", star_data st)] /\
    intro st' = intro st.
Proof.
  apply (missing_column_raises_after_write Py3 key_order ignore_ctrl
           (star_with
              (one_sample "s1"
                 (returned (parse_star_report Py3 reads_only_log))))
           "s1" (returned (parse_star_report Py3 reads_only_log))).
  - apply key_order_enumerates.
  - apply star_with_lookup_eq.
  - intros [[x Hx] _]. vm_compute in Hx. discriminate.
  - intros sn fm k x H Hx Hk. apply star_with_lookup in H as [_ ->].
    apply (parsed_floats Py3 reads_only_log
             (returned (parse_star_report Py3 reads_only_log)) k x);
      [| |exact Hx].
    + apply StarFacts.returns_map_returned. vm_compute. reflexivity.
    + apply elem_of_cons in Hk as [->|Hk];
        [refine (bool_decide_unpack _ _); vm_compute; exact I|].
      apply elem_of_cons in Hk as [->|Hk];
        [refine (bool_decide_unpack _ _); vm_compute; exact I|].
      now apply elem_of_nil in Hk.
Defined.

(** X17: when every file gives a FieldMap with the two columns, and there
    is a file, [__init__] ends normally: the object is named, the Dataset is
    handed once to the writer as [multiqc_star.txt], the sections are empty,
    the HTML is the introduction and the bar chart of the same Dataset,
    "Found n reports" is logged with the number of samples, and every file's
    sample name is in the Dataset and has a row in the table. *)
Theorem init_succeeds v items cfg found st :
  enumerates items ->
  found <> [] ->
  Forall (fun f => exists d, parse_star_report v (f_content f) = Ret (Some d) /\
                             has_columns d) found ->
  exists st',
    init v items cfg found st = (Ret tt, st') /\
    name st' = "STAR" /\ anchor st' = "star" /\ sections st' = [] /\
    written (world st') =
      written (world st) ++ [("multiqc_star.txt", star_data st')] /\
    intro st' =
      [Html intro_html; Bargraph (star_data st') chart_keys chart_config] /\
    found_record (size (star_data st')) ∈ log (world st') /\
    (forall f, f ∈ found ->
       is_Some (star_data st' !! s_name f) /\
       is_Some (general_stats_rows (world st') !! s_name f)).
Proof. apply init_reports. Qed.

Lemma init_succeeds_witness :
  exists st',
    init Py3 key_order ignore_ctrl [file "s1" star_log] blank
      = (Ret tt, st') /\
    name st' = "STAR" /\ anchor st' = "star" /\ sections st' = [] /\
    written (world st') =
      written (world blank) ++ [("multiqc_star.txt", star_data st')] /\
    intro st' =
      [Html intro_html; Bargraph (star_data st') chart_keys chart_config] /\
    found_record (size (star_data st')) ∈ log (world st') /\
    (forall f, f ∈ [file "s1" star_log] ->
       is_Some (star_data st' !! s_name f) /\
       is_Some (general_stats_rows (world st') !! s_name f)).
Proof.
  apply (init_succeeds Py3 key_order ignore_ctrl [file "s1" star_log] blank).
  - apply key_order_enumerates.
  - discriminate.
  - repeat constructor.
    exists (returned (parse_star_report Py3 star_log)). split.
    + apply StarFacts.returns_map_returned. vm_compute. reflexivity.
    + split;
      [ exists (field (returned (parse_star_report Py3 star_log))
                  "uniquely_mapped_percent")
      | exists (field (returned (parse_star_report Py3 star_log))
                  "uniquely_mapped") ];
      vm_compute; reflexivity.
Defined.
End ReportProperties.

(** ** The kraken2 module *)
Module KrakenFacts.
Import Re ReSpec ReFacts KrakenSpec.

(** What the pattern of [parse_kraken_log] matches, and what it captures. *)
Lemma Matches_kraken {v} ml before cs gs :
  Matches ml (Kraken2.regex v) before cs gs <->
  at_bol ml before = true /\
  exists r, row_ok v r /\ cs = row_text r /\ gs = row_groups r.
Proof.
  unfold Kraken2.regex, plus. split.
  - intros (c1 & c2 & g1 & g2 & -> & -> & (Hbol & -> & ->) & M).
    split; [exact Hbol|].
    destruct M as (ws & c4 & g3 & g4 & -> & -> & M3 & M).
    apply Matches_run in M3 as [Rws ->].
    destruct M as (c5 & c6 & g5 & g6 & -> & -> & (g7 & M5 & ->) & M).
    destruct M5 as (a & c8 & ga & g8 & -> & -> & Ma & dot & b & gd & gb & -> & ->
                    & Md & Mb).
    apply Matches_run in Ma as [Ra ->].
    apply Matches_chr in Md as [-> ->].
    apply Matches_run in Mb as [Rb ->].
    destruct M as (t1 & c9 & gt1 & g9 & -> & -> & Mt1 & M).
    apply Matches_chr in Mt1 as [-> ->].
    destruct M as (clade & c10 & gc & g10 & -> & -> & Mc & M).
    apply Matches_grp_run_inv in Mc as [Rc ->].
    destruct M as (t2 & c11 & gt2 & g11 & -> & -> & Mt2 & M).
    apply Matches_chr in Mt2 as [-> ->].
    destruct M as (direct & c12 & gdi & g12 & -> & -> & Mdi & M).
    apply Matches_grp_run_inv in Mdi as [Rd ->].
    destruct M as (t3 & c13 & gt3 & g13 & -> & -> & Mt3 & M).
    apply Matches_chr in Mt3 as [-> ->].
    destruct M as (rk & c14 & grk & g14 & -> & -> & (grk' & Mrk & ->) & M).
    destruct Mrk as [(c & -> & Hrank) ->].
    destruct M as (t4 & c15 & gt4 & g15 & -> & -> & Mt4 & M).
    apply Matches_chr in Mt4 as [-> ->].
    destruct M as (taxid & c16 & gtx & g16 & -> & -> & Mtx & M).
    apply Matches_grp_run_inv in Mtx as [Rt ->].
    destruct M as (gap & name & gws & gn & -> & -> & Mws & Mn).
    apply Matches_run in Mws as [Rg ->].
    apply Matches_grp_run_inv in Mn as [Rn ->].
    exists {| r_indent := ws; r_percent_int := a; r_percent_frac := b;
              r_clade := clade; r_direct := direct; r_rank := c;
              r_taxid := taxid; r_gap := gap; r_name := name |}.
    split; [|now split].
    unfold row_ok. cbn. repeat (split; [assumption|]). assumption.
  - intros (Hbol & r & Hok & -> & ->).
    destruct Hok as (Rws & Ra & Rb & Rc & Rd & Hrank & Rt & Rg & Rn).
    apply (Matches_seq ml Bol _ before [] _ [] _); [now repeat split|].
    apply (Matches_seq ml _ _ _ (r_indent r) _ [] _);
      [now apply Matches_run|].
    apply (Matches_seq ml _ _ _ (r_percent_int r ++ "."%char :: r_percent_frac r)
             _ [_] _).
    { exists []. split; [|reflexivity].
      apply (Matches_seq ml _ _ _ (r_percent_int r) ("."%char :: r_percent_frac r)
               [] []); [now apply Matches_run|].
      apply (Matches_seq ml _ _ _ ["."%char] (r_percent_frac r) [] []);
        [now apply Matches_chr|now apply Matches_run]. }
    apply (Matches_seq ml _ _ _ [TAB] _ [] _); [now apply Matches_chr|].
    apply (Matches_seq ml _ _ _ (r_clade r) _ [_] _);
      [now apply Matches_grp_run|].
    apply (Matches_seq ml _ _ _ [TAB] _ [] _); [now apply Matches_chr|].
    apply (Matches_seq ml _ _ _ (r_direct r) _ [_] _);
      [now apply Matches_grp_run|].
    apply (Matches_seq ml _ _ _ [TAB] _ [] _); [now apply Matches_chr|].
    apply (Matches_seq ml _ _ _ [r_rank r] _ [_] _).
    { exists []. split; [|reflexivity]. split; [|reflexivity].
      exists (r_rank r). now split. }
    apply (Matches_seq ml _ _ _ [TAB] _ [] _); [now apply Matches_chr|].
    apply (Matches_seq ml _ _ _ (r_taxid r) _ [_] _);
      [now apply Matches_grp_run|].
    apply (Matches_seq ml _ _ _ (r_gap r) (r_name r) [] [_]);
      [now apply Matches_run|now apply Matches_grp_run].
Qed.
End KrakenFacts.

Module KrakenProperties.
Import Re ReSpec ReFacts KrakenSpec KrakenFacts Samples.

(** X19: the pattern of [parse_kraken_log] finds a match in a text exactly
    when the text has, at its start or (under MULTILINE) after a newline, a
    row made of one or two whitespace characters, one or two digits, a
    point, one or two digits, a tab, digits, a tab, digits, a tab, one
    character of [UDKPCOFGS-], a tab, digits, whitespace and a name; the
    whitespace is the class [\s] of the version of Python. *)
Theorem kraken2_regex_rows v ml s :
  is_Some (search ml (Kraken2.regex v) s) <->
  exists pre r post,
    s = pre ++ row_text r ++ post /\ at_bol ml (rev pre) = true /\ row_ok v r.
Proof.
  rewrite search_contains. unfold contains. split.
  - intros (pre & cs & post & gs & -> & M).
    apply Matches_kraken in M as (Hbol & r & Hok & -> & _).
    now exists pre, r, post.
  - intros (pre & r & post & -> & Hbol & Hok).
    exists pre, (row_text r), post, (row_groups r). split; [reflexivity|].
    apply Matches_kraken. split; [exact Hbol|]. now exists r.
Qed.

(** X20: the six groups of a match are the columns of such a row: the
    percentage has at most two digits before the point and at most two
    after, and the rank is a single character. *)
Theorem kraken2_captured_groups v ml s g :
  search ml (Kraken2.regex v) s = Some g ->
  exists r, row_ok v r /\ g = row_groups r.
Proof.
  unfold search. intros H.
  apply search_from_sound in H as (pre & cs & post & _ & M).
  apply Matches_kraken in M as (_ & r & Hok & _ & ->). now exists r.
Qed.

Lemma kraken2_captured_groups_witness :
  exists r,
    row_ok Py3 r /\
    default [] (search true (Kraken2.regex Py3) species_line) = row_groups r.
Proof.
  apply (kraken2_captured_groups Py3 true species_line).
  vm_compute. reflexivity.
Defined.
End KrakenProperties.
